(** * NotebookLM-to-Zotero: the hybrid metadata resolution engine

    A shallow embedding of [src/popup/enrichment.js] and
    [src/popup/metadata-extractor.js], and the properties of the batch runner,
    the similarity scorer, the identifier extractor, the filename parser and
    the strategy chain that the specification states about them.

    Conventions of the embedding.
    - A JavaScript string is a Rocq [string]; its characters stand for the
      code units 0..255.  On that range [toLowerCase], [trim] and the classes
      [\s], [\d], [\w] are exactly the functions below.  The en dash and the
      em dash of the class [[-–—]] lie outside the range, so on the modelled
      strings that class holds the hyphen only.
    - A JavaScript number is an exact rational ([Q]).
    - A plain JavaScript object is a finite map from property names to
      values ([gmap string val]); the spread [{...a, ...b}] is the
      left-biased union [b ∪ a].
    - A regular expression literal is a term of [re], run by a backtracking
      matcher that follows the ECMAScript matching order. *)

From Stdlib Require Import Ascii String QArith Qminmax.
From Stdlib Require Import DecimalString.
From stdpp Require Import gmap strings list fin_maps.

Open Scope string_scope.

(** ** Characters *)

Module Char.

Definition code (c : ascii) : nat := nat_of_ascii c.

Definition in_range (lo hi : nat) (c : ascii) : bool :=
  (lo <=? code c)%nat && (code c <=? hi)%nat.

Definition same (d c : ascii) : bool := Ascii.eqb d c.

Definition is_digit : ascii -> bool := in_range 48 57.
Definition is_lower : ascii -> bool := in_range 97 122.
Definition is_upper : ascii -> bool := in_range 65 90.

(** [\w]: [A-Za-z0-9_]. *)
Definition is_word (c : ascii) : bool :=
  is_lower c || is_upper c || is_digit c || same "_" c.

(** [\s]: tab, line feed, vertical tab, form feed, carriage return, space and
    the no-break space (code 160). *)
Definition is_space (c : ascii) : bool :=
  in_range 9 13 c || (code c =? 32)%nat || (code c =? 160)%nat.

(** [String.prototype.toLowerCase] on one code unit of the range 0..255:
    [A-Z] and the upper-case letters 192..222 (but the multiplication sign,
    215) move up by 32. *)
Definition lower (c : ascii) : ascii :=
  if is_upper c || (in_range 192 222 c && negb (code c =? 215)%nat)
  then ascii_of_nat (code c + 32) else c.

Definition upper_ascii (c : ascii) : ascii :=
  if is_lower c then ascii_of_nat (code c - 32) else c.

(** A pattern character under the [i] flag: an ASCII letter matches both of
    its cases, any other character itself. *)
Definition is_ci (d c : ascii) : bool :=
  Ascii.eqb (upper_ascii d) (upper_ascii c).

End Char.

(** ** Regular expressions *)

Module Regex.

Inductive re : Type :=
| Eps
| Chr (p : ascii -> bool)
| Seq (r1 r2 : re)
| Alt (r1 r2 : re)
| Rep (greedy : bool) (lo : nat) (hi : option nat) (r : re)
| Grp (i : nat) (r : re)
| Bol
| Eol
| WordB.

(** The matcher's state: the character before the position, the input that
    is left, and the capture groups set so far (the latest first). *)
Record mstate : Type := MState {
  prev : option ascii;
  rest : list ascii;
  caps : list (nat * list ascii)
}.

Definition or_else {A} (x y : option A) : option A :=
  match x with Some _ => x | None => y end.

Definition dec_hi (hi : option nat) : option nat :=
  match hi with Some n => Some (Nat.pred n) | None => None end.

Definition hi_zero (hi : option nat) : bool :=
  match hi with Some 0 => true | _ => false end.

Definition word_before (st : mstate) : bool :=
  match prev st with Some c => Char.is_word c | None => false end.

Definition word_after (st : mstate) : bool :=
  match rest st with c :: _ => Char.is_word c | [] => false end.

(** The quantifier [{lo,hi}] around a matcher [body], greedy or lazy: it runs
    the body again while an iteration is owed ([lo > 0]) or consumes input,
    so it makes at most [lo + length (rest st)] iterations, and more [fuel]
    than that is never used up ([repeat_fuel] below). *)
Section Repeat.

Context {A : Type}.
Variable body : mstate -> (mstate -> option A) -> option A.
Variable k : mstate -> option A.
Variable greedy : bool.

Fixpoint repeat_ (fuel lo : nat) (hi : option nat) (st : mstate) : option A :=
  match fuel with
  | 0 => None
  | S fuel' =>
      let again :=
        if hi_zero hi then None
        else body st (fun st' =>
               if (lo =? 0)%nat && (length (rest st') =? length (rest st))%nat
               then None
               else repeat_ fuel' (Nat.pred lo) (dec_hi hi) st') in
      let leave := if (lo =? 0)%nat then k st else None in
      if greedy then or_else again leave else or_else leave again
  end.

End Repeat.

(** [run r st k]: match [r] at [st] and hand every way to do so, in the
    order of ECMAScript's backtracking, to the continuation [k]; the first
    one [k] accepts is the result. *)
Fixpoint run {A} (r : re) (st : mstate) (k : mstate -> option A) : option A :=
  match r with
  | Eps => k st
  | Chr p =>
      match rest st with
      | c :: s' => if p c then k (MState (Some c) s' (caps st)) else None
      | [] => None
      end
  | Seq r1 r2 => run r1 st (fun st' => run r2 st' k)
  | Alt r1 r2 => or_else (run r1 st k) (run r2 st k)
  | Rep greedy lo hi r1 =>
      repeat_ (run r1) k greedy (S (lo + length (rest st))) lo hi st
  | Grp i r1 =>
      run r1 st (fun st' =>
        k (MState (prev st') (rest st')
             ((i, take (length (rest st) - length (rest st')) (rest st))
                :: caps st')))
  | Bol => match prev st with None => k st | Some _ => None end
  | Eol => match rest st with [] => k st | _ :: _ => None end
  | WordB => if xorb (word_before st) (word_after st) then k st else None
  end.

(** A matcher hands to its continuation only states that have no more
    input left than it was given. *)
Definition shrinking {A} (m : mstate -> (mstate -> option A) -> option A) : Prop :=
  forall st k k',
    (forall st', (length (rest st') <= length (rest st))%nat -> k st' = k' st') ->
    m st k = m st k'.

(** One match: the text matched and the capture groups. *)
Record found : Type := Found {
  whole : list ascii;
  groups : list (nat * list ascii);
  after : list ascii
}.

Definition match_at (r : re) (p : option ascii) (s : list ascii) : option found :=
  run r (MState p s [])
      (fun st => Some (Found (take (length s - length (rest st)) s)
                             (caps st) (rest st))).

(** The first match at or after the current position ([RegExp.prototype.exec]
    of a pattern without the [g] flag), with the text skipped before it. *)
Fixpoint search_from (r : re) (p : option ascii) (s : list ascii)
    (skipped : list ascii) : option (list ascii * found) :=
  match match_at r p s with
  | Some m => Some (rev skipped, m)
  | None =>
      match s with
      | [] => None
      | c :: s' => search_from r (Some c) s' (c :: skipped)
      end
  end.

Definition search (r : re) (s : list ascii) : option (list ascii * found) :=
  search_from r None s [].

Definition group (i : nat) (m : found) : option (list ascii) :=
  snd <$> List.find (fun '(j, _) => (j =? i)%nat) (groups m).

(** All the matches of a pattern with the [g] flag, left to right and not
    overlapping; after an empty match the search moves on by one character.
    [skip] counts the characters of the last match still to step over. *)
Fixpoint all_from (r : re) (p : option ascii) (s : list ascii) (skip : nat)
    : list (list ascii) :=
  match skip with
  | S n =>
      match s with
      | [] => []
      | c :: s' => all_from r (Some c) s' n
      end
  | 0 =>
      match match_at r p s with
      | Some m =>
          whole m ::
            match s with
            | [] => []
            | c :: s' => all_from r (Some c) s' (Nat.pred (length (whole m)))
            end
      | None =>
          match s with
          | [] => []
          | c :: s' => all_from r (Some c) s' 0
          end
      end
  end.

(** [str.replace(r, '')] for a pattern with the [g] flag. *)
Fixpoint remove_all_from (r : re) (p : option ascii) (s : list ascii)
    (skip : nat) : list ascii :=
  match skip with
  | S n =>
      match s with
      | [] => []
      | c :: s' => remove_all_from r (Some c) s' n
      end
  | 0 =>
      match match_at r p s with
      | Some m =>
          match s with
          | [] => []
          | c :: s' =>
              match whole m with
              | [] => c :: remove_all_from r (Some c) s' 0
              | _ :: w => remove_all_from r (Some c) s' (length w)
              end
          end
      | None =>
          match s with
          | [] => []
          | c :: s' => c :: remove_all_from r (Some c) s' 0
          end
      end
  end.

(** [str.replace(r, by)] for a pattern with the [g] flag and a replacement
    text without [$] patterns. *)
Fixpoint replace_all_from (r : re) (by_ : list ascii) (p : option ascii)
    (s : list ascii) (skip : nat) : list ascii :=
  match skip with
  | S n =>
      match s with
      | [] => []
      | c :: s' => replace_all_from r by_ (Some c) s' n
      end
  | 0 =>
      match match_at r p s with
      | Some m =>
          by_ ++
            match s with
            | [] => []
            | c :: s' =>
                match whole m with
                | [] => c :: replace_all_from r by_ (Some c) s' 0
                | _ :: w => replace_all_from r by_ (Some c) s' (length w)
                end
            end
      | None =>
          match s with
          | [] => []
          | c :: s' => c :: replace_all_from r by_ (Some c) s' 0
          end
      end
  end.

(** [str.split(r)] on a string that is not empty: a match that ends where
    the current piece starts is passed over, any other match closes the
    piece; [piece] holds, reversed, the characters of the piece being read. *)
Fixpoint split_from (r : re) (p : option ascii) (s : list ascii)
    (piece : list ascii) (skip : nat) : list (list ascii) :=
  match s with
  | [] => [rev piece]
  | c :: s' =>
      match skip with
      | S n => split_from r (Some c) s' piece n
      | 0 =>
          match match_at r p s with
          | Some m =>
              match whole m, piece with
              | [], [] => split_from r (Some c) s' [c] 0
              | [], _ :: _ => rev piece :: split_from r (Some c) s' [c] 0
              | _ :: w, _ => rev piece :: split_from r (Some c) s' [] (length w)
              end
          | None => split_from r (Some c) s' (c :: piece) 0
          end
      end
  end.

Definition split (r : re) (s : list ascii) : list (list ascii) :=
  match s with
  | [] => match match_at r None [] with Some _ => [] | None => [[]] end
  | _ :: _ => split_from r None s [] 0
  end.

Definition match_all (r : re) (s : list ascii) : option (list (list ascii)) :=
  match all_from r None s 0 with
  | [] => None
  | ms => Some ms
  end.

Definition remove_all (r : re) (s : list ascii) : list ascii :=
  remove_all_from r None s 0.

Definition replace_all (r : re) (by_ : list ascii) (s : list ascii) : list ascii :=
  replace_all_from r by_ None s 0.

(** [str.replace(r, by)] for a pattern without the [g] flag: the first match
    only. *)
Definition replace_first (r : re) (by_ : list ascii) (s : list ascii) : list ascii :=
  match search r s with
  | Some (before, m) => before ++ by_ ++ after m
  | None => s
  end.

(** Pattern syntax. *)
Definition lit (c : ascii) : re := Chr (Char.same c).
Definition lit_ci (c : ascii) : re := Chr (Char.is_ci c).
Definition str_with (f : ascii -> re) (s : string) : re :=
  foldr (fun c r => Seq (f c) r) Eps (list_ascii_of_string s).
Definition text : string -> re := str_with lit.
Definition text_ci : string -> re := str_with lit_ci.
Definition digit : re := Chr Char.is_digit.
Definition space : re := Chr Char.is_space.
Definition non_space : re := Chr (fun c => negb (Char.is_space c)).
Definition star (r : re) : re := Rep true 0 None r.
Definition plus (r : re) : re := Rep true 1 None r.
Definition plus_lazy (r : re) : re := Rep false 1 None r.
Definition opt (r : re) : re := Rep true 0 (Some 1) r.
Definition exactly (n : nat) (r : re) : re := Rep true n (Some n) r.
Definition at_least (n : nat) (r : re) : re := Rep true n None r.
Definition between (n m : nat) (r : re) : re := Rep true n (Some m) r.
Fixpoint seq (rs : list re) : re :=
  match rs with
  | [] => Eps
  | [r] => r
  | r :: rs' => Seq r (seq rs')
  end.

End Regex.

(** ** JavaScript strings and sets of strings *)

Module Js.

Import Regex.

Definition chars : string -> list ascii := list_ascii_of_string.
Definition str : list ascii -> string := string_of_list_ascii.

Definition toLowerCase (s : string) : string := str (map Char.lower (chars s)).

Fixpoint drop_spaces (s : list ascii) : list ascii :=
  match s with
  | c :: s' => if Char.is_space c then drop_spaces s' else s
  | [] => []
  end.

Definition trim (s : string) : string :=
  str (rev (drop_spaces (rev (drop_spaces (chars s))))).

Fixpoint starts_with (t s : list ascii) : bool :=
  match t, s with
  | [], _ => true
  | _ :: _, [] => false
  | d :: t', c :: s' => Ascii.eqb d c && starts_with t' s'
  end.

Fixpoint includes_chars (s t : list ascii) : bool :=
  starts_with t s ||
  match s with
  | [] => false
  | _ :: s' => includes_chars s' t
  end.

(** [s.includes(t)] *)
Definition includes (s t : string) : bool := includes_chars (chars s) (chars t).

(** [s.match(r)] for a pattern without the [g] flag. *)
Definition exec (r : re) (s : string) : option found :=
  snd <$> search r (chars s).

(** [m[i]] of a match array: a group that took no part is [undefined]. *)
Definition capture (i : nat) (m : found) : option string :=
  str <$> group i m.

Definition test (r : re) (s : string) : bool :=
  match exec r s with Some _ => true | None => false end.

(** [s.match(r)] for a pattern with the [g] flag: every match, no groups. *)
Definition match_g (r : re) (s : string) : option (list string) :=
  map str <$> match_all r (chars s).

Definition replace (r : re) (by_ s : string) : string :=
  str (replace_first r (chars by_) (chars s)).

Definition replace_g (r : re) (by_ s : string) : string :=
  str (replace_all r (chars by_) (chars s)).

Definition split (r : re) (s : string) : list string :=
  map str (Regex.split r (chars s)).

(** A [Set] of strings, as the list of its members in insertion order. *)
Definition set_has (s : list string) (x : string) : bool :=
  bool_decide (x ∈ s).

Definition set_add (s : list string) (x : string) : list string :=
  if set_has s x then s else s ++ [x].

(** [new Set(l)] *)
Definition new_Set (l : list string) : list string := foldl set_add [] l.

End Js.

(** ** The similarity scorer ([enrichment.js], [calculateTitleSimilarity]) *)

(** [/[^a-z0-9\s]/] *)
Definition re_not_alnum_space : Regex.re :=
  Regex.Chr (fun c => negb (Char.is_lower c || Char.is_digit c || Char.is_space c)).

(** [/\s+/] *)
Definition re_spaces : Regex.re := Regex.plus Regex.space.

(** [t.toLowerCase().replace(/[^a-z0-9\s]/g, '').trim()] *)
Definition clean_title (t : string) : string :=
  Js.trim (Js.replace_g re_not_alnum_space "" (Js.toLowerCase t)).

Definition size_of (s : list string) : Q := inject_Z (Z.of_nat (length s)).

Definition calculateTitleSimilarity (title1 title2 : string) : Q :=
  let clean1 := clean_title title1 in
  let clean2 := clean_title title2 in
  if String.eqb clean1 clean2 then 1%Q
  else
    let words1 := Js.new_Set (Js.split re_spaces clean1) in
    let words2 := Js.new_Set (Js.split re_spaces clean2) in
    let intersection := Js.new_Set (List.filter (Js.set_has words2) words1) in
    let union := Js.new_Set (words1 ++ words2) in
    let jaccard := (size_of intersection / size_of union)%Q in
    let substring :=
      if Js.includes clean1 clean2 || Js.includes clean2 clean1
      then (2 # 10)%Q else 0%Q in
    Qmin 1 (jaccard + substring)%Q.

(** The scorer as the specification words it: both titles are normalized
    (lower case, only letters, digits and white space kept, white space
    collapsed, trimmed); equal normal forms score 1; otherwise the Jaccard
    index of the two sets of tokens, plus 0.2 when one normal form contains
    the other, at most 1. *)
Definition normalize_spec (t : string) : string :=
  Js.trim (Js.replace_g re_spaces " "
             (Js.replace_g re_not_alnum_space "" (Js.toLowerCase t))).

Definition tokens (t : string) : gset string :=
  list_to_set (Js.split re_spaces t).

Definition score_of (n1 n2 : string) : Q :=
  if decide (n1 = n2) then 1%Q
  else
    let jaccard :=
      (inject_Z (Z.of_nat (size (tokens n1 ∩ tokens n2)))
       / inject_Z (Z.of_nat (size (tokens n1 ∪ tokens n2))))%Q in
    let bonus :=
      if Js.includes n1 n2 || Js.includes n2 n1 then (2 # 10)%Q else 0%Q in
    Qmin 1 (jaccard + bonus)%Q.

Definition titleSimilarity_spec (a b : string) : Q :=
  score_of (normalize_spec a) (normalize_spec b).

(** ** Values, objects and exceptions *)

Inductive val : Type :=
| VUndef
| VNull
| VBool (b : bool)
| VNum (q : Q)
| VStr (s : string)
| VArr (l : list string).

Abbreviation obj := (gmap string val).

(** [o.k]: a property that is not there reads as [undefined]. *)
Definition get (o : obj) (k : string) : val := default VUndef (o !! k).

Definition truthy (v : val) : bool :=
  match v with
  | VUndef | VNull => false
  | VBool b => b
  | VNum q => negb (Qeq_bool q 0)
  | VStr s => negb (String.eqb s "")
  | VArr _ => true
  end.

(** [a || b] and [a && b] on values. *)
Definition js_or (a b : val) : val := if truthy a then a else b.
Definition js_and (a b : val) : val := if truthy a then b else a.

(** [v >= n] for a number [n].  [undefined] compares as [NaN], [null] as 0,
    a boolean as 0 or 1; a string or an array under [confidence] is a value
    this code base never stores there and is taken as not comparable. *)
Definition js_ge (v : val) (n : Q) : bool :=
  match v with
  | VNum q => Qle_bool n q
  | VNull => Qle_bool n 0
  | VBool b => Qle_bool n (if b then 1 else 0)
  | VUndef | VStr _ | VArr _ => false
  end.

(** The result of a call: a value, or an [Error] thrown with its message. *)
Inductive outcome (A : Type) : Type :=
| Returned (a : A)
| Thrown (message : string).
Arguments Returned {A} a.
Arguments Thrown {A} message.

#[global] Instance outcome_ret : MRet outcome := @Returned.
#[global] Instance outcome_bind : MBind outcome := fun A B f x =>
  match x with
  | Returned a => f a
  | Thrown e => Thrown e
  end.
#[global] Instance outcome_fmap : FMap outcome := fun A B f x =>
  match x with
  | Returned a => Returned (f a)
  | Thrown e => Thrown e
  end.

(** The message of the [TypeError] raised by a method call on a value that
    has no such method; the engine's wording of it is not modelled. *)
Definition type_error : string := "TypeError".

(** [String(n)] and [padStart(2, '0')] for an integer. *)
Definition string_of_Z (z : Z) : string := NilZero.string_of_int (Z.to_int z).

Definition pad2 (s : string) : string :=
  match String.length s with
  | 0 => "00"
  | 1 => "0" ++ s
  | _ => s
  end.

(** [parseInt] on a string of decimal digits. *)
Definition parseInt (s : string) : Z :=
  foldl (fun n c => (10 * n + Z.of_nat (Char.code c - 48))%Z) 0%Z (Js.chars s).

(** ** The identifier extractor ([metadata-extractor.js]) *)

Import Regex.

(** [10\\.\\d{4,}\\/[^\\s]+] *)
Definition re_doi_body : re :=
  seq [text "10."; at_least 4 digit; lit "/"; plus non_space].

(** [DOI_PATTERNS]; each entry carries the [g] and [i] flags. *)
Definition DOI_PATTERNS_standard : re := seq [WordB; Grp 1 re_doi_body].
Definition DOI_PATTERNS_url : re := seq [text_ci "doi.org/"; Grp 1 re_doi_body].
Definition DOI_PATTERNS_embedded : re :=
  seq [text_ci "doi"; plus (Alt (lit ":") space); Grp 1 re_doi_body].

Definition DOI_PATTERNS : list (string * re) :=
  [("standard", DOI_PATTERNS_standard);
   ("url", DOI_PATTERNS_url);
   ("embedded", DOI_PATTERNS_embedded)].

(** [SOURCE_PATTERNS]; each entry carries the [i] flag. *)
Definition SOURCE_PATTERNS_arxiv : re :=
  seq [text_ci "arxiv.org/"; Alt (text_ci "abs") (text_ci "pdf"); lit "/";
       Grp 1 (seq [plus digit; lit "."; plus digit])].
Definition SOURCE_PATTERNS_pubmed : re :=
  seq [text_ci "pubmed.ncbi.nlm.nih.gov/"; Grp 1 (plus digit)].
Definition SOURCE_PATTERNS_doi : re := seq [text_ci "doi.org/"; Grp 1 re_doi_body].
Definition SOURCE_PATTERNS_springer : re :=
  seq [text_ci "link.springer.com/"; Alt (text_ci "article") (text_ci "chapter");
       lit "/"; Grp 1 re_doi_body].
Definition SOURCE_PATTERNS_wiley : re :=
  seq [text_ci "onlinelibrary.wiley.com/doi/"; Alt (text_ci "abs") (text_ci "full");
       lit "/"; Grp 1 re_doi_body].
Definition SOURCE_PATTERNS_acm : re :=
  seq [text_ci "dl.acm.org/doi/"; Alt (text_ci "abs") (text_ci "full");
       lit "/"; Grp 1 re_doi_body].
Definition SOURCE_PATTERNS_plos : re :=
  seq [text_ci "journals.plos.org/plosone/article?id="; Grp 1 re_doi_body].

(** [/^doi:?\\s*/i] and [/^https?:\\/\\/(?:dx\\.)?doi\\.org\\//i] *)
Definition re_doi_marker : re :=
  seq [Bol; text_ci "doi"; opt (lit ":"); star space].
Definition re_doi_resolver : re :=
  seq [Bol; text_ci "http"; opt (lit_ci "s"); text "://"; opt (text_ci "dx.");
       text_ci "doi.org/"].

Definition cleanDOI (doi : string) : string :=
  Js.trim (Js.replace re_doi_resolver "" (Js.replace re_doi_marker "" doi)).

(** The loop of [extractDOI] over the entries of [DOI_PATTERNS]: under the
    [g] flag [match] is the array of all the matches, so [match[0]] is the
    first match and [match[1]] the second one, if there is one; [cleanDOI]
    throws on [undefined].  [None]: no pattern matched. *)
Fixpoint extractDOI_title (title : string) (patterns : list (string * re))
    : option (outcome (option string)) :=
  match patterns with
  | [] => None
  | (type, pattern) :: patterns' =>
      match Js.match_g pattern title with
      | Some matches =>
          let doi := if String.eqb type "standard" then matches !! 0%nat
                     else matches !! 1%nat in
          Some match doi with
               | Some d => Returned (Some (cleanDOI d))
               | None => Thrown type_error
               end
      | None => extractDOI_title title patterns'
      end
  end.

Definition extractDOI_url (url : string) : option string :=
  match Js.exec SOURCE_PATTERNS_doi url with
  | Some doiMatch => cleanDOI <$> Js.capture 1 doiMatch
  | None =>
      match Js.match_g DOI_PATTERNS_standard url with
      | Some urlDoi => cleanDOI <$> urlDoi !! 0%nat
      | None => None
      end
  end.

(** A property used as a string when it is truthy: [Some s] for a string
    that is not empty, [None] for a falsy value; a method call on any other
    truthy value throws. *)
Definition truthy_string (v : val) : outcome (option string) :=
  match v with
  | VStr s => Returned (if String.eqb s "" then None else Some s)
  | v => if truthy v then Thrown type_error else Returned None
  end.

Definition extractDOI (source : obj) : outcome (option string) :=
  title ← truthy_string (get source "title");
  match title ≫= (fun t => extractDOI_title t DOI_PATTERNS) with
  | Some hit => hit
  | None =>
      url ← truthy_string (get source "url");
      Returned (url ≫= extractDOI_url)
  end.

(** ** The filename parser ([enrichment.js], [parseFilenameMetadata]) *)

Definition dash : re := lit "-".
Definition upper : re := Chr Char.is_upper.
Definition lower : re := Chr Char.is_lower.
Definition any_but (c : ascii) : re := Chr (fun d => negb (Ascii.eqb c d)).
(** [.]: any character but a line terminator. *)
Definition any_char : re :=
  Chr (fun c => negb ((Char.code c =? 10)%nat || (Char.code c =? 13)%nat)).
Definition year4 : re := exactly 4 digit.

(** [/^([^-]+?)\\s+et\\s+al\\.?\\s*[-–—]\\s*(\\d{4})/i] *)
Definition pattern1 : re :=
  seq [Bol; Grp 1 (plus_lazy (any_but "-")); plus space; text_ci "et";
       plus space; text_ci "al"; opt (lit "."); star space; dash; star space;
       Grp 2 year4].

(** [/^([^(]+?)\\s*\\((\\d{4})\\)/] *)
Definition pattern2 : re :=
  seq [Bol; Grp 1 (plus_lazy (any_but "(")); star space; lit "(";
       Grp 2 year4; lit ")"].

(** [/^([A-Z][a-z]+(?:-[A-Z][a-z]+)?)\\s*[-–—]\\s*(\\d{4})/] *)
Definition pattern3 : re :=
  seq [Bol;
       Grp 1 (seq [upper; plus lower; opt (seq [lit "-"; upper; plus lower])]);
       star space; dash; star space; Grp 2 year4].

(** [/^([A-Z][a-z]+(?:\\s+[A-Z][a-z]+)?)\\s*(\\d{4})\\s+/] *)
Definition pattern4 : re :=
  seq [Bol;
       Grp 1 (seq [upper; plus lower; opt (seq [plus space; upper; plus lower])]);
       star space; Grp 2 year4; plus space].

(** [/\\s+(&|and)\\s+.*/] *)
Definition re_coauthors : re :=
  seq [plus space; Grp 1 (Alt (lit "&") (text "and")); plus space; star any_char].

Record parsed : Type := Parsed {
  author : option string;
  year : option Z
}.

(** [match[i]] of a group that took part in the match. *)
Definition cap (i : nat) (m : found) : string := default "" (Js.capture i m).

Definition parseFilenameMetadata (title : string) : parsed :=
  let result := Parsed None None in
  match Js.exec pattern1 title with
  | Some match1 =>
      Parsed (Some (Js.trim (cap 1 match1))) (Some (parseInt (cap 2 match1)))
  | None =>
  match Js.exec pattern2 title with
  | Some match2 =>
      Parsed (Some (Js.trim (Js.replace re_coauthors "" (cap 1 match2))))
             (Some (parseInt (cap 2 match2)))
  | None =>
  match Js.exec pattern3 title with
  | Some match3 =>
      Parsed (Some (Js.trim (cap 1 match3))) (Some (parseInt (cap 2 match3)))
  | None =>
  match Js.exec pattern4 title with
  | Some match4 =>
      Parsed (Some (Js.trim (cap 1 match4))) (Some (parseInt (cap 2 match4)))
  | None => result
  end end end end.

(** ** Title cleaning and type detection ([enrichment.js]) *)

(** [/\\.(pdf|docx?|xlsx?|pptx?)$/i] *)
Definition re_extension : re :=
  seq [lit ".";
       Grp 1 (Alt (text_ci "pdf")
             (Alt (seq [text_ci "doc"; opt (lit_ci "x")])
             (Alt (seq [text_ci "xls"; opt (lit_ci "x")])
                  (seq [text_ci "ppt"; opt (lit_ci "x")]))));
       Eol].

(** The class of the two quote characters (codes 34 and 39), under [g]. *)
Definition re_quotes : re :=
  Chr (fun c => (Char.code c =? 34)%nat || (Char.code c =? 39)%nat).

(** [/\\s*-\\s*(arXiv|ResearchGate|YouTube).*$/i] *)
Definition re_platform_suffix : re :=
  seq [star space; lit "-"; star space;
       Grp 1 (Alt (text_ci "arXiv") (Alt (text_ci "ResearchGate") (text_ci "YouTube")));
       star any_char; Eol].

(** [/\\s+et\\s+al\\.?\\s*/i] *)
Definition re_et_al : re :=
  seq [plus space; text_ci "et"; plus space; text_ci "al"; opt (lit ".");
       star space].

(** [/\\s*\\d{4}\\s*-\\s*/g] *)
Definition re_year_dash : re :=
  seq [star space; year4; star space; lit "-"; star space].

Definition cleanTitleForSearch (title : string) : string :=
  Js.trim
    (Js.replace_g re_spaces " "
      (Js.replace_g re_year_dash " "
        (Js.replace re_et_al " "
          (Js.replace re_platform_suffix ""
            (Js.replace_g re_quotes ""
              (Js.replace re_extension "" title)))))).

(** [/\\.(pdf|docx?)$/i] and [/\\d{4}/] *)
Definition re_pdf_doc : re :=
  seq [lit "."; Grp 1 (Alt (text_ci "pdf") (seq [text_ci "doc"; opt (lit_ci "x")]));
       Eol].

(** A property read as a string: the method calls of [detectSourceType] and
    of the batch runner throw on anything else. *)
Definition as_string (v : val) : outcome string :=
  match v with
  | VStr s => Returned s
  | _ => Thrown type_error
  end.

(** [source.url?.toLowerCase() || ''] *)
Definition url_lower (v : val) : outcome string :=
  match v with
  | VUndef | VNull => Returned ""
  | VStr s => Returned (Js.toLowerCase s)
  | _ => Thrown type_error
  end.

Definition is_pdf (v : val) : bool :=
  match v with VStr s => String.eqb s "pdf" | _ => false end.

Definition detectSourceType (source : obj) : outcome string :=
  t ← as_string (get source "title");
  let title := Js.toLowerCase t in
  url ← url_lower (get source "url");
  if Js.includes title "youtube" || Js.includes url "youtube.com"
     || Js.includes url "youtu.be"
  then Returned "youtube"
  else if Js.includes title "arxiv" || Js.includes url "arxiv.org"
  then Returned "arxiv"
  else if is_pdf (get source "type")
          || Js.test re_pdf_doc title
          || Js.test year4 title
          || Js.includes title "et al"
          || Js.includes title "journal"
          || Js.includes title "conference"
  then Returned "academic"
  else if negb (String.eqb url "") || (20 <? String.length title)%nat
  then Returned "web"
  else Returned "unknown".

(** ** Provider payloads and provider clients *)

(** A CrossRef work, with the members the code reads; every one of them may
    be missing. *)
Record Person : Type := {
  given : option string;
  family : option string;
  name : option string
}.

Record DateObj : Type := { date_parts : option (list (list Z)) }.

Record Work : Type := {
  w_title : option (list string);
  w_author : option (list Person);
  w_DOI : option string;
  w_abstract : option string;
  w_published : option DateObj;
  w_created : option DateObj;
  w_container_title : option (list string);
  w_volume : option string;
  w_issue : option string;
  w_page : option string;
  w_publisher : option string;
  w_ISSN : option (list string);
  w_URL : option string;
  w_type : option string;
  w_score : option Q;
  w_is_referenced_by_count : option Z
}.

(** What [fetch] and [response.json()] give for one request. *)
Inductive response (A : Type) : Type :=
| NetworkError
| HttpError
| Ok (body : A).
Arguments NetworkError {A}.
Arguments HttpError {A}.
Arguments Ok {A} body.

(** The world outside: what each request returns, and the clients whose
    bodies parse XML or a web page or read the browser's storage. *)
Record Providers : Type := {
  crossref_work : string -> response Work;
  crossref_find : string -> response (list Work);
  crossref_search : string -> response (list Work);
  crossref_structured : string -> Z -> string -> response (list Work);
  getMetadataFromArxiv : string -> option obj;
  getMetadataFromPubMed : string -> option obj;
  queryOpenAlex : string -> option obj;
  querySemanticScholar : string -> option obj;
  enrichArxiv : obj -> outcome obj;
  enrichWeb : obj -> outcome obj;
  enrichYoutube : obj -> outcome obj
}.

(** [s || d], [xs?.[0]], [d?.['date-parts']?.[0]?.[0]] and [n || d]. *)
Definition filled (o : option string) : option string :=
  match o with
  | Some s => if String.eqb s "" then None else Some s
  | None => None
  end.
Definition str_or (o : option string) (d : val) : val :=
  match filled o with Some s => VStr s | None => d end.
Definition first (o : option (list string)) : option string :=
  xs ← o; head xs.
Definition year_of (d : option DateObj) : option Z :=
  dateObj ← d; parts ← date_parts dateObj; part ← head parts; head part.
Definition nonzero (o : option Z) : option Z :=
  match o with
  | Some z => if (z =? 0)%Z then None else Some z
  | None => None
  end.
Definition num (z : Z) : val := VNum (inject_Z z).
Definition num_or (o : option Z) (d : val) : val :=
  match nonzero o with Some z => num z | None => d end.
Definition opt_str (o : option string) : val :=
  match o with Some s => VStr s | None => VUndef end.

(** [String(x)] for a number that may be [undefined]. *)
Definition String_of (o : option Z) : string :=
  match o with Some z => string_of_Z z | None => "undefined" end.

Definition formatCrossRefDate (dateObj : option DateObj) : string :=
  match dateObj ≫= date_parts with
  | None | Some [] => ""
  | Some (parts :: _) =>
      let year := parts !! 0%nat in
      let month := parts !! 1%nat in
      let day := parts !! 2%nat in
      match nonzero month, nonzero day with
      | Some m, Some d =>
          String_of year ++ "-" ++ pad2 (string_of_Z m) ++ "-" ++ pad2 (string_of_Z d)
      | Some m, None => String_of year ++ "-" ++ pad2 (string_of_Z m)
      | None, _ => String_of year
      end
  end.

Definition doi_or_undefined (o : option string) : string :=
  match o with Some s => s | None => "undefined" end.

(** The author names of [getMetadataFromDOI]. *)
Definition author_name (a : Person) : string :=
  match filled (given a), filled (family a) with
  | Some g, Some f => g ++ " " ++ f
  | _, _ => default "" (filled (family a) ∪ filled (name a))
  end.

Definition getMetadataFromDOI (P : Providers) (doi : string) : option obj :=
  match crossref_work P doi with
  | Ok work =>
      Some (list_to_map [
        ("title", str_or (first (w_title work)) (VStr ""));
        ("authors", VArr (map author_name (default [] (w_author work))));
        ("doi", opt_str (w_DOI work));
        ("abstract", str_or (w_abstract work) (VStr ""));
        ("year", num_or (nonzero (year_of (w_published work))
                          ∪ nonzero (year_of (w_created work))) (VStr ""));
        ("journal", str_or (first (w_container_title work)) (VStr ""));
        ("volume", str_or (w_volume work) (VStr ""));
        ("issue", str_or (w_issue work) (VStr ""));
        ("pages", str_or (w_page work) (VStr ""));
        ("publisher", str_or (w_publisher work) (VStr ""));
        ("issn", str_or (first (w_ISSN work)) (VStr ""));
        ("url", str_or (w_URL work)
                  (VStr ("https://doi.org/" ++ doi_or_undefined (w_DOI work))));
        ("type", str_or (w_type work) (VStr "journal-article"));
        ("confidence", VNum 100);
        ("enrichmentSource", VStr "CrossRef (DOI)");
        ("date", VStr (formatCrossRefDate (w_published work ∪ w_created work)))
      ])
  | NetworkError | HttpError => None
  end.

(** [/10\\.\\d{4,}\\/[^\\s&?]+/] *)
Definition re_doi_in_url : re :=
  seq [text "10."; at_least 4 digit; lit "/";
       plus (Chr (fun c => negb (Char.is_space c || Char.same "&" c || Char.same "?" c)))].

Definition publisherPatterns : list re :=
  [SOURCE_PATTERNS_springer; SOURCE_PATTERNS_wiley; SOURCE_PATTERNS_acm;
   SOURCE_PATTERNS_plos].

Fixpoint first_matching (patterns : list re) (url : string) : option found :=
  match patterns with
  | [] => None
  | pattern :: patterns' =>
      match Js.exec pattern url with
      | Some m => Some m
      | None => first_matching patterns' url
      end
  end.

Definition getMetadataFromURL (P : Providers) (url : string) : option obj :=
  match Js.exec SOURCE_PATTERNS_arxiv url with
  | Some arxivMatch => getMetadataFromArxiv P (cap 1 arxivMatch)
  | None =>
  match Js.exec SOURCE_PATTERNS_pubmed url with
  | Some pubmedMatch => getMetadataFromPubMed P (cap 1 pubmedMatch)
  | None =>
  match Js.exec SOURCE_PATTERNS_doi url with
  | Some doiMatch => getMetadataFromDOI P (cap 1 doiMatch)
  | None =>
  match first_matching publisherPatterns url with
  | Some m => getMetadataFromDOI P (cap 1 m)
  | None =>
  match Js.exec re_doi_in_url url with
  | Some embeddedDoi => getMetadataFromDOI P (Js.str (whole embeddedDoi))
  | None => None
  end end end end end.

(** [findDOIByTitle]: the first hit of the title search, kept when its score
    is not below 30.  [title.substring] runs before the [try]. *)
Definition findDOIByTitle (P : Providers) (title : val) : outcome (option string) :=
  t ← as_string title;
  Returned
    match crossref_find P t with
    | Ok (firstResult :: _) =>
        let score := default 0%Q (w_score firstResult) in
        if negb (Qle_bool 30 score) then None else w_DOI firstResult
    | Ok [] | NetworkError | HttpError => None
    end.

(** ** The hybrid extraction ([metadata-extractor.js]) *)

Definition extractMetadataHybrid (P : Providers) (source : obj)
    : outcome (option obj) :=
  doi ← extractDOI source;
  match filled doi ≫= getMetadataFromDOI P with
  | Some metadata =>
      Returned (Some (<["hadDOI" := VBool true]> (metadata ∪ source)))
  | None =>
  url ← truthy_string (get source "url");
  match url ≫= getMetadataFromURL P with
  | Some metadata =>
      Returned (Some (<["hadURL" := VBool true]> (metadata ∪ source)))
  | None =>
  doi ← findDOIByTitle P (get source "title");
  match filled doi ≫= getMetadataFromDOI P with
  | Some metadata =>
      Returned (Some (<["foundByTitle" := VBool true]>
                        (<["hadDOI" := VBool true]> (metadata ∪ source))))
  | None => Returned None
  end end end.

(** ** The title-search chain ([enrichment.js]) *)

(** The author names of the title-search clients:
    [`${a.given || ''} ${a.family || ''}`.trim()]. *)
Definition given_family (a : Person) : string :=
  Js.trim (default "" (filled (given a)) ++ " " ++ default "" (filled (family a))).

Definition below (q bound : Q) : bool := negb (Qle_bool bound q).

(** The members that [queryCrossRef] and [queryWithAuthorYear] share. *)
Definition crossref_fields (item : Work) (title : string) (year confidence : val)
    : list (string * val) :=
  [("title", str_or (first (w_title item)) (VStr title));
   ("authors", VArr (map given_family (default [] (w_author item))));
   ("doi", str_or (w_DOI item) VNull);
   ("journal", str_or (first (w_container_title item)) VNull);
   ("volume", str_or (w_volume item) VNull);
   ("issue", str_or (w_issue item) VNull);
   ("pages", str_or (w_page item) VNull);
   ("year", year);
   ("abstract", str_or (w_abstract item) VNull);
   ("publisher", str_or (w_publisher item) VNull);
   ("issn", str_or (first (w_ISSN item)) VNull);
   ("url", str_or (w_URL item)
             match filled (w_DOI item) with
             | Some d => VStr ("https://doi.org/" ++ d)
             | None => VNull
             end);
   ("confidence", confidence)].

Definition queryWithAuthorYear (P : Providers) (author : string) (year : Z)
    (title : string) : option obj :=
  match crossref_structured P author year title with
  | Ok (item :: _) =>
      let titleConfidence :=
        calculateTitleSimilarity title (default "" (filled (first (w_title item)))) in
      let yearMatch :=
        if bool_decide (year_of (w_published item) = Some year)
        then (2 # 10)%Q else 0%Q in
      let confidence := Qmin 1 (titleConfidence + yearMatch)%Q in
      if below confidence (7 # 10) then None
      else Some (list_to_map
                   (crossref_fields item title
                      (num_or (year_of (w_published item)) (num year))
                      (VNum confidence)))
  | Ok [] | NetworkError | HttpError => None
  end.

Definition queryCrossRef (P : Providers) (title : string) : option obj :=
  match crossref_search P title with
  | Ok (item :: _) =>
      let confidence :=
        calculateTitleSimilarity title (default "" (filled (first (w_title item)))) in
      if below confidence (7 # 10) then None
      else Some (<["citations" := num_or (w_is_referenced_by_count item) VNull]>
                   (list_to_map
                      (crossref_fields item title
                         (num_or (nonzero (year_of (w_published item))
                                    ∪ nonzero (year_of (w_created item))) VNull)
                         (VNum confidence))))
  | Ok [] | NetworkError | HttpError => None
  end.

(** [{ ...source, ...metadata, enrichmentType: tag }] when the client gave a
    candidate whose confidence reaches the bar. *)
Definition accept (source : obj) (metadata : option obj) (bar : Q) (tag : string)
    : option obj :=
  match metadata with
  | Some m =>
      if js_ge (get m "confidence") bar
      then Some (<["enrichmentType" := VStr tag]> (m ∪ source))
      else None
  | None => None
  end.

Definition no_match (source : obj) : obj :=
  <["enrichmentType" := VStr "none"]> (<["confidence" := VNum 0]> source).

Definition structured (P : Providers) (p : parsed) (cleanTitle : string)
    : option obj :=
  match filled (author p), nonzero (year p) with
  | Some a, Some y => queryWithAuthorYear P a y cleanTitle
  | _, _ => None
  end.

Definition enrichAcademic (P : Providers) (source : obj) : outcome obj :=
  title ← as_string (get source "title");
  let cleanTitle := cleanTitleForSearch title in
  let parsed := parseFilenameMetadata title in
  Returned
    match accept source (structured P parsed cleanTitle) (7 # 10) "structured_query" with
    | Some r => r
    | None =>
    match accept source (queryCrossRef P cleanTitle) (7 # 10) "crossref" with
    | Some r => r
    | None =>
    match accept source (queryOpenAlex P cleanTitle) (65 # 100) "openalex" with
    | Some r => r
    | None =>
    match accept source (querySemanticScholar P cleanTitle) (65 # 100) "semanticscholar" with
    | Some r => r
    | None => no_match source
    end end end end.

(** The part of [enrichSource] after the hybrid attempt: the chain of the
    detected type. *)
Definition enrichByType (P : Providers) (source : obj) : outcome obj :=
  type ← detectSourceType source;
  if String.eqb type "academic" then enrichAcademic P source
  else if String.eqb type "arxiv" then enrichArxiv P source
  else if String.eqb type "web" then enrichWeb P source
  else if String.eqb type "youtube" then enrichYoutube P source
  else Returned (no_match source).

(** The hybrid attempt of [enrichSource]: [hybrid] is the global
    [extractMetadataHybrid], which may not be defined where the file is
    loaded; an exception of it is swallowed. *)
Definition hybrid_attempt (hybrid : option (obj -> outcome (option obj)))
    (source : obj) : option obj :=
  match hybrid with
  | Some extract =>
      match extract source with
      | Returned (Some hybridMetadata) =>
          if js_ge (get hybridMetadata "confidence") 90
          then Some hybridMetadata else None
      | Returned None | Thrown _ => None
      end
  | None => None
  end.

Definition enrichSource (P : Providers)
    (hybrid : option (obj -> outcome (option obj))) (source : obj) : outcome obj :=
  match hybrid_attempt hybrid source with
  | Some hybridMetadata => Returned hybridMetadata
  | None => enrichByType P source
  end.

(** ** The batch runner ([enrichment.js], [enrichSources]) *)

Record tallies : Type := Tallies {
  success : nat;
  partial : nat;
  failed : nat
}.

(** The [status] texts of the progress reports. *)
Inductive status : Type :=
| Processing
| FullMetadata
| PartialMetadata
| NoMatch
| ErrorStatus (message : string)
| Complete.

(** One call of [progressCallback]. *)
Record progress : Type := Progress {
  p_current : nat;
  p_total : nat;
  p_source : option string;
  p_status : status;
  p_type : option string;
  p_results : option tallies
}.

(** [enrichedSource.authors?.length > 0] *)
Definition authors_length_positive (r : obj) : bool :=
  match get r "authors" with
  | VArr l => (0 <? length l)%nat
  | VStr s => (0 <? String.length s)%nat
  | VUndef | VNull | VBool _ | VNum _ => false
  end.

Definition hasFullMetadata (enrichedSource : obj) : val :=
  js_and (VBool (authors_length_positive enrichedSource))
         (js_or (js_or (get enrichedSource "doi") (get enrichedSource "abstract"))
                (get enrichedSource "journal")).

Definition hasPartialMetadata (enrichedSource : obj) : val :=
  js_or (js_or (VBool (authors_length_positive enrichedSource))
               (get enrichedSource "doi"))
        (get enrichedSource "abstract").

(** [{ ...source, confidence: 0, error: error.message }] *)
Definition error_record (source : obj) (message : string) : obj :=
  <["error" := VStr message]> (<["confidence" := VNum 0]> source).

(** What the loop holds: the array [enriched], the tallies [results] and,
    for the caller's side, the calls of [progressCallback] so far. *)
Record run : Type := Run {
  enriched : list obj;
  results : tallies;
  reports : list progress
}.

Definition report (p : progress) (st : run) : run :=
  Run (enriched st) (results st) (reports st ++ [p]).
Definition push (r : obj) (st : run) : run :=
  Run (enriched st ++ [r]) (results st) (reports st).
Definition count_success (st : run) : run :=
  let t := results st in
  Run (enriched st) (Tallies (S (success t)) (partial t) (failed t)) (reports st).
Definition count_partial (st : run) : run :=
  let t := results st in
  Run (enriched st) (Tallies (success t) (S (partial t)) (failed t)) (reports st).
Definition count_failed (st : run) : run :=
  let t := results st in
  Run (enriched st) (Tallies (success t) (partial t) (S (failed t))) (reports st).

Section BatchRunner.

(** The per-record call [await enrichSource(source)], in a world that each
    call may change: it returns a record or throws. *)
Context {World : Type}.
Variable enrichSource : obj -> World -> outcome obj * World.

(** The body of the [try] after [enrichSource] returned, and the [catch]. *)
Definition on_returned (current total : nat) (snippet : string)
    (enrichedSource : obj) (st : run) : run :=
  let says s t := Progress current total (Some snippet) s (Some t) None in
  push enrichedSource
    (if truthy (hasFullMetadata enrichedSource)
     then report (says FullMetadata "success") (count_success st)
     else if truthy (hasPartialMetadata enrichedSource)
     then report (says PartialMetadata "partial") (count_partial st)
     else report (says NoMatch "failed") (count_failed st)).

Definition on_thrown (current total : nat) (snippet : string) (source : obj)
    (message : string) (st : run) : run :=
  report (Progress current total (Some snippet) (ErrorStatus message)
            (Some "error") None)
    (push (error_record source message) (count_failed st)).

(** The [for] loop from index [i] on; [rest] is [sources.slice(i)].  The
    snippet [source.title.substring(0, 60)] is taken outside the [try]. *)
Fixpoint enrichSources_loop (total i : nat) (rest : list obj) (st : run)
    (w : World) : outcome run * World :=
  match rest with
  | [] => (Returned st, w)
  | source :: rest' =>
      match as_string (get source "title") with
      | Thrown e => (Thrown e, w)
      | Returned title =>
          let snippet := substring 0 60 title in
          let st1 :=
            report (Progress (i + 1) total (Some snippet) Processing None None) st in
          let '(r, w') := enrichSource source w in
          let st2 :=
            match r with
            | Returned enrichedSource =>
                on_returned (i + 1) total snippet enrichedSource st1
            | Thrown message =>
                on_thrown (i + 1) total snippet source message st1
            end in
          enrichSources_loop total (S i) rest' st2 w'
      end
  end.

(** The whole call: the final state of the loop with the closing report. *)
Definition enrichSources_run (sources : list obj) (w : World)
    : outcome run * World :=
  let total := length sources in
  match enrichSources_loop total 0 sources (Run [] (Tallies 0 0 0) []) w with
  | (Returned st, w') =>
      (Returned (report (Progress total total None Complete (Some "complete")
                           (Some (results st))) st), w')
  | (Thrown e, w') => (Thrown e, w')
  end.

(** [enrichSources(sources, progressCallback)]: the array it resolves to. *)
Definition enrichSources (sources : list obj) (w : World) : outcome (list obj) :=
  match fst (enrichSources_run sources w) with
  | Returned st => Returned (enriched st)
  | Thrown e => Thrown e
  end.

(** The per-record calls in order, each made in the world the one before it
    left: the record given and what the call did. *)
Fixpoint calls (sources : list obj) (w : World) : list (obj * outcome obj) :=
  match sources with
  | [] => []
  | source :: rest =>
      let '(r, w') := enrichSource source w in
      (source, r) :: calls rest w'
  end.

End BatchRunner.

(** The record the runner emits for one call, and the level the
    specification gives it. *)
Definition emitted (c : obj * outcome obj) : obj :=
  match c with
  | (_, Returned r) => r
  | (source, Thrown message) => error_record source message
  end.

Inductive level : Type := Success | Partial | Failed.

#[global] Instance level_eq_dec : EqDecision level.
Proof. solve_decision. Defined.

Definition has_author (r : obj) : bool :=
  match get r "authors" with
  | VArr (_ :: _) => true
  | VStr s => negb (String.eqb s "")
  | _ => false
  end.

Definition has (k : string) (r : obj) : bool := truthy (get r k).

Definition classify (r : obj) : level :=
  if has_author r && (has "doi" r || has "abstract" r || has "journal" r)
  then Success
  else if has_author r || has "doi" r || has "abstract" r
  then Partial
  else Failed.

Definition level_of (c : obj * outcome obj) : level :=
  match c with
  | (_, Returned r) => classify r
  | (_, Thrown _) => Failed
  end.

Definition count_level (l : level) (cs : list (obj * outcome obj)) : nat :=
  length (List.filter (fun c => bool_decide (level_of c = l)) cs).

Definition has_title (source : obj) : Prop :=
  exists title, get source "title" = VStr title.

(** The reports the caller receives for one call, and for the calls from
    index [i] on. *)
Definition tag_of (c : obj * outcome obj) : string :=
  match c with
  | (_, Thrown _) => "error"
  | (_, Returned r) =>
      match classify r with
      | Success => "success"
      | Partial => "partial"
      | Failed => "failed"
      end
  end.

Definition status_of (c : obj * outcome obj) : status :=
  match c with
  | (_, Thrown message) => ErrorStatus message
  | (_, Returned r) =>
      match classify r with
      | Success => FullMetadata
      | Partial => PartialMetadata
      | Failed => NoMatch
      end
  end.

Definition snippet_of (source : obj) : string :=
  match get source "title" with
  | VStr title => substring 0 60 title
  | _ => ""
  end.

Definition reports_of (total i : nat) (c : obj * outcome obj) : list progress :=
  [Progress (i + 1) total (Some (snippet_of (fst c))) Processing None None;
   Progress (i + 1) total (Some (snippet_of (fst c))) (status_of c)
     (Some (tag_of c)) None].

Fixpoint reports_from (total i : nat) (cs : list (obj * outcome obj))
    : list progress :=
  match cs with
  | [] => []
  | c :: cs' => reports_of total i c ++ reports_from total (S i) cs'
  end.

Definition is_thrown (c : obj * outcome obj) : bool :=
  match c with (_, Thrown _) => true | (_, Returned _) => false end.

(** The tallies after one more record of a level, and after the calls
    [cs]. *)
Definition add_level (l : level) (t : tallies) : tallies :=
  match l with
  | Success => Tallies (S (success t)) (partial t) (failed t)
  | Partial => Tallies (success t) (S (partial t)) (failed t)
  | Failed => Tallies (success t) (partial t) (S (failed t))
  end.

Definition tally (cs : list (obj * outcome obj)) (t : tallies) : tallies :=
  Tallies (success t + count_level Success cs)
          (partial t + count_level Partial cs)
          (failed t + count_level Failed cs).


(** The report that closes record [i] (counted from 0) of a run over [total]
    records. *)
Definition closing_report (total i : nat) (c : obj * outcome obj) : progress :=
  Progress (i + 1) total (Some (snippet_of (fst c))) (status_of c)
    (Some (tag_of c)) None.

(** [has_title], decided. *)
Definition titled (source : obj) : bool :=
  match get source "title" with VStr _ => true | _ => false end.

(** ** The video id ([enrichment.js], [extractYoutubeId]) *)

(** [[a-zA-Z0-9_-]] *)
Definition id_char (c : ascii) : bool :=
  Char.is_lower c || Char.is_upper c || Char.is_digit c
  || Char.same "_" c || Char.same "-" c.

(** [([a-zA-Z0-9_-]{11})] *)
Definition re_video_id : re := Grp 1 (exactly 11 (Chr id_char)).

(** [/(?:youtube\\.com\\/watch\\?v=|youtu\\.be\\/)([a-zA-Z0-9_-]{11})/],
    [/youtube\\.com\\/embed\\/([a-zA-Z0-9_-]{11})/] and
    [/^([a-zA-Z0-9_-]{11})$/] *)
Definition youtube_watch : re :=
  seq [Alt (text "youtube.com/watch?v=") (text "youtu.be/"); re_video_id].
Definition youtube_embed : re := seq [text "youtube.com/embed/"; re_video_id].
Definition youtube_bare : re := seq [Bol; re_video_id; Eol].

Definition youtube_patterns : list re :=
  [youtube_watch; youtube_embed; youtube_bare].

Definition extractYoutubeId (text : val) : outcome (option string) :=
  t ← truthy_string text;
  Returned (t ≫= fun t => cap 1 <$> first_matching youtube_patterns t).

(** The url that [enrichYoutube] writes into the record:
    [`https://youtube.com/watch?v=${videoId}`]. *)
Definition watch_url (videoId : string) : string :=
  "https://youtube.com/watch?v=" ++ videoId.

(** Eleven characters of the class of a video id. *)
Definition video_id (id : string) : bool :=
  (length (Js.chars id) =? 11)%nat && forallb id_char (Js.chars id).

(** [enrichYoutube] in a browser that stores no API key
    ([localStorage.getItem] gives [null]): the record without a video id
    gets the confidence 0, the other one the link to the video; the text the
    id is read from is [source.url || source.title]. *)
Definition enrichYoutube_nokey (source : obj) : outcome obj :=
  videoId ← extractYoutubeId (js_or (get source "url") (get source "title"));
  Returned
    match filled videoId with
    | None => <["confidence" := VNum 0]> source
    | Some id =>
        <["enrichmentType" := VStr "youtube_nokey"]>
          (<["confidence" := VNum (3 # 10)]>
             (<["url" := VStr (watch_url id)]> source))
    end.

(** ** Test doubles *)

(** No network and no stored API key: every request fails, the clients of
    arXiv and of the web give the record with the confidence 0 that their
    [catch] returns, and [enrichYoutube] is [enrichYoutube_nokey]. *)
Definition offline : Providers := {|
  crossref_work := fun _ => NetworkError;
  crossref_find := fun _ => NetworkError;
  crossref_search := fun _ => NetworkError;
  crossref_structured := fun _ _ _ => NetworkError;
  getMetadataFromArxiv := fun _ => None;
  getMetadataFromPubMed := fun _ => None;
  queryOpenAlex := fun _ => None;
  querySemanticScholar := fun _ => None;
  enrichArxiv := fun source => Returned (<["confidence" := VNum 0]> source);
  enrichWeb := fun source => Returned (<["confidence" := VNum 0]> source);
  enrichYoutube := enrichYoutube_nokey
|}.

Definition no_work : Work := {|
  w_title := None; w_author := None; w_DOI := None; w_abstract := None;
  w_published := None; w_created := None; w_container_title := None;
  w_volume := None; w_issue := None; w_page := None; w_publisher := None;
  w_ISSN := None; w_URL := None; w_type := None; w_score := None;
  w_is_referenced_by_count := None
|}.

(** The whole of [enrichSource] with the hybrid extraction loaded, as the
    batch runner calls it; the providers are fixed, so the world is [unit]. *)
Definition enrichSource_with (P : Providers) (source : obj) (w : unit)
    : outcome obj * unit :=
  (enrichSource P (Some (extractMetadataHybrid P)) source, w).

(** The second record has a number where its url should be: the call of
    [toLowerCase] on it in [detectSourceType] throws. *)
Definition three_sources : list obj :=
  [ {[ "title" := VStr "Notes" ]};
    {[ "title" := VStr "Slides"; "url" := VNum 0 ]};
    {[ "title" := VStr "Minutes" ]} ].

(** A CrossRef that knows two works: "Attention Is All You Need", found by
    title at relevance 85 and resolved by its DOI, and "Deep Learning for
    NLP", which the plain title search returns without DOI or URL. *)
Definition attention_doi : string := "10.48550/arXiv.1706.03762".

Definition attention_hit : Work := {|
  w_title := Some ["Attention Is All You Need"]; w_author := None;
  w_DOI := Some attention_doi; w_abstract := None;
  w_published := None; w_created := None; w_container_title := None;
  w_volume := None; w_issue := None; w_page := None; w_publisher := None;
  w_ISSN := None; w_URL := None; w_type := None; w_score := Some 85%Q;
  w_is_referenced_by_count := None
|}.

Definition attention_work : Work := {|
  w_title := Some ["Attention Is All You Need"];
  w_author := Some [ {| given := Some "Ashish"; family := Some "Vaswani"; name := None |};
                     {| given := Some "Noam"; family := Some "Shazeer"; name := None |} ];
  w_DOI := Some attention_doi; w_abstract := None;
  w_published := Some {| date_parts := Some [[2017; 6; 12]%Z] |};
  w_created := None; w_container_title := None;
  w_volume := None; w_issue := None; w_page := None;
  w_publisher := Some "arXiv";
  w_ISSN := None; w_URL := None; w_type := Some "posted-content";
  w_score := None; w_is_referenced_by_count := None
|}.

Definition deep_learning_item : Work := {|
  w_title := Some ["Deep Learning for NLP"];
  w_author := Some [ {| given := Some "Ada"; family := Some "Lovelace"; name := None |} ];
  w_DOI := None; w_abstract := None;
  w_published := None; w_created := None; w_container_title := None;
  w_volume := None; w_issue := None; w_page := None; w_publisher := None;
  w_ISSN := None; w_URL := None; w_type := None; w_score := None;
  w_is_referenced_by_count := None
|}.

Definition scholar : Providers := {|
  crossref_work := fun doi =>
    if String.eqb doi attention_doi then Ok attention_work else HttpError;
  crossref_find := fun title =>
    if String.eqb title "Attention Is All You Need" then Ok [attention_hit]
    else Ok [];
  crossref_search := fun title =>
    if String.eqb title "Deep Learning for NLP" then Ok [deep_learning_item]
    else Ok [];
  crossref_structured := fun _ _ _ => Ok [];
  getMetadataFromArxiv := fun _ => None;
  getMetadataFromPubMed := fun _ => None;
  queryOpenAlex := fun _ => None;
  querySemanticScholar := fun _ => None;
  enrichArxiv := fun source => Returned (<["confidence" := VNum 0]> source);
  enrichWeb := fun source =>
    Returned (<["abstract" := VStr "A page about the subject."]>
               (<["authors" := VArr []]> (<["confidence" := VNum (7 # 10)]> source)));
  enrichYoutube := enrichYoutube_nokey
|}.

Definition attention_source : obj :=
  {[ "title" := VStr "Attention Is All You Need"; "url" := VStr "" ]}.

Definition deep_learning_source : obj :=
  {[ "title" := VStr "Deep Learning for NLP";
     "url" := VStr "https://example.org/dl-nlp";
     "type" := VStr "pdf" ]}.

Definition mixed_sources : list obj :=
  [ attention_source;
    {[ "title" := VStr "A long title of some page on the web";
       "url" := VStr "https://example.org/page" ]};
    {[ "title" := VStr "Lecture on YouTube" ]};
    {[ "title" := VStr "Slides"; "url" := VNum 0 ]};
    {[ "title" := VStr "Notes" ]} ].

(** A hybrid extraction that answers with a fixed confidence, and one that
    throws. *)
Definition hybrid_at (c : Q) (source : obj) : outcome (option obj) :=
  Returned (Some (<["confidence" := VNum c]> source)).
Definition hybrid_broken (source : obj) : outcome (option obj) :=
  Thrown "extraction failed".

(** Whether a client answered; what a call returned, or [d] when it threw. *)
Definition answered {A} (o : option A) : bool :=
  match o with Some _ => true | None => false end.
Definition is_returned {A} (x : outcome A) : bool :=
  match x with Returned _ => true | Thrown _ => false end.
Definition returned_or {A} (d : A) (x : outcome A) : A :=
  match x with Returned a => a | Thrown _ => d end.

(** The candidate the plain title search gives for [deep_learning_source],
    and the record [enrichSource] returns for it. *)
Definition deep_learning_candidate : obj :=
  default ∅ (queryCrossRef scholar (cleanTitleForSearch "Deep Learning for NLP")).

Definition deep_learning_enriched : obj :=
  returned_or ∅
    (enrichSource scholar (Some (extractMetadataHybrid scholar)) deep_learning_source).

(** ** The merge rule, as the specification words it and as the code has it *)

(** A value a candidate leaves undefined or empty. *)
Definition is_empty (v : val) : bool :=
  match v with
  | VUndef | VNull => true
  | VStr s => String.eqb s ""
  | VBool _ | VNum _ | VArr _ => false
  end.

(** The specification's merge: apart from the members [marks] that are
    always set, a member that is empty in the candidate keeps the input's
    value. *)
Definition keeps_input_where_empty (source metadata marks r : obj) : Prop :=
  forall k, marks !! k = None ->
    is_empty (get metadata k) = true -> get r k = get source k.

(** The code's merge: the members of [marks] are set as the orchestrator
    sets them, every other member the candidate object carries is taken
    from it, whatever its value, and the others are the input's. *)
Definition overlaid (source metadata marks r : obj) : Prop :=
  forall k,
    r !! k = match marks !! k with
             | Some mark => Some mark
             | None =>
                 match metadata !! k with
                 | Some v => Some v
                 | None => source !! k
                 end
             end.

(** ** The filename patterns in their order *)




(** A candidate of the hybrid chain for [source], with the marks its step
    sets: the resolution of the identifier found in the title or the url,
    what the url itself resolved to, or the resolution of the identifier
    that the title search gave. *)
Definition hybrid_candidate (P : Providers) (source metadata marks : obj) : Prop :=
  (exists doi,
     extractDOI source = Returned (Some doi)
     /\ getMetadataFromDOI P doi = Some metadata
     /\ marks = {[ "hadDOI" := VBool true ]})
  \/ (exists url,
        get source "url" = VStr url
        /\ getMetadataFromURL P url = Some metadata
        /\ marks = {[ "hadURL" := VBool true ]})
  \/ (exists doi,
        findDOIByTitle P (get source "title") = Returned (Some doi)
        /\ getMetadataFromDOI P doi = Some metadata
        /\ marks = {[ "foundByTitle" := VBool true; "hadDOI" := VBool true ]}).

(** A candidate of the academic chain, with the tag of its client: what one
    of the four title-search clients returned for the cleaned title. *)
Definition academic_candidate (P : Providers) (title : string)
    (metadata : obj) (tag : string) : Prop :=
  let cleanTitle := cleanTitleForSearch title in
  (structured P (parseFilenameMetadata title) cleanTitle = Some metadata
   /\ tag = "structured_query")
  \/ (queryCrossRef P cleanTitle = Some metadata /\ tag = "crossref")
  \/ (queryOpenAlex P cleanTitle = Some metadata /\ tag = "openalex")
  \/ (querySemanticScholar P cleanTitle = Some metadata
      /\ tag = "semanticscholar").

(** The report that opens record [i] (counted from 0). *)
Definition opening_report (total i : nat) (source : obj) : progress :=
  Progress (i + 1) total (Some (snippet_of source)) Processing None None.

Definition untitled_then_titled : list obj :=
  [ {[ "title" := VStr "Notes" ]};
    {[ "url" := VStr "https://example.org" ]};
    {[ "title" := VStr "Minutes" ]} ].

(** ** Character-wise readings of the one-character patterns *)

(** What replacing every match of a one-character class does. *)
Definition subst_chars (p : ascii -> bool) (by_ : list ascii) (s : list ascii)
    : list ascii :=
  flat_map (fun c => if p c then by_ else [c]) s.

(** The characters [calculateTitleSimilarity] keeps. *)
Definition kept (c : ascii) : bool :=
  Char.is_lower c || Char.is_digit c || Char.is_space c.

(** A list of characters with no white space at its head. *)
Definition starts_clean (s : list ascii) : Prop :=
  match s with
  | [] => True
  | c :: _ => Char.is_space c = false
  end.

(** [s.trim()] on the characters. *)
Definition trim_chars (s : list ascii) : list ascii :=
  rev (Js.drop_spaces (rev (Js.drop_spaces s))).

(** ** Providers that do not answer *)

(** No identifier resolution answers: CrossRef's work lookup fails and the
    arXiv and PubMed clients find nothing. *)
Definition no_resolution (P : Providers) : Prop :=
  (forall doi, crossref_work P doi = NetworkError \/ crossref_work P doi = HttpError)
  /\ (forall id, getMetadataFromArxiv P id = None)
  /\ (forall id, getMetadataFromPubMed P id = None).

(** No title search answers: the CrossRef searches fail or are empty, and
    the OpenAlex and Semantic Scholar clients find nothing. *)
Definition failing {A} (r : response (list A)) : Prop :=
  r = NetworkError \/ r = HttpError \/ r = Ok [].

Definition no_title_search (P : Providers) : Prop :=
  (forall author year title, failing (crossref_structured P author year title))
  /\ (forall title, failing (crossref_search P title))
  /\ (forall title, queryOpenAlex P title = None)
  /\ (forall title, querySemanticScholar P title = None).

(** The tags [enrichAcademic] sets. *)
Definition academic_tags : list string :=
  ["structured_query"; "crossref"; "openalex"; "semanticscholar"; "none"].

Definition filename_source : obj :=
  {[ "title" := VStr "Smith et al - 2024 - Deep Learning.pdf"; "type" := VStr "pdf" ]}.

(** ** The abstract of OpenAlex ([enrichment.js], [reconstructAbstract]) *)

(** A JavaScript array of strings that may have holes. *)
Abbreviation sparse := (list (option string)).

(** [words[pos] = word]: inside the array the element is replaced; beyond
    its end the array grows, with holes up to [pos]. *)
Definition array_set (words : sparse) (pos : nat) (word : string) : sparse :=
  if (pos <? length words)%nat then <[pos := Some word]> words
  else words ++ replicate (pos - length words) None ++ [Some word].

(** [words.filter(Boolean)]: holes are passed over, empty strings are
    falsy. *)
Definition filter_Boolean (words : sparse) : list string :=
  omap (fun w => w ≫= fun s => if String.eqb s "" then None else Some s) words.

(** [l.join(sep)] *)
Fixpoint join (sep : string) (l : list string) : string :=
  match l with
  | [] => ""
  | [s] => s
  | s :: l' => s ++ sep ++ join sep l'
  end.

(** [invertedIndex] is given by its entries, in the order of
    [Object.entries]; the positions are array indices. *)
Definition reconstructAbstract (invertedIndex : list (string * list nat)) : string :=
  let words :=
    foldl (fun words '(word, positions) =>
             foldl (fun words pos => array_set words pos word) words positions)
          [] invertedIndex in
  substring 0 1000 (join " " (filter_Boolean words)).

(** [index] is an inverted index of the word sequence [ws]: a word lists a
    position exactly when it stands there. *)
Definition indexes (index : list (string * list nat)) (ws : list string) : Prop :=
  forall i w,
    (exists positions, (w, positions) ∈ index /\ i ∈ positions) <-> ws !! i = Some w.

Definition nonempty (s : string) : bool := negb (String.eqb s "").

(** The single writes [words[pos] = word] of [reconstructAbstract], in the
    order in which they are made. *)
Definition writes (index : list (string * list nat)) : list (nat * string) :=
  flat_map (fun '(word, positions) => map (fun pos => (pos, word)) positions) index.

Definition write_all (words : sparse) (ws : list (nat * string)) : sparse :=
  foldl (fun words '(pos, word) => array_set words pos word) words ws.

(** A cell that holds a word. *)
Definition filled_at (words : sparse) (i : nat) : Prop :=
  exists x, words !! i = Some (Some x).

(** The cells that hold a word hold the word of [ws], and the array is no
    longer than [ws]. *)
Definition agrees (ws : list string) (words : sparse) : Prop :=
  (forall i x, words !! i = Some (Some x) -> ws !! i = Some x)
  /\ (length words <= length ws)%nat.

(** [indexes], decided. *)
Definition indexes_b (index : list (string * list nat)) (ws : list string) : bool :=
  forallb (fun '(w, ps) => forallb (fun p => bool_decide (ws !! p = Some w)) ps) index
  && forallb (fun i =>
       existsb (fun '(w, ps) => bool_decide (ws !! i = Some w) && bool_decide (i ∈ ps))
               index)
       (List.seq 0 (length ws)).

(** ** Reading a match backwards *)

(** The character before the position reached after [pre] was read. *)
Definition last_or (p : option ascii) (pre : list ascii) : option ascii :=
  match last pre with
  | Some c => Some c
  | None => p
  end.

(** [r] matches exactly one character, of the class [P]. *)
Definition one_char (P : ascii -> bool) (r : Regex.re) : Prop :=
  forall A (st : Regex.mstate) (k : Regex.mstate -> option A) x,
    Regex.run r st k = Some x ->
    exists c s',
      Regex.rest st = c :: s' /\ P c = true
      /\ k (Regex.MState (Some c) s' (Regex.caps st)) = Some x.

(** Whether [r] matches at some position of [s], [p] being the character
    before [s]. *)
Fixpoint anywhere (r : Regex.re) (p : option ascii) (s : list ascii) : bool :=
  answered (Regex.match_at r p s)
  || match s with
     | [] => false
     | c :: s' => anywhere r (Some c) s'
     end.

(** A value that holds a string, or is falsy. *)
Definition string_or_falsy (v : val) : Prop :=
  match v with
  | VStr _ => True
  | v => truthy v = false
  end.

(** [extractDOI] without the [url] and [embedded] entries of the title loop,
    on a record whose title and url are strings or falsy. *)
Definition text_of (v : val) : option string :=
  match v with
  | VStr s => if String.eqb s "" then None else Some s
  | _ => None
  end.

Definition first_standard_match (title : string) : option string :=
  Js.match_g DOI_PATTERNS_standard title ≫= head.

Definition extractDOI_standard_only (source : obj) : option string :=
  match text_of (get source "title") ≫= first_standard_match with
  | Some doi => Some (cleanDOI doi)
  | None => text_of (get source "url") ≫= extractDOI_url
  end.

(** ** What a pattern can read *)

(** [matches r st st']: the pattern [r] can read from the state [st] to the
    state [st'].  The matcher hands to its continuation only such states
    ([run_matches] below). *)
Inductive matches : Regex.re -> Regex.mstate -> Regex.mstate -> Prop :=
| matches_Eps st :
    matches Regex.Eps st st
| matches_Chr (p : ascii -> bool) q c s cs :
    p c = true ->
    matches (Regex.Chr p) (Regex.MState q (c :: s) cs) (Regex.MState (Some c) s cs)
| matches_Seq r1 r2 st st1 st2 :
    matches r1 st st1 -> matches r2 st1 st2 -> matches (Regex.Seq r1 r2) st st2
| matches_Alt_l r1 r2 st st' :
    matches r1 st st' -> matches (Regex.Alt r1 r2) st st'
| matches_Alt_r r1 r2 st st' :
    matches r2 st st' -> matches (Regex.Alt r1 r2) st st'
| matches_Rep_leave greedy hi r st :
    matches (Regex.Rep greedy 0 hi r) st st
| matches_Rep_again greedy lo hi r st st1 st2 :
    Regex.hi_zero hi = false ->
    matches r st st1 ->
    matches (Regex.Rep greedy (Nat.pred lo) (Regex.dec_hi hi) r) st1 st2 ->
    matches (Regex.Rep greedy lo hi r) st st2
| matches_Grp i r st st' :
    matches r st st' ->
    matches (Regex.Grp i r) st
      (Regex.MState (Regex.prev st') (Regex.rest st')
         ((i, take (length (Regex.rest st) - length (Regex.rest st')) (Regex.rest st))
            :: Regex.caps st'))
| matches_Bol s cs :
    matches Regex.Bol (Regex.MState None s cs) (Regex.MState None s cs)
| matches_Eol q cs :
    matches Regex.Eol (Regex.MState q [] cs) (Regex.MState q [] cs)
| matches_WordB st :
    xorb (Regex.word_before st) (Regex.word_after st) = true ->
    matches Regex.WordB st st.

(** The text between two positions of the same input. *)
Definition read (st st' : Regex.mstate) : list ascii :=
  take (length (Regex.rest st) - length (Regex.rest st')) (Regex.rest st).

(** ** The shape of an extracted identifier *)

(** The text that [10\\.\\d{4,}\\/[^\\s]+] reads: ["10."], four digits or
    more, a slash, and one character or more that is no white space. *)
Definition doi_shaped (d : list ascii) : Prop :=
  exists digits body : list ascii,
    d = (Js.chars "10." ++ digits ++ "/"%char :: body)%list
    /\ (4 <= length digits)%nat
    /\ Forall (fun c => Char.is_digit c = true) digits
    /\ body <> []
    /\ Forall (fun c => Char.is_space c = false) body.

(** [r] reads at least one character, and its first one is of the class
    [P]. *)
Definition first_char (P : ascii -> bool) (r : Regex.re) : Prop :=
  forall st st',
    matches r st st' -> exists c s, Regex.rest st = c :: s /\ P c = true.

(** ** The year of a parsed filename *)

(** A pattern without capture groups. *)
Fixpoint groupless (r : re) : bool :=
  match r with
  | Grp _ _ => false
  | Seq r1 r2 | Alt r1 r2 => groupless r1 && groupless r2
  | Rep _ _ _ r1 => groupless r1
  | Eps | Chr _ | Bol | Eol | WordB => true
  end.

(** Whatever [r] reads, group 2 is the last group set, and it holds four
    digits of the text read. *)
Definition reads_year (r : re) : Prop :=
  forall st st',
    matches r st st' ->
    exists (pre w post : list ascii) cs,
      rest st = (pre ++ w ++ post)%list
      /\ caps st' = (2%nat, w) :: cs
      /\ length w = 4%nat
      /\ Forall (fun c => Char.is_digit c = true) w.

(** A filename that holds an identifier, and a link to a video. *)
Definition smith_source : obj :=
  {[ "title" := VStr "Smith et al - 2024 - 10.1038/s41586-024-01234-5.pdf" ]}.

Definition video_link : val := VStr "https://youtu.be/dQw4w9WgXcQ?t=42".

Definition video_record : obj :=
  {[ "title" := VStr "Never Gonna Give You Up"; "url" := video_link ]}.

(** ** The shape of a cleaned title *)

(** The length of the run of characters of the class [p] at the head of
    [s]. *)
Fixpoint run_length (p : ascii -> bool) (s : list ascii) : nat :=
  match s with
  | c :: s' => if p c then S (run_length p s') else 0
  | [] => 0
  end.

(** A text whose only white space is the space character, with no two
    spaces in a row; [after_space] says that a space stands before the
    text, so that the text must not start with one. *)
Fixpoint spaced (after_space : bool) (s : list ascii) : bool :=
  match s with
  | [] => true
  | c :: s' =>
      if Char.is_space c
      then negb after_space && Char.same " " c && spaced true s'
      else spaced false s'
  end.

(** The class of [re_quotes]. *)
Definition is_quote (c : ascii) : bool :=
  (Char.code c =? 34)%nat || (Char.code c =? 39)%nat.

(** ** Where an extracted identifier ends *)

(** A text that is empty or starts with white space. *)
Definition at_space (s : list ascii) : Prop :=
  match s with
  | [] => True
  | c :: _ => Char.is_space c = true
  end.

(** ** The four formats of a filename *)






(** * Properties *)

(** ** The matcher: the fuel of a quantifier is never used up *)

Section Fuel.

Import Regex.
Context {A : Type}.

Lemma repeat_shrinking (body : mstate -> (mstate -> option A) -> option A) greedy :
  shrinking body ->
  forall fuel lo hi, shrinking (fun st k => repeat_ body k greedy fuel lo hi st).
Proof.
  intros Hb fuel. induction fuel as [| fuel IH]; intros lo hi st k k' Hk;
    simpl; [reflexivity |].
  rewrite (Hk st) by lia.
  assert (E : body st (fun st' =>
                if (lo =? 0)%nat && (length (rest st') =? length (rest st))%nat
                then None
                else repeat_ body k greedy fuel (Nat.pred lo) (dec_hi hi) st')
              = body st (fun st' =>
                if (lo =? 0)%nat && (length (rest st') =? length (rest st))%nat
                then None
                else repeat_ body k' greedy fuel (Nat.pred lo) (dec_hi hi) st')).
  { apply Hb. intros st' Hle. destruct (_ && _); [reflexivity |].
    apply IH. intros st'' Hle'. apply Hk. lia. }
  rewrite E. reflexivity.
Qed.

Lemma run_shrinking (r : re) : shrinking (run (A := A) r).
Proof.
  induction r as [| p | r1 IH1 r2 IH2 | r1 IH1 r2 IH2 | g lo hi r1 IH | i r1 IH
                 | | |]; intros st k k' Hk; cbn [run].
  - apply Hk. lia.
  - destruct (rest st) as [| c s'] eqn:E; [reflexivity |].
    destruct (p c); [| reflexivity]. apply Hk. simpl. lia.
  - apply IH1. intros st' Hle. apply IH2. intros st'' Hle'. apply Hk. lia.
  - rewrite (IH1 st k k' Hk), (IH2 st k k' Hk). reflexivity.
  - apply (repeat_shrinking (run r1) g IH). exact Hk.
  - apply IH. intros st' Hle. apply Hk. simpl. lia.
  - destruct (prev st); [reflexivity |]. apply Hk. lia.
  - destruct (rest st) eqn:E; [| reflexivity]. apply Hk. rewrite E. simpl. lia.
  - destruct (xorb _ _); [| reflexivity]. apply Hk. lia.
Qed.

(** Any two amounts of fuel above [lo + length (rest st)] give the same
    result. *)
Lemma repeat_fuel (body : mstate -> (mstate -> option A) -> option A) k greedy :
  shrinking body ->
  forall fuel1 fuel2 lo hi st,
    (lo + length (rest st) < fuel1)%nat ->
    (lo + length (rest st) < fuel2)%nat ->
    repeat_ body k greedy fuel1 lo hi st = repeat_ body k greedy fuel2 lo hi st.
Proof.
  intros Hb fuel1.
  induction fuel1 as [| fuel1 IH]; intros fuel2 lo hi st H1 H2; [lia |].
  destruct fuel2 as [| fuel2]; [lia |]. simpl.
  assert (E : body st (fun st' =>
                if (lo =? 0)%nat && (length (rest st') =? length (rest st))%nat
                then None
                else repeat_ body k greedy fuel1 (Nat.pred lo) (dec_hi hi) st')
              = body st (fun st' =>
                if (lo =? 0)%nat && (length (rest st') =? length (rest st))%nat
                then None
                else repeat_ body k greedy fuel2 (Nat.pred lo) (dec_hi hi) st')).
  { apply Hb. intros st' Hle.
    destruct (Nat.eqb_spec lo 0) as [-> | Hlo]; simpl.
    - destruct (Nat.eqb_spec (length (rest st')) (length (rest st)));
        [reflexivity |].
      apply IH; simpl in *; lia.
    - apply IH; lia. }
  rewrite E. reflexivity.
Qed.

(** The quantifier of [run] is the unbounded one: more fuel changes
    nothing. *)
Lemma run_Rep_fuel greedy lo hi r (st : mstate) (k : mstate -> option A) extra :
  run (Rep greedy lo hi r) st k
  = repeat_ (run r) k greedy (extra + S (lo + length (rest st))) lo hi st.
Proof. cbn [run]. apply repeat_fuel; [apply run_shrinking | lia | lia]. Qed.

End Fuel.

(** ** The similarity scorer *)

Section SetModel.

Implicit Types (l s : list string) (x : string).

Lemma set_has_true s x : Js.set_has s x = true <-> x ∈ s.
Proof. unfold Js.set_has. apply bool_decide_eq_true. Qed.

Lemma set_add_elem s x y : y ∈ Js.set_add s x <-> y ∈ s \/ y = x.
Proof.
  unfold Js.set_add. destruct (Js.set_has s x) eqn:E.
  - apply set_has_true in E. split; [auto | intros [?| ->]; auto].
  - rewrite elem_of_app, list_elem_of_singleton. tauto.
Qed.

Lemma set_add_NoDup s x : NoDup s -> NoDup (Js.set_add s x).
Proof.
  intros Hs. unfold Js.set_add. destruct (Js.set_has s x) eqn:E; [done |].
  apply NoDup_app. split; [done |]. split; [| apply NoDup_singleton].
  intros y Hy Hx. apply list_elem_of_singleton in Hx. subst y.
  apply set_has_true in Hy. congruence.
Qed.

Lemma foldl_set_add_elem l s y :
  y ∈ foldl Js.set_add s l <-> y ∈ s \/ y ∈ l.
Proof.
  revert s. induction l as [| x l IH]; intros s; simpl.
  - rewrite elem_of_nil. tauto.
  - rewrite IH, set_add_elem, elem_of_cons. tauto.
Qed.

Lemma foldl_set_add_NoDup l s : NoDup s -> NoDup (foldl Js.set_add s l).
Proof.
  revert s. induction l as [| x l IH]; intros s Hs; simpl; [done |].
  apply IH, set_add_NoDup, Hs.
Qed.

Lemma new_Set_elem l y : y ∈ Js.new_Set l <-> y ∈ l.
Proof.
  unfold Js.new_Set. rewrite foldl_set_add_elem, elem_of_nil. tauto.
Qed.

Lemma new_Set_NoDup l : NoDup (Js.new_Set l).
Proof. apply foldl_set_add_NoDup, NoDup_nil_2. Qed.

(** The size of a [Set] built from a list is the number of distinct members
    of the list. *)
Lemma new_Set_size l :
  length (Js.new_Set l) = size (list_to_set l : gset string).
Proof.
  rewrite <- (size_list_to_set (C := gset string) (Js.new_Set l))
    by apply new_Set_NoDup.
  f_equal. apply set_eq. intros y.
  rewrite !elem_of_list_to_set. apply new_Set_elem.
Qed.

Lemma intersection_size l1 l2 :
  length (Js.new_Set (List.filter (Js.set_has (Js.new_Set l2)) (Js.new_Set l1)))
  = size ((list_to_set l1 : gset string) ∩ list_to_set l2).
Proof.
  rewrite new_Set_size. f_equal. apply set_eq. intros y.
  rewrite elem_of_list_to_set, elem_of_intersection, !elem_of_list_to_set.
  rewrite list_elem_of_In, filter_In, <- list_elem_of_In.
  rewrite set_has_true, !new_Set_elem. tauto.
Qed.

Lemma union_size l1 l2 :
  length (Js.new_Set (Js.new_Set l1 ++ Js.new_Set l2))
  = size ((list_to_set l1 : gset string) ∪ list_to_set l2).
Proof.
  rewrite new_Set_size. f_equal. apply set_eq. intros y.
  rewrite elem_of_list_to_set, elem_of_union, !elem_of_list_to_set.
  rewrite elem_of_app, !new_Set_elem. tauto.
Qed.

End SetModel.

Lemma split_from_nonempty r p s piece skip :
  Regex.split_from r p s piece skip <> [].
Proof.
  revert p piece skip. induction s as [| c s IH]; intros p piece skip; simpl.
  - discriminate.
  - destruct skip; [| apply IH].
    destruct (Regex.match_at r p (c :: s)) as [m |]; [| apply IH].
    destruct (Regex.whole m), piece; try discriminate; apply IH.
Qed.

(** [t.split(/\s+/)] always holds one piece at least, so the union of two
    token sets is never empty and the quotient of the scorer is defined. *)
Lemma split_spaces_nonempty (t : string) : Js.split re_spaces t <> [].
Proof.
  unfold Js.split, Regex.split. destruct (Js.chars t) as [| c s] eqn:E.
  - vm_compute. discriminate.
  - intros H. apply map_eq_nil in H. revert H. apply split_from_nonempty.
Qed.

Lemma tokens_union_nonempty (n1 n2 : string) :
  (0 < size (tokens n1 ∪ tokens n2))%nat.
Proof.
  unfold tokens. destruct (Js.split re_spaces n1) as [| w ws] eqn:E.
  - exfalso. revert E. apply split_spaces_nonempty.
  - assert (H : size ((list_to_set (w :: ws) : gset string) ∪ tokens n2) <> 0%nat);
      [| unfold tokens in H; lia].
    apply size_non_empty_iff. set_solver.
Qed.

(** The code's scorer is [score_of] on the code's normal forms. *)
Lemma calculateTitleSimilarity_score_of (a b : string) :
  calculateTitleSimilarity a b = score_of (clean_title a) (clean_title b).
Proof.
  unfold calculateTitleSimilarity, score_of, size_of, tokens.
  destruct (String.eqb_spec (clean_title a) (clean_title b)) as [E | E].
  - rewrite decide_True by done. reflexivity.
  - rewrite decide_False by done.
    rewrite intersection_size, union_size. reflexivity.
Qed.

Lemma score_of_refl (n : string) : score_of n n = 1%Q.
Proof. unfold score_of. rewrite decide_True by done. reflexivity. Qed.

Lemma score_of_sym (n1 n2 : string) : score_of n1 n2 = score_of n2 n1.
Proof.
  unfold score_of. destruct (decide (n1 = n2)) as [-> | E].
  - rewrite decide_True by done. reflexivity.
  - rewrite decide_False by congruence.
    rewrite (comm_L (∩) (tokens n1)), (comm_L (∪) (tokens n1)).
    rewrite (orb_comm (Js.includes n1 n2)). reflexivity.
Qed.

Lemma score_of_range (n1 n2 : string) :
  (0 <= score_of n1 n2 /\ score_of n1 n2 <= 1)%Q.
Proof.
  unfold score_of. destruct (decide (n1 = n2)).
  - split; discriminate.
  - split; [| apply Q.le_min_l].
    apply Q.min_glb; [discriminate |].
    apply (Qle_trans _ (0 + 0)); [discriminate |].
    apply Qplus_le_compat.
    + unfold Qdiv. apply Qmult_le_0_compat.
      * unfold Qle; simpl; lia.
      * apply Qinv_le_0_compat. unfold Qle; simpl; lia.
    + destruct (_ || _); discriminate.
Qed.

(** C4. For all titles [a] and [b]: [calculateTitleSimilarity a a] is 1, the
    scorer is symmetric, and its result lies between 0 and 1. *)
Theorem calculateTitleSimilarity_refl_sym_range (a b : string) :
  calculateTitleSimilarity a a = 1%Q
  /\ calculateTitleSimilarity a b = calculateTitleSimilarity b a
  /\ (0 <= calculateTitleSimilarity a b <= 1)%Q.
Proof.
  rewrite !calculateTitleSimilarity_score_of.
  split; [apply score_of_refl |].
  split; [apply score_of_sym | apply score_of_range].
Qed.

(** C5, as the code has it. The scorer normalizes both titles by lower-casing,
    deleting every character outside [a-z0-9] and white space, and trimming
    (white space inside the title is not collapsed); equal normal forms score
    1; otherwise the score is the Jaccard index of the two sets of
    white-space-delimited tokens (never a quotient by zero), plus 0.2 when
    one normal form contains the other, clamped to 1. *)
Theorem calculateTitleSimilarity_formula (a b : string) :
  let n1 := Js.trim (Js.replace_g re_not_alnum_space "" (Js.toLowerCase a)) in
  let n2 := Js.trim (Js.replace_g re_not_alnum_space "" (Js.toLowerCase b)) in
  let A := tokens n1 in
  let B := tokens n2 in
  calculateTitleSimilarity a b =
    (if decide (n1 = n2) then 1
     else Qmin 1 (inject_Z (Z.of_nat (size (A ∩ B)))
                  / inject_Z (Z.of_nat (size (A ∪ B)))
                  + (if Js.includes n1 n2 || Js.includes n2 n1
                     then 2 # 10 else 0)))%Q
  /\ (0 < size (A ∪ B))%nat.
Proof.
  cbv zeta. split.
  - apply calculateTitleSimilarity_score_of.
  - apply tokens_union_nonempty.
Qed.

(** C5, as the specification words it, fails: with white space collapsed
    the title ["Deep  Learning for NLP"] (two spaces) would contain
    ["Deep Learning"] and score 1/2 + 0.2; the code scores 1/2. *)
Lemma calculateTitleSimilarity_not_collapsing :
  ~ (calculateTitleSimilarity "Deep  Learning for NLP" "Deep Learning"
     == titleSimilarity_spec "Deep  Learning for NLP" "Deep Learning")%Q.
Proof. vm_compute. discriminate. Qed.

Example calculateTitleSimilarity_double_space :
  calculateTitleSimilarity "Deep  Learning for NLP" "Deep Learning" = (2 # 4)%Q
  /\ (titleSimilarity_spec "Deep  Learning for NLP" "Deep Learning" == 7 # 10)%Q.
Proof. split; vm_compute; reflexivity. Qed.

Example calculateTitleSimilarity_punctuation :
  calculateTitleSimilarity "Deep Learning for NLP" "deep learning for nlp!!!" = 1%Q.
Proof. vm_compute. reflexivity. Qed.

Example calculateTitleSimilarity_low_overlap :
  (calculateTitleSimilarity "Attention Is All You Need" "Efficient Transformers"
   < 3 # 10)%Q.
Proof. vm_compute. reflexivity. Qed.

(** ** The batch runner *)

Lemma truthy_js_or (a b : val) : truthy (js_or a b) = truthy a || truthy b.
Proof. unfold js_or. destruct (truthy a) eqn:E; simpl; auto. Qed.

Lemma truthy_js_and (a b : val) : truthy (js_and a b) = truthy a && truthy b.
Proof. unfold js_and. destruct (truthy a) eqn:E; simpl; auto. Qed.

Lemma authors_length_positive_has_author (r : obj) :
  authors_length_positive r = has_author r.
Proof.
  unfold authors_length_positive, has_author.
  destruct (get r "authors") as [| | | | s | l]; try reflexivity.
  - destruct s; reflexivity.
  - destruct l; reflexivity.
Qed.

Lemma hasFullMetadata_truthy (r : obj) :
  truthy (hasFullMetadata r)
  = has_author r && (has "doi" r || has "abstract" r || has "journal" r).
Proof.
  unfold hasFullMetadata, has.
  rewrite truthy_js_and, !truthy_js_or. simpl.
  rewrite authors_length_positive_has_author. reflexivity.
Qed.

Lemma hasPartialMetadata_truthy (r : obj) :
  truthy (hasPartialMetadata r)
  = has_author r || has "doi" r || has "abstract" r.
Proof.
  unfold hasPartialMetadata, has.
  rewrite !truthy_js_or. simpl.
  rewrite authors_length_positive_has_author. reflexivity.
Qed.

(** One turn of the loop, whatever the call did: the record emitted is
    pushed, its level counted, its two reports made. *)
Lemma on_returned_spec current total snippet r st :
  on_returned current total snippet r st
  = Run (enriched st ++ [r]) (add_level (classify r) (results st))
        (reports st ++
           [Progress current total (Some snippet)
              (status_of (∅, Returned r)) (Some (tag_of (∅, Returned r))) None]).
Proof.
  unfold on_returned, classify, status_of, tag_of, classify.
  rewrite hasFullMetadata_truthy, hasPartialMetadata_truthy.
  destruct (has_author r && _); [reflexivity |].
  destruct (has_author r || _ || _); reflexivity.
Qed.

Section BatchRunnerProperties.

Context {World : Type}.
Variable enrichSource : obj -> World -> outcome obj * World.

Lemma calls_length sources w :
  length (calls enrichSource sources w) = length sources.
Proof.
  revert w. induction sources as [| s rest IH]; intros w; simpl; [done |].
  destruct (enrichSource s w) as [r w']. simpl. by rewrite IH.
Qed.

Lemma calls_sources sources w :
  map fst (calls enrichSource sources w) = sources.
Proof.
  revert w. induction sources as [| s rest IH]; intros w; simpl; [done |].
  destruct (enrichSource s w) as [r w']. simpl. by rewrite IH.
Qed.

Lemma tally_cons c cs t :
  tally (c :: cs) t = tally cs (add_level (level_of c) t).
Proof.
  unfold tally, count_level. simpl.
  destruct (level_of c), t; simpl; f_equal; lia.
Qed.

(** The loop over records that all carry a title returns, and its final
    state is the initial one extended call by call. *)
Lemma enrichSources_loop_spec total rest :
  Forall has_title rest ->
  forall i st w,
  exists w',
    enrichSources_loop enrichSource total i rest st w
    = (Returned
         (Run (enriched st ++ map emitted (calls enrichSource rest w))
              (tally (calls enrichSource rest w) (results st))
              (reports st ++ reports_from total i (calls enrichSource rest w))),
       w').
Proof.
  induction 1 as [| source rest [title Ht] _ IH]; intros i st w; simpl.
  - exists w. destruct st as [e [s p f] l]. unfold tally, count_level. simpl.
    rewrite !app_nil_r, !Nat.add_0_r. reflexivity.
  - rewrite Ht. simpl. destruct (enrichSource source w) as [r w1].
    rewrite tally_cons. simpl.
    destruct r as [enrichedSource | message].
    + rewrite on_returned_spec. simpl.
      edestruct (IH (S i)) as [w' Hw']. rewrite Hw'. clear Hw'.
      exists w'. simpl. unfold snippet_of. rewrite Ht.
      rewrite <- !app_assoc. reflexivity.
    + unfold on_thrown, report, push, count_failed. simpl.
      edestruct (IH (S i)) as [w' Hw']. rewrite Hw'. clear Hw'.
      exists w'. simpl. unfold snippet_of. rewrite Ht.
      rewrite <- !app_assoc. reflexivity.
Qed.

Lemma enrichSources_run_spec sources w :
  Forall has_title sources ->
  let cs := calls enrichSource sources w in
  let n := length sources in
  exists w',
    enrichSources_run enrichSource sources w
    = (Returned
         (Run (map emitted cs) (tally cs (Tallies 0 0 0))
              (reports_from n 0 cs ++
                 [Progress n n None Complete (Some "complete")
                    (Some (tally cs (Tallies 0 0 0)))])),
       w').
Proof.
  intros H. cbv zeta. unfold enrichSources_run.
  destruct (enrichSources_loop_spec (length sources) sources H 0
              (Run [] (Tallies 0 0 0) []) w) as [w' ->].
  exists w'. reflexivity.
Qed.

Lemma count_level_total cs :
  (count_level Success cs + count_level Partial cs + count_level Failed cs
   = length cs)%nat.
Proof.
  unfold count_level. induction cs as [| c cs IH]; simpl; [done |].
  destruct (level_of c); simpl; lia.
Qed.


Lemma reports_from_closing total cs :
  forall k i c,
  cs !! i = Some c ->
  reports_from total k cs !! S (i + i) = Some (closing_report total (k + i) c).
Proof.
  induction cs as [| c0 cs IH]; intros k i c H; [done |].
  destruct i as [| i]; simpl in H.
  - injection H as ->. simpl. rewrite Nat.add_0_r. reflexivity.
  - replace (S i + S i)%nat with (S (S (i + i))) by lia. simpl.
    rewrite (IH (S k) i c H). do 2 f_equal. lia.
Qed.

Lemma reports_closing total cs (tail : list progress) i c :
  cs !! i = Some c ->
  (reports_from total 0 cs ++ tail)%list !! (2 * i + 1)%nat
  = Some (closing_report total i c).
Proof.
  intros H. replace (2 * i + 1)%nat with (S (i + i)) by lia.
  pose proof (reports_from_closing total cs 0 i c H) as E.
  rewrite lookup_app_l; [exact E |].
  apply lookup_lt_is_Some. rewrite E. eauto.
Qed.

(** C2. For every list of input records (each with its title), the runner
    returns a list of the same length, and the record at index [i] is the
    one emitted for the input at index [i]: what the per-record call
    returned, or the input marked with the error when the call threw. *)
Theorem enrichSources_length_and_order (sources : list obj) (w : World) :
  Forall has_title sources ->
  exists out,
    enrichSources enrichSource sources w = Returned out
    /\ length out = length sources
    /\ forall i source, sources !! i = Some source ->
         exists r, calls enrichSource sources w !! i = Some (source, r)
                   /\ out !! i = Some (emitted (source, r)).
Proof.
  intros H. unfold enrichSources.
  destruct (enrichSources_run_spec sources w H) as [w' ->]. simpl.
  eexists. split; [reflexivity |].
  split; [by rewrite length_map, calls_length |].
  intros i source Hi.
  pose proof (calls_sources sources w) as Hs.
  assert (Hc : fst <$> calls enrichSource sources w !! i = Some source).
  { rewrite <- list_lookup_fmap. change (fmap fst) with (map (@fst obj (outcome obj))).
    by rewrite Hs. }
  destruct (calls enrichSource sources w !! i) as [[s r] |] eqn:E; [| done].
  injection Hc as ->. exists r. split; [done |].
  change (map emitted) with (fmap (M := list) emitted).
  by rewrite list_lookup_fmap, E.
Qed.

(** C3. After each record the runner counts it as success when the enriched
    record has an author and one of identifier, abstract and venue, as
    partial when it has an author, an identifier or an abstract but is no
    success, and as failed otherwise; the report that closes the record
    carries that level, and the three tallies add up to the number of
    records. *)
Theorem enrichSources_classifies (sources : list obj) (w : World) :
  Forall has_title sources ->
  exists st w',
    enrichSources_run enrichSource sources w = (Returned st, w')
    /\ (forall i source r,
          calls enrichSource sources w !! i = Some (source, Returned r) ->
          reports st !! (2 * i + 1)%nat
          = Some (Progress (i + 1) (length sources) (Some (snippet_of source))
                    match classify r with
                    | Success => FullMetadata
                    | Partial => PartialMetadata
                    | Failed => NoMatch
                    end
                    (Some match classify r with
                          | Success => "success"
                          | Partial => "partial"
                          | Failed => "failed"
                          end)
                    None))
    /\ success (results st) = count_level Success (calls enrichSource sources w)
    /\ partial (results st) = count_level Partial (calls enrichSource sources w)
    /\ failed (results st) = count_level Failed (calls enrichSource sources w)
    /\ (success (results st) + partial (results st) + failed (results st)
        = length sources)%nat.
Proof.
  intros H.
  destruct (enrichSources_run_spec sources w H) as [w' Hrun]. cbv zeta in Hrun.
  eexists. exists w'. split; [exact Hrun |].
  cbn [reports results enriched].
  split.
  - intros i source r Hi.
    exact (reports_closing (length sources) _ _ i _ Hi).
  - unfold tally. simpl. repeat split.
    rewrite count_level_total. apply calls_length.
Qed.


End BatchRunnerProperties.

(** ** The identifier extractor *)

(** C6. On the title ["Smith et al - 2024 - 10.1038/s41586-024-01234-5.pdf"]
    the extractor returns the identifier with the file extension still
    attached: the greedy [[^\s]+] runs to the end of the title, and
    [cleanDOI] removes leading markers and outer white space only. *)
Theorem extractDOI_keeps_file_extension :
  extractDOI {[ "title" := VStr "Smith et al - 2024 - 10.1038/s41586-024-01234-5.pdf" ]}
  = Returned (Some "10.1038/s41586-024-01234-5.pdf").
Proof. vm_compute. reflexivity. Qed.

Example extractDOI_before_a_space :
  extractDOI {[ "title" := VStr "Smith et al - 2024 - 10.1038/s41586-024-01234-5 .pdf" ]}
  = Returned (Some "10.1038/s41586-024-01234-5").
Proof. vm_compute. reflexivity. Qed.

Example cleanDOI_strips_markers :
  cleanDOI "doi: 10.1038/s41586-024-01234-5 " = "10.1038/s41586-024-01234-5"
  /\ cleanDOI "https://dx.doi.org/10.1038/s41586-024-01234-5"
     = "10.1038/s41586-024-01234-5"
  /\ cleanDOI "10.1038/s41586-024-01234-5.pdf" = "10.1038/s41586-024-01234-5.pdf"
  /\ cleanDOI "10.1038/s41586-024-01234-5)." = "10.1038/s41586-024-01234-5).".
Proof. repeat split; vm_compute; reflexivity. Qed.

Example extractDOI_from_url :
  extractDOI {[ "title" := VStr "A paper";
                "url" := VStr "https://doi.org/10.1038/s41586-024-01234-5" ]}
  = Returned (Some "10.1038/s41586-024-01234-5").
Proof. vm_compute. reflexivity. Qed.

(** ** The strategy chain *)

Lemma overlaid_union (source metadata : obj) :
  overlaid source metadata ∅ (metadata ∪ source).
Proof.
  intros k. rewrite lookup_empty, lookup_union.
  destruct (metadata !! k), (source !! k); reflexivity.
Qed.

Lemma overlaid_insert source metadata marks r k v :
  overlaid source metadata marks r ->
  overlaid source metadata (<[k := v]> marks) (<[k := v]> r).
Proof.
  intros H j. destruct (decide (k = j)) as [-> | Hne].
  - by rewrite !lookup_insert_eq.
  - rewrite !lookup_insert_ne by done. apply H.
Qed.

Lemma overlaid_mark (source metadata : obj) k v :
  overlaid source metadata {[ k := v ]} (<[k := v]> (metadata ∪ source)).
Proof. rewrite <- insert_empty. apply overlaid_insert, overlaid_union. Qed.

(** What [accept] returns is the candidate laid over the input. *)
Lemma accept_overlaid source metadata bar tag r :
  accept source metadata bar tag = Some r ->
  exists m, metadata = Some m
            /\ js_ge (get m "confidence") bar = true
            /\ r = <["enrichmentType" := VStr tag]> (m ∪ source).
Proof.
  unfold accept. destruct metadata as [m |]; [| discriminate].
  destruct (js_ge (get m "confidence") bar) eqn:E; [| discriminate].
  intros [= <-]. eauto.
Qed.

Lemma filled_Some (o : option string) (s : string) : filled o = Some s -> o = Some s.
Proof.
  unfold filled. destruct o as [t |]; [| discriminate].
  destruct (String.eqb t ""); [discriminate | done].
Qed.

Lemma extractMetadataHybrid_overlaid P source r :
  extractMetadataHybrid P source = Returned (Some r) ->
  exists metadata marks,
    hybrid_candidate P source metadata marks
    /\ overlaid source metadata marks r.
Proof.
  unfold extractMetadataHybrid.
  destruct (extractDOI source) as [doi |] eqn:Ed; [| discriminate]. simpl.
  destruct (filled doi ≫= getMetadataFromDOI P) as [m |] eqn:E1.
  { intros Hr. injection Hr as <-. exists m, {[ "hadDOI" := VBool true ]}. split.
    - left. destruct (filled doi) as [d |] eqn:Ef; [| discriminate].
      apply filled_Some in Ef as ->. eauto.
    - apply overlaid_mark. }
  destruct (truthy_string (get source "url")) as [url |] eqn:Eu; [| discriminate].
  simpl.
  destruct (url ≫= getMetadataFromURL P) as [m |] eqn:E2.
  { intros Hr. injection Hr as <-. exists m, {[ "hadURL" := VBool true ]}. split.
    - right. left. destruct url as [u |]; [| discriminate].
      exists u. split; [| done].
      unfold truthy_string in Eu.
      destruct (get source "url") as [| | ? | ? | t |];
        try (destruct (truthy _); discriminate).
      destruct (String.eqb t ""); [discriminate |]. by injection Eu as ->.
    - apply overlaid_mark. }
  destruct (findDOIByTitle P (get source "title")) as [doi' |] eqn:Ef;
    [| discriminate].
  simpl.
  destruct (filled doi' ≫= getMetadataFromDOI P) as [m |] eqn:E3; [| discriminate].
  intros Hr. injection Hr as <-.
  exists m, {[ "foundByTitle" := VBool true; "hadDOI" := VBool true ]}. split.
  - right. right. destruct (filled doi') as [d |] eqn:Ef'; [| discriminate].
    apply filled_Some in Ef' as ->. eauto.
  - apply overlaid_insert, overlaid_mark.
Qed.

Lemma enrichAcademic_overlaid P source r :
  enrichAcademic P source = Returned r ->
  r = no_match source
  \/ exists title metadata tag,
       get source "title" = VStr title
       /\ academic_candidate P title metadata tag
       /\ overlaid source metadata {[ "enrichmentType" := VStr tag ]} r.
Proof.
  unfold enrichAcademic.
  destruct (get source "title") as [| | | | title |] eqn:Ht; try discriminate.
  simpl. intros [= <-].
  set (cleanTitle := cleanTitleForSearch title).
  assert (Hov : forall metadata bar tag r',
             accept source metadata bar tag = Some r' ->
             exists m, metadata = Some m
                       /\ overlaid source m {[ "enrichmentType" := VStr tag ]} r').
  { intros metadata bar tag r' H.
    apply accept_overlaid in H as (m & -> & _ & ->).
    exists m. split; [done |]. apply overlaid_mark. }
  destruct (accept source (structured P _ cleanTitle) _ _) as [r1 |] eqn:E1.
  { right. apply Hov in E1 as (m & E & Hm). exists title, m, "structured_query".
    split; [reflexivity |]. split; [| exact Hm].
    unfold academic_candidate. fold cleanTitle. left; split; [exact E | done]. }
  destruct (accept source (queryCrossRef P cleanTitle) _ _) as [r2 |] eqn:E2.
  { right. apply Hov in E2 as (m & E & Hm). exists title, m, "crossref".
    split; [reflexivity |]. split; [| exact Hm].
    unfold academic_candidate. fold cleanTitle.
    right; left; split; [exact E | done]. }
  destruct (accept source (queryOpenAlex P cleanTitle) _ _) as [r3 |] eqn:E3.
  { right. apply Hov in E3 as (m & E & Hm). exists title, m, "openalex".
    split; [reflexivity |]. split; [| exact Hm].
    unfold academic_candidate. fold cleanTitle.
    right; right; left; split; [exact E | done]. }
  destruct (accept source (querySemanticScholar P cleanTitle) _ _) as [r4 |] eqn:E4.
  { right. apply Hov in E4 as (m & E & Hm). exists title, m, "semanticscholar".
    split; [reflexivity |]. split; [| exact Hm].
    unfold academic_candidate. fold cleanTitle.
    right; right; right; split; [exact E | done]. }
  left. reflexivity.
Qed.

(** C1, as the code has it. A record accepted by the hybrid chain or by the
    academic chain is the input record overlaid with the winning candidate
    object and then with the marks of the step that won: [hadDOI] for the
    identifier found in the record, [hadURL] for the url, [hadDOI] and
    [foundByTitle] for the identifier found by title, all [true], and
    [enrichmentType] with the tag of the client in the academic chain.
    Every other member the candidate object carries has the candidate's
    value, be it [null] or empty, and only the members the candidate object
    does not carry keep the input's value. *)
Theorem enriched_record_is_overlay (P : Providers) (source r : obj) :
  (extractMetadataHybrid P source = Returned (Some r) ->
   exists metadata marks,
     hybrid_candidate P source metadata marks
     /\ overlaid source metadata marks r)
  /\ (enrichAcademic P source = Returned r ->
      r <> no_match source ->
      exists title metadata tag,
        get source "title" = VStr title
        /\ academic_candidate P title metadata tag
        /\ overlaid source metadata {[ "enrichmentType" := VStr tag ]} r).
Proof.
  split.
  - apply extractMetadataHybrid_overlaid.
  - intros H Hne. apply enrichAcademic_overlaid in H as [-> | H]; [done | exact H].
Qed.

Lemma answered_default {A} (o : option A) (d : A) :
  answered o = true -> o = Some (default d o).
Proof. destruct o; [reflexivity | discriminate]. Qed.

Lemma returned_or_eq {A} (x : outcome A) (d : A) :
  is_returned x = true -> x = Returned (returned_or d x).
Proof. destruct x; [reflexivity | discriminate]. Qed.

(** C1, as the specification words it, fails: the plain title search gives a
    candidate with a [null] url, the academic chain accepts it, and the
    accepted record has lost the url of the input record. *)
Lemma enriched_record_loses_input_url :
  queryCrossRef scholar (cleanTitleForSearch "Deep Learning for NLP")
  = Some deep_learning_candidate
  /\ enrichSource scholar (Some (extractMetadataHybrid scholar)) deep_learning_source
     = Returned deep_learning_enriched
  /\ get deep_learning_candidate "url" = VNull
  /\ get deep_learning_source "url" = VStr "https://example.org/dl-nlp"
  /\ get deep_learning_enriched "url" = VNull
  /\ ~ keeps_input_where_empty deep_learning_source deep_learning_candidate
         {[ "enrichmentType" := VStr "crossref"; "confidence" := VNum 1 ]}
         deep_learning_enriched.
Proof.
  assert (Hc : get deep_learning_candidate "url" = VNull)
    by (vm_compute; reflexivity).
  assert (Hs : get deep_learning_source "url" = VStr "https://example.org/dl-nlp")
    by (vm_compute; reflexivity).
  assert (Hr : get deep_learning_enriched "url" = VNull)
    by (vm_compute; reflexivity).
  split.
  { apply answered_default. vm_compute. reflexivity. }
  split.
  { apply returned_or_eq. vm_compute. reflexivity. }
  repeat (split; [assumption |]).
  intros H. specialize (H "url" eq_refl). rewrite Hc, Hr, Hs in H.
  specialize (H eq_refl). discriminate H.
Qed.

(** An identifier resolution that answered is marked with the confidence
    100 and the provenance "CrossRef (DOI)". *)
Lemma getMetadataFromDOI_marks P doi metadata :
  getMetadataFromDOI P doi = Some metadata ->
  metadata !! "confidence" = Some (VNum 100)
  /\ metadata !! "enrichmentSource" = Some (VStr "CrossRef (DOI)").
Proof.
  unfold getMetadataFromDOI. destruct (crossref_work P doi) as [| | work];
    try discriminate.
  intros Hm. injection Hm as <-. cbn [list_to_map foldr uncurry].
  unfold curry. cbn [fst snd].
  split; repeat (rewrite lookup_insert_ne by done); apply lookup_insert_eq.
Qed.

Lemma findDOIByTitle_first_hit P title hit others :
  crossref_find P title = Ok (hit :: others) ->
  findDOIByTitle P (VStr title)
  = Returned (if Qle_bool 30 (default 0%Q (w_score hit)) then w_DOI hit else None).
Proof.
  intros H. unfold findDOIByTitle. simpl. rewrite H.
  destruct (Qle_bool 30 _); reflexivity.
Qed.

(** C8. In the strategy that searches the identifier by title, the
    identifier of the first hit is accepted if and only if the provider's
    score is at least 30.  When it is accepted and the two strategies before
    found nothing, whatever the identifier resolution returns is accepted:
    the record carries the resolution's fixed confidence 100 and its
    provenance, and [enrichSource] returns that record. *)
Theorem findDOIByTitle_floor_and_resolution (P : Providers) (source : obj)
    (title doi : string) (hit : Work) (others : list Work) :
  get source "title" = VStr title ->
  crossref_find P title = Ok (hit :: others) ->
  w_DOI hit = Some doi ->
  doi <> "" ->
  let score := default 0%Q (w_score hit) in
  (findDOIByTitle P (VStr title) = Returned (Some doi) <-> (30 <= score)%Q)
  /\ ((score < 30)%Q -> findDOIByTitle P (VStr title) = Returned None)
  /\ forall found_in_source url work,
       (30 <= score)%Q ->
       extractDOI source = Returned found_in_source ->
       filled found_in_source ≫= getMetadataFromDOI P = None ->
       truthy_string (get source "url") = Returned url ->
       url ≫= getMetadataFromURL P = None ->
       crossref_work P doi = Ok work ->
       exists r,
         extractMetadataHybrid P source = Returned (Some r)
         /\ get r "confidence" = VNum 100
         /\ get r "enrichmentSource" = VStr "CrossRef (DOI)"
         /\ get r "hadDOI" = VBool true
         /\ get r "foundByTitle" = VBool true
         /\ enrichSource P (Some (extractMetadataHybrid P)) source = Returned r.
Proof.
  intros Ht Hfind Hdoi Hne score.
  pose proof (findDOIByTitle_first_hit P title hit others Hfind) as Hf.
  fold score in Hf. rewrite Hdoi in Hf.
  split; [| split].
  - rewrite Hf. split.
    + destruct (Qle_bool 30 score) eqn:E; [| discriminate].
      intros _. by apply Qle_bool_iff.
    + intros H. apply Qle_bool_iff in H. by rewrite H.
  - intros H. rewrite Hf.
    destruct (Qle_bool 30 score) eqn:E; [| reflexivity].
    apply Qle_bool_iff in E. exfalso. eapply Qlt_not_le; eassumption.
  - intros found_in_source url work Hs H1 H1' H2 H2' Hwork.
    apply Qle_bool_iff in Hs. rewrite Hs in Hf.
    destruct (getMetadataFromDOI P doi) as [metadata |] eqn:Hm;
      [| unfold getMetadataFromDOI in Hm; rewrite Hwork in Hm; discriminate].
    destruct (getMetadataFromDOI_marks P doi metadata Hm) as [Hc He].
    assert (Hfilled : (doi =? "")%string = false)
      by (by apply String.eqb_neq).
    assert (Hhybrid :
      extractMetadataHybrid P source
      = Returned (Some (<["foundByTitle" := VBool true]>
                         (<["hadDOI" := VBool true]> (metadata ∪ source))))).
    { unfold extractMetadataHybrid. rewrite H1. simpl. rewrite H1'.
      rewrite H2. simpl. rewrite H2'. rewrite Ht, Hf. simpl.
      rewrite Hfilled. simpl. rewrite Hm. reflexivity. }
    eexists. split; [exact Hhybrid |].
    assert (Hconf : get (<["foundByTitle" := VBool true]>
                           (<["hadDOI" := VBool true]> (metadata ∪ source)))
                        "confidence" = VNum 100).
    { unfold get. rewrite !lookup_insert_ne by done.
      by rewrite (lookup_union_Some_l _ _ _ _ Hc). }
    split; [exact Hconf |].
    split.
    { unfold get. rewrite !lookup_insert_ne by done.
      by rewrite (lookup_union_Some_l _ _ _ _ He). }
    split.
    { unfold get. rewrite lookup_insert_ne by done. by rewrite lookup_insert_eq. }
    split.
    { unfold get. by rewrite lookup_insert_eq. }
    unfold enrichSource, hybrid_attempt. rewrite Hhybrid, Hconf. reflexivity.
Qed.

(** C10. [enrichSource] returns the result of the hybrid extraction exactly
    when that result carries a confidence of 90 or more; a result with a
    lower or no confidence, no result, an exception of the extraction, or an
    extraction that is not loaded, all leave the record to the chain of the
    type detected for it. *)
Theorem enrichSource_hybrid_gate (P : Providers)
    (hybrid : obj -> outcome (option obj)) (source : obj) :
  (forall h c, hybrid source = Returned (Some h) ->
               get h "confidence" = VNum c -> (90 <= c)%Q ->
               enrichSource P (Some hybrid) source = Returned h)
  /\ (forall h c, hybrid source = Returned (Some h) ->
                  get h "confidence" = VNum c -> (c < 90)%Q ->
                  enrichSource P (Some hybrid) source = enrichByType P source)
  /\ (forall h, hybrid source = Returned (Some h) ->
                get h "confidence" = VUndef ->
                enrichSource P (Some hybrid) source = enrichByType P source)
  /\ (hybrid source = Returned None ->
      enrichSource P (Some hybrid) source = enrichByType P source)
  /\ (forall e, hybrid source = Thrown e ->
                enrichSource P (Some hybrid) source = enrichByType P source)
  /\ enrichSource P None source = enrichByType P source
  /\ enrichByType P source
     = (type ← detectSourceType source;
        if String.eqb type "academic" then enrichAcademic P source
        else if String.eqb type "arxiv" then enrichArxiv P source
        else if String.eqb type "web" then enrichWeb P source
        else if String.eqb type "youtube" then enrichYoutube P source
        else Returned (<["enrichmentType" := VStr "none"]>
                         (<["confidence" := VNum 0]> source))).
Proof.
  unfold enrichSource, hybrid_attempt. repeat split.
  - intros h c -> Hc Hle. rewrite Hc. simpl.
    apply Qle_bool_iff in Hle. by rewrite Hle.
  - intros h c -> Hc Hlt. rewrite Hc. simpl.
    destruct (Qle_bool 90 c) eqn:E; [| reflexivity].
    apply Qle_bool_iff in E. exfalso. eapply Qlt_not_le; eassumption.
  - intros h -> Hc. by rewrite Hc.
  - by intros ->.
  - by intros e ->.
Qed.

(** ** The properties at work on the test doubles *)

Lemma titled_sound (sources : list obj) :
  forallb titled sources = true -> Forall has_title sources.
Proof.
  induction sources as [| s rest IH]; simpl; [constructor |].
  intros H. apply andb_true_iff in H as [Hs Hrest].
  constructor; [| by apply IH].
  unfold titled in Hs. unfold has_title.
  destruct (get s "title"); try discriminate. eauto.
Qed.

(** Five records: one resolved through its identifier, one page of the web,
    one that names a video without a link to it, one whose enrichment throws
    (its url is a number), one that nothing matches. *)
Lemma enrichSources_length_and_order_witness :
  Forall has_title mixed_sources
  /\ exists out,
       enrichSources (enrichSource_with scholar) mixed_sources () = Returned out
       /\ length out = length mixed_sources
       /\ forall i source, mixed_sources !! i = Some source ->
            exists r,
              calls (enrichSource_with scholar) mixed_sources () !! i
              = Some (source, r)
              /\ out !! i = Some (emitted (source, r)).
Proof.
  assert (H : Forall has_title mixed_sources)
    by (apply titled_sound; vm_compute; reflexivity).
  split; [exact H |].
  exact (enrichSources_length_and_order (enrichSource_with scholar)
           mixed_sources () H).
Defined.

Lemma enrichSources_classifies_witness :
  Forall has_title mixed_sources
  /\ exists st w',
       enrichSources_run (enrichSource_with scholar) mixed_sources () = (Returned st, w')
       /\ (forall i source r,
             calls (enrichSource_with scholar) mixed_sources () !! i
             = Some (source, Returned r) ->
             reports st !! (2 * i + 1)%nat
             = Some (Progress (i + 1) (length mixed_sources) (Some (snippet_of source))
                       match classify r with
                       | Success => FullMetadata
                       | Partial => PartialMetadata
                       | Failed => NoMatch
                       end
                       (Some match classify r with
                             | Success => "success"
                             | Partial => "partial"
                             | Failed => "failed"
                             end)
                       None))
       /\ success (results st)
          = count_level Success (calls (enrichSource_with scholar) mixed_sources ())
       /\ partial (results st)
          = count_level Partial (calls (enrichSource_with scholar) mixed_sources ())
       /\ failed (results st)
          = count_level Failed (calls (enrichSource_with scholar) mixed_sources ())
       /\ (success (results st) + partial (results st) + failed (results st)
           = length mixed_sources)%nat.
Proof.
  assert (H : Forall has_title mixed_sources)
    by (apply titled_sound; vm_compute; reflexivity).
  split; [exact H |].
  exact (enrichSources_classifies (enrichSource_with scholar) mixed_sources () H).
Defined.


(** The runs themselves: the levels, the tallies and the tags reported. *)
Example enrichSources_mixed_run :
  map level_of (calls (enrichSource_with scholar) mixed_sources ())
  = [Success; Partial; Failed; Failed; Failed]
  /\ map is_thrown (calls (enrichSource_with scholar) mixed_sources ())
     = [false; false; false; true; false]
  /\ (results <$> fst (enrichSources_run (enrichSource_with scholar) mixed_sources ()))
     = Returned (Tallies 1 1 3)
  /\ (map p_type ∘ reports <$>
        fst (enrichSources_run (enrichSource_with scholar) mixed_sources ()))
     = Returned [None; Some "success"; None; Some "partial"; None; Some "failed";
                 None; Some "error"; None; Some "failed"; Some "complete"]
  /\ (map (fun r => (get r "confidence", get r "error")) <$>
        enrichSources (enrichSource_with scholar) mixed_sources ())
     = Returned [(VNum 100, VUndef); (VNum (7 # 10), VUndef);
                 (VNum 0, VUndef); (VNum 0, VStr type_error);
                 (VNum 0, VUndef)].
Proof. repeat split; vm_compute; reflexivity. Qed.

Example enrichSources_offline_run :
  map is_thrown (calls (enrichSource_with offline) three_sources ())
  = [false; true; false]
  /\ (results <$> fst (enrichSources_run (enrichSource_with offline) three_sources ()))
     = Returned (Tallies 0 0 3).
Proof. repeat split; vm_compute; reflexivity. Qed.

(** A record without a title makes the runner itself throw: the snippet for
    the first report is taken outside the [try]. *)
Example enrichSources_untitled :
  enrichSources (enrichSource_with offline) [ {[ "url" := VStr "https://example.org" ]} ] ()
  = Thrown type_error.
Proof. vm_compute. reflexivity. Qed.

(** The end-to-end scenario of C8: the title search returns the identifier
    at relevance 85. *)
Lemma findDOIByTitle_floor_and_resolution_witness :
  let score := default 0%Q (w_score attention_hit) in
  (findDOIByTitle scholar (VStr "Attention Is All You Need")
   = Returned (Some attention_doi) <-> (30 <= score)%Q)
  /\ ((score < 30)%Q ->
      findDOIByTitle scholar (VStr "Attention Is All You Need") = Returned None)
  /\ forall found_in_source url work,
       (30 <= score)%Q ->
       extractDOI attention_source = Returned found_in_source ->
       filled found_in_source ≫= getMetadataFromDOI scholar = None ->
       truthy_string (get attention_source "url") = Returned url ->
       url ≫= getMetadataFromURL scholar = None ->
       crossref_work scholar attention_doi = Ok work ->
       exists r,
         extractMetadataHybrid scholar attention_source = Returned (Some r)
         /\ get r "confidence" = VNum 100
         /\ get r "enrichmentSource" = VStr "CrossRef (DOI)"
         /\ get r "hadDOI" = VBool true
         /\ get r "foundByTitle" = VBool true
         /\ enrichSource scholar (Some (extractMetadataHybrid scholar)) attention_source
            = Returned r.
Proof.
  apply (findDOIByTitle_floor_and_resolution scholar attention_source
           "Attention Is All You Need" attention_doi attention_hit []).
  - vm_compute. reflexivity.
  - vm_compute. reflexivity.
  - reflexivity.
  - discriminate.
Defined.

Example attention_end_to_end :
  extractDOI attention_source = Returned None
  /\ truthy_string (get attention_source "url") = Returned None
  /\ findDOIByTitle scholar (get attention_source "title") = Returned (Some attention_doi)
  /\ (let r := returned_or ∅
                 (enrichSource scholar (Some (extractMetadataHybrid scholar))
                    attention_source) in
      (get r "confidence", get r "enrichmentSource", get r "foundByTitle",
       get r "doi", get r "title")
      = (VNum 100, VStr "CrossRef (DOI)", VBool true,
         VStr "10.48550/arXiv.1706.03762", VStr "Attention Is All You Need")).
Proof. repeat split; vm_compute; reflexivity. Qed.

(** The floor of the title search: 30 is accepted, anything below is not. *)
Example findDOIByTitle_at_the_floor :
  let provider score := {|
    crossref_work := crossref_work offline;
    crossref_find := fun _ =>
      Ok [ {| w_title := None; w_author := None; w_DOI := Some "10.1000/182";
              w_abstract := None; w_published := None; w_created := None;
              w_container_title := None; w_volume := None; w_issue := None;
              w_page := None; w_publisher := None; w_ISSN := None;
              w_URL := None; w_type := None; w_score := score;
              w_is_referenced_by_count := None |} ];
    crossref_search := crossref_search offline;
    crossref_structured := crossref_structured offline;
    getMetadataFromArxiv := getMetadataFromArxiv offline;
    getMetadataFromPubMed := getMetadataFromPubMed offline;
    queryOpenAlex := queryOpenAlex offline;
    querySemanticScholar := querySemanticScholar offline;
    enrichArxiv := enrichArxiv offline;
    enrichWeb := enrichWeb offline;
    enrichYoutube := enrichYoutube offline |} in
  findDOIByTitle (provider (Some 30%Q)) (VStr "A title") = Returned (Some "10.1000/182")
  /\ findDOIByTitle (provider (Some (299 # 10)%Q)) (VStr "A title") = Returned None
  /\ findDOIByTitle (provider None) (VStr "A title") = Returned None.
Proof. repeat split; vm_compute; reflexivity. Qed.

(** The gate of C10 on a hybrid extraction that answers with a given
    confidence, and on one that throws. *)
Example enrichSource_gate_cases :
  enrichSource scholar (Some (hybrid_at 90)) attention_source
  = Returned (<["confidence" := VNum 90]> attention_source)
  /\ enrichSource scholar (Some (hybrid_at 100)) attention_source
     = Returned (<["confidence" := VNum 100]> attention_source)
  /\ enrichSource scholar (Some (hybrid_at 89)) attention_source
     = enrichWeb scholar attention_source
  /\ enrichSource scholar (Some hybrid_broken) attention_source
     = enrichWeb scholar attention_source
  /\ enrichSource scholar None attention_source
     = enrichWeb scholar attention_source.
Proof. repeat split; vm_compute; reflexivity. Qed.

(** The overlay of C1 on the hybrid chain: the empty [url] of the input is
    replaced by the candidate's, and so would a title be by an empty one. *)
Example hybrid_overlay_replaces :
  let untitled := {|
    crossref_work := fun _ => Ok no_work;
    crossref_find := crossref_find offline;
    crossref_search := crossref_search offline;
    crossref_structured := crossref_structured offline;
    getMetadataFromArxiv := getMetadataFromArxiv offline;
    getMetadataFromPubMed := getMetadataFromPubMed offline;
    queryOpenAlex := queryOpenAlex offline;
    querySemanticScholar := querySemanticScholar offline;
    enrichArxiv := enrichArxiv offline;
    enrichWeb := enrichWeb offline;
    enrichYoutube := enrichYoutube offline |} in
  let source : obj :=
    {[ "title" := VStr "Report 10.1000/182"; "date" := VStr "2021" ]} in
  let r := default ∅ (returned_or None (extractMetadataHybrid untitled source)) in
  (get r "title", get r "date", get r "hadDOI") = (VStr "", VStr "", VBool true).
Proof. vm_compute. reflexivity. Qed.

(** * Further properties of the code *)

(** ** The batch runner: the progress protocol and the untitled record *)

Section BatchRunnerProtocol.

Context {World : Type}.
Variable enrichSource : obj -> World -> outcome obj * World.

Lemma reports_from_length total k cs :
  length (reports_from total k cs) = (2 * length cs)%nat.
Proof.
  revert k. induction cs as [| c cs IH]; intros k; simpl; [done |].
  rewrite IH. lia.
Qed.

Lemma reports_from_opening total cs :
  forall k i c,
  cs !! i = Some c ->
  reports_from total k cs !! (i + i)%nat = Some (opening_report total (k + i) (fst c)).
Proof.
  induction cs as [| c0 cs IH]; intros k i c H; [done |].
  destruct i as [| i]; simpl in H.
  - injection H as ->. simpl. rewrite Nat.add_0_r. reflexivity.
  - replace (S i + S i)%nat with (S (S (i + i))) by lia. simpl.
    rewrite (IH (S k) i c H). do 2 f_equal. lia.
Qed.

(** X1. Over [n] titled records the runner calls the progress callback
    exactly [2n + 1] times: for record [i] first a "Processing..." report
    and then the report of its outcome, both numbered [i + 1] of [n], and
    at the end one "complete" report that carries the final tallies. *)
Theorem enrichSources_progress_protocol (sources : list obj) (w : World) :
  Forall has_title sources ->
  exists st w',
    enrichSources_run enrichSource sources w = (Returned st, w')
    /\ length (reports st) = (2 * length sources + 1)%nat
    /\ (forall i source, sources !! i = Some source ->
          reports st !! (2 * i)%nat
          = Some (Progress (i + 1) (length sources) (Some (snippet_of source))
                    Processing None None)
          /\ exists p, reports st !! (2 * i + 1)%nat = Some p
                       /\ p_current p = (i + 1)%nat
                       /\ p_total p = length sources
                       /\ p_source p = Some (snippet_of source)
                       /\ p_results p = None)
    /\ reports st !! (2 * length sources)%nat
       = Some (Progress (length sources) (length sources) None Complete
                 (Some "complete") (Some (results st))).
Proof.
  intros H.
  destruct (enrichSources_run_spec enrichSource sources w H) as [w' Hrun].
  cbv zeta in Hrun. eexists. exists w'. split; [exact Hrun |].
  cbn [reports results enriched].
  set (cs := calls enrichSource sources w).
  assert (Hlen : length (reports_from (length sources) 0 cs) = (2 * length sources)%nat).
  { rewrite reports_from_length. unfold cs. by rewrite calls_length. }
  split; [rewrite length_app, Hlen; simpl; lia |].
  split.
  - intros i source Hi.
    assert (Hc : exists r, cs !! i = Some (source, r)).
    { pose proof (calls_sources enrichSource sources w) as Hs. fold cs in Hs.
      assert (Hf : (fst <$> cs) !! i = Some source).
      { change (fmap fst cs) with (map fst cs). by rewrite Hs. }
      rewrite list_lookup_fmap in Hf.
      destruct (cs !! i) as [[s r] |]; [| done]. injection Hf as ->. eauto. }
    destruct Hc as [r Hc]. split.
    + replace (2 * i)%nat with (i + i)%nat by lia.
      pose proof (reports_from_opening (length sources) cs 0 i _ Hc) as E.
      rewrite lookup_app_l; [exact E |].
      apply lookup_lt_is_Some. rewrite E. eauto.
    + eexists. split; [exact (reports_closing (length sources) cs _ i _ Hc) |].
      repeat split.
  - rewrite lookup_app_r by (rewrite Hlen; lia).
    rewrite Hlen, Nat.sub_diag. reflexivity.
Qed.

Lemma enrichSources_loop_untitled total rest :
  Exists (fun source => ~ has_title source) rest ->
  forall i st w,
    fst (enrichSources_loop enrichSource total i rest st w) = Thrown type_error.
Proof.
  induction rest as [| source rest IH]; intros Hex i st w.
  - inversion Hex.
  - simpl. destruct (get source "title") as [| | | | title |] eqn:Ht;
      try reflexivity.
    simpl. destruct (enrichSource source w) as [r w1].
    apply IH. inversion Hex as [? ? Hbad | ? ? Hrest]; subst; [| exact Hrest].
    exfalso. apply Hbad. exists title. exact Ht.
Qed.

(** X2. A record whose title is not a string makes the runner itself throw
    a [TypeError], whatever the other records are: the snippet for the
    progress report is cut from the title outside the [try]. *)
Theorem enrichSources_untitled_throws (sources : list obj) (w : World) :
  Exists (fun source => ~ has_title source) sources ->
  enrichSources enrichSource sources w = Thrown type_error.
Proof.
  intros Hex. unfold enrichSources, enrichSources_run.
  pose proof (enrichSources_loop_untitled (length sources) sources Hex 0
                (Run [] (Tallies 0 0 0) []) w) as E.
  destruct (enrichSources_loop enrichSource (length sources) 0 sources _ w)
    as [[st |] w']; simpl in E; [discriminate |].
  injection E as ->. reflexivity.
Qed.

End BatchRunnerProtocol.

Lemma enrichSources_progress_protocol_witness :
  Forall has_title mixed_sources
  /\ exists st w',
       enrichSources_run (enrichSource_with scholar) mixed_sources () = (Returned st, w')
       /\ length (reports st) = (2 * length mixed_sources + 1)%nat
       /\ (forall i source, mixed_sources !! i = Some source ->
             reports st !! (2 * i)%nat
             = Some (Progress (i + 1) (length mixed_sources) (Some (snippet_of source))
                       Processing None None)
             /\ exists p, reports st !! (2 * i + 1)%nat = Some p
                          /\ p_current p = (i + 1)%nat
                          /\ p_total p = length mixed_sources
                          /\ p_source p = Some (snippet_of source)
                          /\ p_results p = None)
       /\ reports st !! (2 * length mixed_sources)%nat
          = Some (Progress (length mixed_sources) (length mixed_sources) None Complete
                    (Some "complete") (Some (results st))).
Proof.
  assert (H : Forall has_title mixed_sources)
    by (apply titled_sound; vm_compute; reflexivity).
  split; [exact H |].
  exact (enrichSources_progress_protocol (enrichSource_with scholar)
           mixed_sources () H).
Defined.

Lemma enrichSources_untitled_throws_witness :
  Exists (fun source => ~ has_title source) untitled_then_titled
  /\ enrichSources (enrichSource_with offline) untitled_then_titled ()
     = Thrown type_error.
Proof.
  assert (H : Exists (fun source => ~ has_title source) untitled_then_titled).
  { apply Exists_cons_tl, Exists_cons_hd. intros [title Ht].
    vm_compute in Ht. discriminate Ht. }
  split; [exact H |].
  exact (enrichSources_untitled_throws (enrichSource_with offline)
           untitled_then_titled () H).
Defined.

(** ** One-character patterns, trimming *)

Lemma chars_str (l : list ascii) : Js.chars (Js.str l) = l.
Proof. apply list_ascii_of_string_of_list_ascii. Qed.

Lemma str_chars (s : string) : Js.str (Js.chars s) = s.
Proof. apply string_of_list_ascii_of_string. Qed.

Lemma match_at_Chr p prev s :
  Regex.match_at (Regex.Chr p) prev s
  = match s with
    | c :: s' => if p c then Some (Regex.Found [c] [] s') else None
    | [] => None
    end.
Proof.
  unfold Regex.match_at. simpl. destruct s as [| c s']; [reflexivity |].
  destruct (p c); [| reflexivity].
  replace (length (c :: s') - length s')%nat with 1%nat by (simpl; lia).
  reflexivity.
Qed.

Lemma replace_all_from_Chr p by_ s :
  forall prev,
  Regex.replace_all_from (Regex.Chr p) by_ prev s 0 = subst_chars p by_ s.
Proof.
  induction s as [| c s IH]; intros prev; cbn [Regex.replace_all_from];
    rewrite match_at_Chr; [reflexivity |].
  unfold subst_chars. cbn [flat_map]. fold (subst_chars p by_ s).
  destruct (p c); cbn [Regex.whole length]; by rewrite IH.
Qed.

Lemma subst_chars_delete p s :
  subst_chars p [] s = List.filter (fun c => negb (p c)) s.
Proof.
  unfold subst_chars. induction s as [| c s IH]; simpl; [done |].
  destruct (p c); simpl; by rewrite IH.
Qed.

Lemma drop_spaces_clean s : starts_clean (Js.drop_spaces s).
Proof.
  induction s as [| c s IH]; simpl; [exact I |].
  destruct (Char.is_space c) eqn:E; [exact IH | exact E].
Qed.

Lemma drop_spaces_id s : starts_clean s -> Js.drop_spaces s = s.
Proof. destruct s as [| c s]; simpl; [done |]. by intros ->. Qed.

Lemma drop_spaces_snoc (s : list ascii) c :
  Char.is_space c = false ->
  exists s' : list ascii, Js.drop_spaces (s ++ [c])%list = (s' ++ [c])%list.
Proof.
  intros Hc. induction s as [| d s IH]; simpl.
  - rewrite Hc. by exists [].
  - destruct (Char.is_space d); [exact IH |]. by exists (d :: s).
Qed.

Lemma trim_chars_clean s :
  starts_clean (trim_chars s) /\ starts_clean (rev (trim_chars s)).
Proof.
  unfold trim_chars. split.
  - pose proof (drop_spaces_clean s) as H.
    destruct (Js.drop_spaces s) as [| c s1]; [exact I |].
    simpl in H. simpl.
    destruct (drop_spaces_snoc (rev s1) c H) as [s' ->].
    rewrite rev_app_distr. simpl. exact H.
  - rewrite rev_involutive. apply drop_spaces_clean.
Qed.

(** Trimming what is trimmed changes nothing. *)
Lemma trim_chars_idem s : trim_chars (trim_chars s) = trim_chars s.
Proof.
  destruct (trim_chars_clean s) as [H1 H2].
  unfold trim_chars at 1.
  rewrite (drop_spaces_id _ H1), (drop_spaces_id _ H2).
  apply rev_involutive.
Qed.

Lemma trim_trim_chars (s : string) : Js.trim s = Js.str (trim_chars (Js.chars s)).
Proof. reflexivity. Qed.

Lemma drop_spaces_sub s c : c ∈ Js.drop_spaces s -> c ∈ s.
Proof.
  induction s as [| d s IH]; simpl; [done |].
  destruct (Char.is_space d); [| done].
  intros H. apply elem_of_cons. right. by apply IH.
Qed.

Lemma trim_chars_sub s c : c ∈ trim_chars s -> c ∈ s.
Proof.
  unfold trim_chars.
  rewrite list_elem_of_In, <- in_rev, <- list_elem_of_In. intros H.
  apply drop_spaces_sub in H.
  rewrite list_elem_of_In, <- in_rev, <- list_elem_of_In in H.
  by apply drop_spaces_sub.
Qed.

(** ** The similarity scorer: what the score does not see *)

Lemma lower_idem (c : ascii) : Char.lower (Char.lower c) = Char.lower c.
Proof. destruct c as [[] [] [] [] [] [] [] []]; vm_compute; reflexivity. Qed.

Lemma lower_kept (c : ascii) : kept c = true -> Char.lower c = c.
Proof.
  destruct c as [[] [] [] [] [] [] [] []]; vm_compute; intros H;
    first [reflexivity | discriminate H].
Qed.

(** The normal form of the scorer, character by character. *)
Lemma clean_title_chars (t : string) :
  clean_title t
  = Js.str (trim_chars (List.filter kept (map Char.lower (Js.chars t)))).
Proof.
  unfold clean_title, Js.replace_g, Regex.replace_all, Js.toLowerCase,
    re_not_alnum_space.
  rewrite trim_trim_chars, !chars_str, replace_all_from_Chr.
  change (Js.chars "") with (@nil ascii). rewrite subst_chars_delete.
  do 2 f_equal. apply filter_ext. intros c. unfold kept. apply negb_involutive.
Qed.

Lemma kept_fixed (l : list ascii) :
  Forall (fun c => kept c = true) l ->
  map Char.lower l = l /\ List.filter kept l = l.
Proof.
  induction 1 as [| c l Hc _ [IH1 IH2]]; simpl; [done |].
  by rewrite (lower_kept c Hc), Hc, IH1, IH2.
Qed.

Lemma clean_title_idem (t : string) : clean_title (clean_title t) = clean_title t.
Proof.
  rewrite (clean_title_chars (clean_title t)), (clean_title_chars t), chars_str.
  set (L := List.filter kept (map Char.lower (Js.chars t))).
  assert (Hk : Forall (fun c => kept c = true) (trim_chars L)).
  { apply Forall_forall. intros c Hc. apply trim_chars_sub in Hc.
    apply list_elem_of_In, filter_In in Hc. tauto. }
  destruct (kept_fixed _ Hk) as [Hl Hf].
  by rewrite Hl, Hf, trim_chars_idem.
Qed.

Lemma clean_title_lower (t : string) :
  clean_title (Js.toLowerCase t) = clean_title t.
Proof.
  rewrite !clean_title_chars. unfold Js.toLowerCase. rewrite chars_str.
  do 3 f_equal. rewrite map_map. apply map_ext. intros c. apply lower_idem.
Qed.

(** X4. The score does not see letter case, nor the characters outside
    [a-z0-9] and white space, nor outer white space: a title scores as its
    lower-cased form and as its normal form do, against any other title. *)
Theorem calculateTitleSimilarity_blind_to_case_and_punctuation (a b : string) :
  calculateTitleSimilarity (Js.toLowerCase a) b = calculateTitleSimilarity a b
  /\ calculateTitleSimilarity
       (Js.trim (Js.replace_g re_not_alnum_space "" (Js.toLowerCase a))) b
     = calculateTitleSimilarity a b
  /\ calculateTitleSimilarity a (Js.toLowerCase a) = 1%Q.
Proof.
  fold (clean_title a). rewrite !calculateTitleSimilarity_score_of.
  rewrite clean_title_lower, clean_title_idem.
  repeat split. apply score_of_refl.
Qed.

Lemma Qmin_1_l (y : Q) : (1 <= y)%Q -> Qmin 1 y = 1%Q.
Proof.
  intros H. unfold Qmin, GenericMinMax.gmin.
  destruct (1 ?= y)%Q eqn:E; try reflexivity.
  apply Qgt_alt in E. exfalso. eapply Qlt_not_le; eassumption.
Qed.

Lemma Qmin_1_cases (y : Q) : Qmin 1 y = 1%Q \/ Qmin 1 y = y.
Proof. unfold Qmin, GenericMinMax.gmin. destruct (1 ?= y)%Q; auto. Qed.

Lemma tokens_elem (t w : string) : w ∈ tokens t <-> w ∈ Js.split re_spaces t.
Proof. unfold tokens. apply elem_of_list_to_set. Qed.

Lemma size_Q_pos (X : gset string) :
  (0 < size X)%nat -> (0 < inject_Z (Z.of_nat (size X)))%Q.
Proof. intros H. unfold Qlt. simpl. lia. Qed.

(** X5. Two titles whose normal forms hold the same words score 1, in
    whatever order and however often the words come. *)
Theorem calculateTitleSimilarity_same_words (a b : string) :
  (forall w, w ∈ Js.split re_spaces (clean_title a)
             <-> w ∈ Js.split re_spaces (clean_title b)) ->
  calculateTitleSimilarity a b = 1%Q.
Proof.
  intros H. rewrite calculateTitleSimilarity_score_of. unfold score_of.
  destruct (decide (clean_title a = clean_title b)); [reflexivity |].
  assert (E : tokens (clean_title a) = tokens (clean_title b)).
  { apply set_eq. intros w. rewrite !tokens_elem. apply H. }
  rewrite E, intersection_idemp_L, union_idemp_L.
  pose proof (tokens_union_nonempty (clean_title b) (clean_title b)) as Hpos.
  rewrite union_idemp_L in Hpos. apply size_Q_pos in Hpos.
  apply Qmin_1_l.
  set (s := inject_Z (Z.of_nat (size (tokens (clean_title b))))) in *.
  assert (Hs : (s / s == 1)%Q).
  { unfold Qdiv. apply Qmult_inv_r. intros E0. rewrite E0 in Hpos.
    revert Hpos. apply Qlt_irrefl. }
  rewrite Hs. destruct (_ || _).
  - discriminate.
  - discriminate.
Qed.

Lemma calculateTitleSimilarity_same_words_witness :
  (forall w, w ∈ Js.split re_spaces (clean_title "Deep Learning")
             <-> w ∈ Js.split re_spaces (clean_title "learning, DEEP deep!"))
  /\ calculateTitleSimilarity "Deep Learning" "learning, DEEP deep!" = 1%Q.
Proof.
  assert (H : forall w, w ∈ Js.split re_spaces (clean_title "Deep Learning")
                        <-> w ∈ Js.split re_spaces (clean_title "learning, DEEP deep!")).
  { assert (E1 : Js.split re_spaces (clean_title "Deep Learning")
                 = ["deep"; "learning"]) by (vm_compute; reflexivity).
    assert (E2 : Js.split re_spaces (clean_title "learning, DEEP deep!")
                 = ["learning"; "deep"; "deep"]) by (vm_compute; reflexivity).
    rewrite E1, E2. intros w. rewrite !elem_of_cons, !elem_of_nil. tauto. }
  split; [exact H |].
  exact (calculateTitleSimilarity_same_words "Deep Learning" "learning, DEEP deep!" H).
Defined.

(** X6. The score is 0 exactly when the normal forms differ, share no
    word, and neither contains the other. *)
Theorem calculateTitleSimilarity_zero (a b : string) :
  (calculateTitleSimilarity a b == 0)%Q
  <-> clean_title a <> clean_title b
      /\ (forall w, w ∈ Js.split re_spaces (clean_title a) ->
                    w ∉ Js.split re_spaces (clean_title b))
      /\ Js.includes (clean_title a) (clean_title b) = false
      /\ Js.includes (clean_title b) (clean_title a) = false.
Proof.
  rewrite calculateTitleSimilarity_score_of. unfold score_of.
  set (n1 := clean_title a). set (n2 := clean_title b).
  pose proof (tokens_union_nonempty n1 n2) as Hpos. apply size_Q_pos in Hpos.
  set (d := inject_Z (Z.of_nat (size (tokens n1 ∪ tokens n2)))) in *.
  set (i := size (tokens n1 ∩ tokens n2)).
  assert (Hi : (0 <= inject_Z (Z.of_nat i))%Q) by (unfold Qle; simpl; lia).
  assert (Hj : (0 <= inject_Z (Z.of_nat i) / d)%Q).
  { apply Qle_shift_div_l; [exact Hpos |]. by rewrite Qmult_0_l. }
  destruct (decide (n1 = n2)) as [E | E].
  { split; [intros H; discriminate H | intros [H _]; done]. }
  split.
  - intros H0.
    assert (Hsum : (inject_Z (Z.of_nat i) / d
                    + (if Js.includes n1 n2 || Js.includes n2 n1
                       then 2 # 10 else 0) == 0)%Q).
    { destruct (Qmin_1_cases (inject_Z (Z.of_nat i) / d
                    + (if Js.includes n1 n2 || Js.includes n2 n1
                       then 2 # 10 else 0))%Q) as [E1 | E1];
        rewrite E1 in H0; [discriminate H0 | exact H0]. }
    destruct (Js.includes n1 n2 || Js.includes n2 n1) eqn:Eb.
    { exfalso. assert (Hc : (0 + (2 # 10) <= inject_Z (Z.of_nat i) / d + (2 # 10))%Q)
        by (apply Qplus_le_compat; [exact Hj | apply Qle_refl]).
      rewrite Hsum in Hc. apply (Qle_not_lt _ _ Hc). reflexivity. }
    apply orb_false_iff in Eb as [Eb1 Eb2].
    split; [exact E |]. split; [| split; assumption].
    rewrite Qplus_0_r in Hsum.
    assert (Hi0 : i = 0%nat).
    { destruct i as [| i']; [reflexivity |]. exfalso.
      assert (Hlt : (0 < inject_Z (Z.of_nat (S i')) / d)%Q).
      { apply Qlt_shift_div_l; [exact Hpos |]. rewrite Qmult_0_l.
        unfold Qlt. simpl. lia. }
      rewrite Hsum in Hlt. revert Hlt. apply Qlt_irrefl. }
    intros w H1 H2.
    assert (Hw : w ∈ tokens n1 ∩ tokens n2)
      by (apply elem_of_intersection; rewrite !tokens_elem; done).
    apply size_empty_iff in Hi0. apply Hi0 in Hw. by apply elem_of_empty in Hw.
  - intros (_ & Hdis & Hb1 & Hb2). rewrite Hb1, Hb2. simpl.
    assert (Hi0 : i = 0%nat).
    { apply size_empty_iff. intros w. split; [| by intros ?%elem_of_empty].
      intros [H1 H2]%elem_of_intersection. apply tokens_elem in H1, H2.
      exfalso. exact (Hdis w H1 H2). }
    rewrite Hi0. simpl.
    assert (Hz : (0 / d + 0 == 0)%Q).
    { unfold Qdiv. rewrite Qmult_0_l. reflexivity. }
    rewrite Hz. reflexivity.
Qed.

Example calculateTitleSimilarity_zero_and_bonus :
  (calculateTitleSimilarity "Attention Is All You Need" "Efficient Transformers" == 0)%Q
  /\ (calculateTitleSimilarity "" "Efficient Transformers" == 2 # 10)%Q
  /\ (calculateTitleSimilarity "?!" "" == 1)%Q.
Proof. repeat split; vm_compute; reflexivity. Qed.

(** ** The title-search clients and the academic chain *)

Lemma below_false q bound : below q bound = false -> (bound <= q)%Q.
Proof.
  unfold below. intros H. apply negb_false_iff in H. by apply Qle_bool_iff.
Qed.

Lemma calculateTitleSimilarity_le_1 a b : (calculateTitleSimilarity a b <= 1)%Q.
Proof. rewrite calculateTitleSimilarity_score_of. apply score_of_range. Qed.

Lemma accept_confident source m bar tag c :
  get m "confidence" = VNum c -> (bar <= c)%Q ->
  accept source (Some m) bar tag
  = Some (<["enrichmentType" := VStr tag]> (m ∪ source)).
Proof.
  intros Hc Hle. unfold accept. rewrite Hc. simpl.
  apply Qle_bool_iff in Hle. by rewrite Hle.
Qed.

(** X7. Whatever [queryCrossRef] or [queryWithAuthorYear] returns carries a
    confidence between 0.7 and 1 (the similarity of the query title and the
    first hit's title, plus 0.2 in the structured query when the hit's year
    is the year asked for), so the second threshold test of
    [enrichAcademic] never rejects a candidate of these two clients. *)
Theorem crossref_candidates_pass_the_bar (P : Providers) (title : string) :
  (forall m, queryCrossRef P title = Some m ->
     exists item rest,
       crossref_search P title = Ok (item :: rest)
       /\ get m "confidence"
          = VNum (calculateTitleSimilarity title
                    (default "" (filled (first (w_title item)))))
       /\ (7 # 10 <= calculateTitleSimilarity title
                       (default "" (filled (first (w_title item)))) <= 1)%Q
       /\ forall source,
            accept source (Some m) (7 # 10) "crossref"
            = Some (<["enrichmentType" := VStr "crossref"]> (m ∪ source)))
  /\ (forall author year m, queryWithAuthorYear P author year title = Some m ->
        exists c,
          get m "confidence" = VNum c
          /\ (7 # 10 <= c)%Q /\ (c <= 1)%Q
          /\ forall source,
               accept source (Some m) (7 # 10) "structured_query"
               = Some (<["enrichmentType" := VStr "structured_query"]> (m ∪ source))).
Proof.
  split.
  - intros m. unfold queryCrossRef.
    destruct (crossref_search P title) as [| | [| item rest]]; try discriminate.
    set (c := calculateTitleSimilarity title _).
    destruct (below c (7 # 10)) eqn:Eb; [discriminate |].
    intros Hm. injection Hm as <-. exists item, rest.
    set (m := <["citations" := _]> _).
    assert (Hc : get m "confidence" = VNum c).
    { unfold m, get. repeat (rewrite lookup_insert_ne by done).
      by rewrite lookup_insert_eq. }
    apply below_false in Eb.
    split; [reflexivity |]. split; [exact Hc |].
    split; [split; [exact Eb | apply calculateTitleSimilarity_le_1] |].
    intros source. by apply (accept_confident _ _ _ _ c).
  - intros author year m. unfold queryWithAuthorYear.
    destruct (crossref_structured P author year title) as [| | [| item rest]];
      try discriminate.
    set (c := Qmin 1 _).
    destruct (below c (7 # 10)) eqn:Eb; [discriminate |].
    intros Hm. injection Hm as <-. exists c.
    set (m := <["title" := _]> _).
    assert (Hc : get m "confidence" = VNum c).
    { unfold m, get. repeat (rewrite lookup_insert_ne by done).
      by rewrite lookup_insert_eq. }
    apply below_false in Eb.
    split; [exact Hc |]. split; [exact Eb |]. split; [apply Q.le_min_l |].
    intros source. by apply (accept_confident _ _ _ _ c).
Qed.

Lemma no_match_confidence source : get (no_match source) "confidence" = VNum 0.
Proof.
  unfold get, no_match. rewrite lookup_insert_ne by done.
  by rewrite lookup_insert_eq.
Qed.

Lemma no_match_type source : get (no_match source) "enrichmentType" = VStr "none".
Proof. unfold get, no_match. by rewrite lookup_insert_eq. Qed.

Lemma no_match_other source k :
  k <> "confidence" -> k <> "enrichmentType" -> no_match source !! k = source !! k.
Proof. intros H1 H2. unfold no_match. by rewrite !lookup_insert_ne. Qed.

Lemma accept_tagged source metadata bar tag r :
  accept source metadata bar tag = Some r ->
  get r "enrichmentType" = VStr tag /\ js_ge (get r "confidence") bar = true.
Proof.
  intros H. apply accept_overlaid in H as (m & -> & Hge & ->). split.
  - unfold get. by rewrite lookup_insert_eq.
  - unfold get in *. rewrite lookup_insert_ne by done.
    rewrite lookup_union. destruct (m !! "confidence") as [v |] eqn:E.
    + destruct (source !! "confidence"); exact Hge.
    + simpl in Hge. discriminate Hge.
Qed.

(** X8. On a record with a title [enrichAcademic] never throws, and the
    record it returns always names its strategy under [enrichmentType]: one
    of the four clients, with a confidence of at least 0.65, or "none", and
    then the record is the input with [confidence] 0 and nothing else
    changed. *)
Theorem enrichAcademic_always_tags (P : Providers) (source : obj) :
  has_title source ->
  exists r tag,
    enrichAcademic P source = Returned r
    /\ get r "enrichmentType" = VStr tag
    /\ tag ∈ academic_tags
    /\ (tag <> "none" -> js_ge (get r "confidence") (65 # 100) = true)
    /\ (tag = "none" ->
        get r "confidence" = VNum 0
        /\ forall k, k <> "confidence" -> k <> "enrichmentType" ->
                     r !! k = source !! k).
Proof.
  intros [title Ht]. unfold enrichAcademic. rewrite Ht. simpl.
  set (cleanTitle := cleanTitleForSearch title).
  assert (Hbar : forall r, js_ge (get r "confidence") (7 # 10) = true ->
                           js_ge (get r "confidence") (65 # 100) = true).
  { intros r. destruct (get r "confidence"); simpl; try done;
      intros H; apply Qle_bool_iff in H; apply Qle_bool_iff;
      (eapply Qle_trans; [| exact H]); discriminate. }
  destruct (accept source (structured P _ cleanTitle) _ _) as [r1 |] eqn:E1.
  { apply accept_tagged in E1 as [Hty Hge]. exists r1, "structured_query".
    repeat split; [done | unfold academic_tags; set_solver | auto | done | done]. }
  destruct (accept source (queryCrossRef P cleanTitle) _ _) as [r2 |] eqn:E2.
  { apply accept_tagged in E2 as [Hty Hge]. exists r2, "crossref".
    repeat split; [done | unfold academic_tags; set_solver | auto | done | done]. }
  destruct (accept source (queryOpenAlex P cleanTitle) _ _) as [r3 |] eqn:E3.
  { apply accept_tagged in E3 as [Hty Hge]. exists r3, "openalex".
    repeat split; [done | unfold academic_tags; set_solver | auto | done | done]. }
  destruct (accept source (querySemanticScholar P cleanTitle) _ _) as [r4 |] eqn:E4.
  { apply accept_tagged in E4 as [Hty Hge]. exists r4, "semanticscholar".
    repeat split; [done | unfold academic_tags; set_solver | auto | done | done]. }
  exists (no_match source), "none".
  split; [reflexivity |]. split; [apply no_match_type |].
  split; [unfold academic_tags; set_solver |].
  split; [done |]. intros _. split; [apply no_match_confidence |].
  intros k. apply no_match_other.
Qed.

(** ** Providers that do not answer *)

Lemma getMetadataFromDOI_down P doi :
  no_resolution P -> getMetadataFromDOI P doi = None.
Proof.
  intros (H & _ & _). unfold getMetadataFromDOI.
  by destruct (H doi) as [-> | ->].
Qed.

Lemma getMetadataFromURL_down P url :
  no_resolution P -> getMetadataFromURL P url = None.
Proof.
  intros H. pose proof H as (_ & Ha & Hp). unfold getMetadataFromURL.
  destruct (Js.exec SOURCE_PATTERNS_arxiv url); [apply Ha |].
  destruct (Js.exec SOURCE_PATTERNS_pubmed url); [apply Hp |].
  destruct (Js.exec SOURCE_PATTERNS_doi url); [by apply getMetadataFromDOI_down |].
  destruct (first_matching publisherPatterns url);
    [by apply getMetadataFromDOI_down |].
  destruct (Js.exec re_doi_in_url url); [by apply getMetadataFromDOI_down | done].
Qed.

Lemma hybrid_attempt_down P source :
  no_resolution P ->
  hybrid_attempt (Some (extractMetadataHybrid P)) source = None.
Proof.
  intros H. unfold hybrid_attempt, extractMetadataHybrid.
  destruct (extractDOI source) as [doi |]; [| reflexivity]. simpl.
  assert (E1 : filled doi ≫= getMetadataFromDOI P = None).
  { destruct (filled doi); [by apply getMetadataFromDOI_down | done]. }
  rewrite E1.
  destruct (truthy_string (get source "url")) as [url |]; [| reflexivity]. simpl.
  assert (E2 : url ≫= getMetadataFromURL P = None).
  { destruct url; [by apply getMetadataFromURL_down | done]. }
  rewrite E2.
  destruct (findDOIByTitle P (get source "title")) as [doi' |]; [| reflexivity].
  simpl.
  assert (E3 : filled doi' ≫= getMetadataFromDOI P = None).
  { destruct (filled doi'); [by apply getMetadataFromDOI_down | done]. }
  by rewrite E3.
Qed.

Lemma queryCrossRef_down P title :
  failing (crossref_search P title) -> queryCrossRef P title = None.
Proof. unfold queryCrossRef. by intros [-> | [-> | ->]]. Qed.

Lemma queryWithAuthorYear_down P author year title :
  failing (crossref_structured P author year title) ->
  queryWithAuthorYear P author year title = None.
Proof. unfold queryWithAuthorYear. by intros [-> | [-> | ->]]. Qed.

Lemma classify_no_match source : classify (no_match source) = classify source.
Proof.
  unfold classify, has_author, has, get.
  rewrite !no_match_other by done. reflexivity.
Qed.

(** X9. When no identifier resolution answers, [enrichSource] is the chain
    of the detected type alone, whatever the title search finds and even if
    the hybrid extraction throws.  When no title search answers either, a
    titled record goes through [enrichAcademic] to the input record with
    [confidence] 0 and [enrichmentType] "none", which the batch runner
    counts as the input record itself would be counted. *)
Theorem enrichSource_degrades (P : Providers) (source : obj) :
  no_resolution P ->
  enrichSource P (Some (extractMetadataHybrid P)) source = enrichByType P source
  /\ (no_title_search P -> has_title source ->
      enrichAcademic P source = Returned (no_match source)
      /\ get (no_match source) "confidence" = VNum 0
      /\ get (no_match source) "enrichmentType" = VStr "none"
      /\ classify (no_match source) = classify source
      /\ (detectSourceType source = Returned "academic" ->
          enrichSource P (Some (extractMetadataHybrid P)) source
          = Returned (no_match source))).
Proof.
  intros Hres.
  assert (E : enrichSource P (Some (extractMetadataHybrid P)) source
              = enrichByType P source).
  { unfold enrichSource. by rewrite hybrid_attempt_down. }
  split; [exact E |].
  intros (Hs & Hc & Ho & Hss) [title Ht].
  assert (Ea : enrichAcademic P source = Returned (no_match source)).
  { unfold enrichAcademic. rewrite Ht. simpl.
    assert (E1 : structured P (parseFilenameMetadata title)
                   (cleanTitleForSearch title) = None).
    { unfold structured.
      destruct (filled (author _)); [| done].
      destruct (nonzero (year _)); [| done].
      apply queryWithAuthorYear_down, Hs. }
    rewrite E1, (queryCrossRef_down _ _ (Hc _)), Ho, Hss. reflexivity. }
  split; [exact Ea |].
  split; [apply no_match_confidence |].
  split; [apply no_match_type |].
  split; [apply classify_no_match |].
  intros Hty. rewrite E. unfold enrichByType. rewrite Hty. simpl. exact Ea.
Qed.

Lemma offline_no_resolution : no_resolution offline.
Proof. repeat split; intros; simpl; auto. Qed.

Lemma offline_no_title_search : no_title_search offline.
Proof. repeat split; intros; simpl; unfold failing; auto. Qed.

Lemma enrichSource_degrades_witness :
  no_resolution offline
  /\ enrichSource offline (Some (extractMetadataHybrid offline)) filename_source
     = enrichByType offline filename_source
  /\ (no_title_search offline -> has_title filename_source ->
      enrichAcademic offline filename_source = Returned (no_match filename_source)
      /\ get (no_match filename_source) "confidence" = VNum 0
      /\ get (no_match filename_source) "enrichmentType" = VStr "none"
      /\ classify (no_match filename_source) = classify filename_source
      /\ (detectSourceType filename_source = Returned "academic" ->
          enrichSource offline (Some (extractMetadataHybrid offline)) filename_source
          = Returned (no_match filename_source))).
Proof.
  split; [exact offline_no_resolution |].
  exact (enrichSource_degrades offline filename_source offline_no_resolution).
Defined.

Example filename_source_degrades :
  has_title filename_source
  /\ detectSourceType filename_source = Returned "academic"
  /\ classify filename_source = Failed.
Proof.
  split; [exists "Smith et al - 2024 - Deep Learning.pdf"; vm_compute; reflexivity |].
  split; vm_compute; reflexivity.
Qed.

Lemma enrichAcademic_always_tags_witness :
  has_title deep_learning_source
  /\ exists r tag,
       enrichAcademic scholar deep_learning_source = Returned r
       /\ get r "enrichmentType" = VStr tag
       /\ tag ∈ academic_tags
       /\ (tag <> "none" -> js_ge (get r "confidence") (65 # 100) = true)
       /\ (tag = "none" ->
           get r "confidence" = VNum 0
           /\ forall k, k <> "confidence" -> k <> "enrichmentType" ->
                        r !! k = deep_learning_source !! k).
Proof.
  assert (H : has_title deep_learning_source)
    by (exists "Deep Learning for NLP"; vm_compute; reflexivity).
  split; [exact H |].
  exact (enrichAcademic_always_tags scholar deep_learning_source H).
Defined.

(** ** The abstract rebuilt from an inverted index *)

Lemma array_set_same (words : sparse) pos word :
  array_set words pos word !! pos = Some (Some word).
Proof.
  unfold array_set. destruct (Nat.ltb_spec pos (length words)).
  - by apply list_lookup_insert_eq.
  - rewrite lookup_app_r by lia.
    rewrite lookup_app_r by (rewrite length_replicate; lia).
    rewrite length_replicate, Nat.sub_diag. reflexivity.
Qed.

Lemma array_set_other (words : sparse) pos word i x :
  i <> pos ->
  array_set words pos word !! i = Some (Some x) <-> words !! i = Some (Some x).
Proof.
  intros Hne. unfold array_set. destruct (Nat.ltb_spec pos (length words)).
  - by rewrite list_lookup_insert_ne.
  - destruct (Nat.lt_ge_cases i (length words)) as [Hi | Hi].
    + by rewrite lookup_app_l.
    + rewrite lookup_app_r by lia. rewrite (lookup_ge_None_2 words i) by lia.
      split; [| done].
      destruct (Nat.lt_ge_cases (i - length words) (pos - length words)) as [Hj | Hj].
      * rewrite lookup_app_l by (rewrite length_replicate; lia).
        intros H0. apply lookup_replicate in H0 as [H0 _]. discriminate H0.
      * rewrite lookup_app_r by (rewrite length_replicate; lia).
        rewrite length_replicate.
        destruct (i - length words - (pos - length words))%nat eqn:E; [lia |].
        simpl. by rewrite lookup_nil.
Qed.

Lemma array_set_length (words : sparse) pos word :
  length (array_set words pos word) = Nat.max (length words) (pos + 1).
Proof.
  unfold array_set. destruct (Nat.ltb_spec pos (length words)).
  - rewrite length_insert. lia.
  - rewrite !length_app, length_replicate. simpl. lia.
Qed.

Lemma array_set_filled (words : sparse) pos word i :
  filled_at words i \/ i = pos -> filled_at (array_set words pos word) i.
Proof.
  unfold filled_at. destruct (decide (i = pos)) as [-> | Hne].
  - intros _. exists word. apply array_set_same.
  - intros [[x Hx] | ?]; [| done]. exists x. by apply array_set_other.
Qed.

Lemma array_set_agrees ws (words : sparse) pos word :
  ws !! pos = Some word -> agrees ws words -> agrees ws (array_set words pos word).
Proof.
  intros Hw [Ha Hl]. split.
  - intros i x. destruct (decide (i = pos)) as [-> | Hne].
    + rewrite array_set_same. intros [= <-]. exact Hw.
    + rewrite array_set_other by done. apply Ha.
  - rewrite array_set_length. apply lookup_lt_Some in Hw. lia.
Qed.

Lemma write_all_agrees ws l :
  (forall pos word, (pos, word) ∈ l -> ws !! pos = Some word) ->
  forall words, agrees ws words -> agrees ws (write_all words l).
Proof.
  induction l as [| [pos word] l IH]; intros Hl words Ha; simpl; [done |].
  apply IH.
  - intros p w Hin. apply Hl. apply elem_of_cons. by right.
  - apply array_set_agrees; [| done]. apply Hl. apply elem_of_cons. by left.
Qed.

Lemma write_all_filled l :
  forall (words : sparse) i,
    filled_at words i \/ (exists word, (i, word) ∈ l) ->
    filled_at (write_all words l) i.
Proof.
  induction l as [| [pos word] l IH]; intros words i H; simpl.
  - destruct H as [H | [w Hw]]; [done |]. by apply elem_of_nil in Hw.
  - apply IH. destruct H as [H | [w Hw]].
    + left. apply array_set_filled. by left.
    + apply elem_of_cons in Hw as [[= -> ->] | Hw].
      * left. apply array_set_filled. by right.
      * right. eauto.
Qed.

Lemma writes_elem index pos word :
  (pos, word) ∈ writes index
  <-> exists positions, (word, positions) ∈ index /\ pos ∈ positions.
Proof.
  unfold writes. rewrite list_elem_of_In, in_flat_map. split.
  - intros [[w ps] [Hin Hp]]. apply in_map_iff in Hp as (p & [= <- <-] & Hp).
    exists ps. by rewrite !list_elem_of_In.
  - intros (ps & Hin & Hp). exists (word, ps). rewrite <- list_elem_of_In.
    split; [done |]. apply in_map_iff. exists pos. by rewrite <- list_elem_of_In.
Qed.

Lemma reconstruct_writes index :
  foldl (fun words '(word, positions) =>
           foldl (fun words pos => array_set words pos word) words positions)
        [] index
  = write_all [] (writes index).
Proof.
  unfold write_all. generalize (@nil (option string)).
  induction index as [| [word positions] index IH]; intros words; simpl; [done |].
  rewrite foldl_app, IH. f_equal.
  clear. revert words. induction positions as [| pos positions IH]; intros words;
    simpl; [done |]. apply IH.
Qed.

Lemma filter_Boolean_words ws :
  filter_Boolean (map Some ws) = List.filter nonempty ws.
Proof.
  induction ws as [| w ws IH]; [done |].
  change (filter_Boolean (map Some (w :: ws)))
    with (match (if String.eqb w "" then None else Some w) with
          | Some y => y :: filter_Boolean (map Some ws)
          | None => filter_Boolean (map Some ws)
          end).
  rewrite IH. simpl. unfold nonempty. by destruct (String.eqb w "").
Qed.

(** X10. [reconstructAbstract] inverts an inverted index: given any index
    of a word sequence, in any order of its entries, it returns the words
    that are not empty in their order, joined by single spaces and cut to
    1000 characters. *)
Theorem reconstructAbstract_inverts (index : list (string * list nat))
    (ws : list string) :
  indexes index ws ->
  reconstructAbstract index
  = substring 0 1000 (join " " (List.filter nonempty ws)).
Proof.
  intros Hidx. unfold reconstructAbstract. rewrite reconstruct_writes.
  assert (Ha : agrees ws (write_all [] (writes index))).
  { apply write_all_agrees.
    - intros pos word Hin. apply Hidx. by apply writes_elem.
    - split; [intros i x H; by rewrite lookup_nil in H | simpl; lia]. }
  assert (E : write_all [] (writes index) = map Some ws).
  { apply list_eq. intros i. change (map Some ws) with (Some <$> ws).
    rewrite list_lookup_fmap.
    destruct (ws !! i) as [w |] eqn:Hw; simpl.
    - assert (Hf : filled_at (write_all [] (writes index)) i).
      { apply write_all_filled. right. exists w.
        apply writes_elem. by apply Hidx. }
      destruct Hf as [x Hx]. rewrite Hx.
      destruct Ha as [Ha _]. apply Ha in Hx. congruence.
    - apply lookup_ge_None. apply lookup_ge_None in Hw.
      destruct Ha as [_ Hl]. lia. }
  by rewrite E, filter_Boolean_words.
Qed.

Lemma indexes_b_sound index ws : indexes_b index ws = true -> indexes index ws.
Proof.
  unfold indexes_b. intros H. apply andb_true_iff in H as [H1 H2].
  rewrite forallb_forall in H1. rewrite forallb_forall in H2.
  intros i w. split.
  - intros (ps & Hin & Hp). apply list_elem_of_In in Hin.
    specialize (H1 _ Hin). simpl in H1. rewrite forallb_forall in H1.
    apply list_elem_of_In in Hp. specialize (H1 _ Hp).
    by apply bool_decide_eq_true in H1.
  - intros Hw. assert (Hi : In i (List.seq 0 (length ws))).
    { apply in_seq. apply lookup_lt_Some in Hw. lia. }
    specialize (H2 _ Hi). apply existsb_exists in H2 as ([w' ps] & Hin & Hb).
    apply andb_true_iff in Hb as [Hb1 Hb2].
    apply bool_decide_eq_true in Hb1, Hb2.
    exists ps. split; [| done]. apply list_elem_of_In. congruence.
Qed.

Lemma reconstructAbstract_inverts_witness :
  indexes [("learning", [1; 4]); ("deep", [0]); ("is", [2]); ("about", [3])]
          ["deep"; "learning"; "is"; "about"; "learning"]
  /\ reconstructAbstract
       [("learning", [1; 4]); ("deep", [0]); ("is", [2]); ("about", [3])]
     = substring 0 1000
         (join " " (List.filter nonempty
                      ["deep"; "learning"; "is"; "about"; "learning"])).
Proof.
  assert (H : indexes [("learning", [1; 4]); ("deep", [0]); ("is", [2]); ("about", [3])]
                      ["deep"; "learning"; "is"; "about"; "learning"])
    by (apply indexes_b_sound; vm_compute; reflexivity).
  split; [exact H |].
  exact (reconstructAbstract_inverts _ _ H).
Defined.

Example reconstructAbstract_edges :
  reconstructAbstract [] = ""
  /\ reconstructAbstract [("b", [3]); ("a", [0])] = "a b"
  /\ reconstructAbstract [("a", [0]); ("b", [0])] = "b"
  /\ reconstructAbstract [("deep", [0]); ("", [1]); ("learning", [2])] = "deep learning".
Proof. repeat split; vm_compute; reflexivity. Qed.

(** ** Reading a match backwards *)

Section Inversion.

Import Regex.

Lemma or_else_Some {A} (x y : option A) z :
  or_else x y = Some z -> x = Some z \/ y = Some z.
Proof. destruct x; simpl; auto. Qed.

Lemma answered_or_else {A} (x y : option A) :
  answered (or_else x y) = answered x || answered y.
Proof. by destruct x. Qed.

Lemma last_or_cons p c pre : last_or p (c :: pre) = last_or (Some c) pre.
Proof.
  unfold last_or. destruct pre as [| d pre]; [reflexivity |].
  change (last (c :: d :: pre)) with (last (d :: pre)).
  by destruct (last (d :: pre)) eqn:E; [| apply last_None in E].
Qed.

Lemma last_or_snoc p pre c : last_or p (pre ++ [c]) = Some c.
Proof. unfold last_or. by rewrite last_snoc. Qed.

Lemma one_char_Chr p : one_char p (Chr p).
Proof.
  intros A st k x. cbn [run]. destruct (rest st) as [| c s']; [discriminate |].
  destruct (p c) eqn:E; [| discriminate]. eauto.
Qed.

Lemma one_char_Alt P Q r1 r2 :
  one_char P r1 -> one_char Q r2 -> one_char (fun c => P c || Q c) (Alt r1 r2).
Proof.
  intros H1 H2 A st k x. cbn [run]. intros H.
  apply or_else_Some in H as [H | H].
  - apply H1 in H as (c & s' & ? & Hc & ?). exists c, s'. by rewrite Hc.
  - apply H2 in H as (c & s' & ? & Hc & ?). exists c, s'.
    rewrite Hc, orb_true_r. done.
Qed.

(** What a quantifier around a one-character pattern has read when the
    match goes on: [lo] characters of the class at least. *)
Lemma repeat_inv {A} P r (k : mstate -> option A) greedy :
  one_char P r ->
  forall fuel lo hi st x,
    repeat_ (run r) k greedy fuel lo hi st = Some x ->
    exists pre s2,
      rest st = (pre ++ s2)%list
      /\ Forall (fun c => P c = true) pre
      /\ (lo <= length pre)%nat
      /\ k (MState (last_or (prev st) pre) s2 (caps st)) = Some x.
Proof.
  intros Hr fuel. induction fuel as [| fuel IH]; intros lo hi st x H;
    [discriminate |].
  cbn [repeat_] in H.
  assert (Hcases :
    (if hi_zero hi then None
     else run r st (fun st' =>
            if (lo =? 0)%nat && (length (rest st') =? length (rest st))%nat
            then None
            else repeat_ (run r) k greedy fuel (Nat.pred lo) (dec_hi hi) st'))
    = Some x
    \/ (if (lo =? 0)%nat then k st else None) = Some x).
  { destruct greedy; apply or_else_Some in H; tauto. }
  clear H. destruct Hcases as [H | H].
  - destruct (hi_zero hi); [discriminate |].
    apply Hr in H as (c & s' & Hrest & Hc & H). cbn [rest caps] in H.
    destruct (_ && _); [discriminate |].
    apply IH in H as (pre & s2 & Hrest' & Hall & Hlo & H).
    cbn [rest prev caps] in *. subst s'.
    exists (c :: pre), s2. rewrite last_or_cons.
    repeat split; [done | by constructor | simpl; lia | done].
  - destruct (Nat.eqb_spec lo 0) as [-> | ?]; [| discriminate].
    exists [], (rest st). destruct st. repeat split; [constructor | simpl; lia | done].
Qed.

Lemma run_Rep_inv {A} P r (k : mstate -> option A) greedy lo hi st x :
  one_char P r ->
  run (Rep greedy lo hi r) st k = Some x ->
  exists pre s2,
    rest st = (pre ++ s2)%list
    /\ Forall (fun c => P c = true) pre
    /\ (lo <= length pre)%nat
    /\ k (MState (last_or (prev st) pre) s2 (caps st)) = Some x.
Proof. intros Hr. cbn [run]. by apply repeat_inv. Qed.

(** What a literal text has read. *)
Lemma run_text_inv {A} (f : ascii -> re) (Pf : ascii -> ascii -> bool) :
  (forall d, one_char (Pf d) (f d)) ->
  forall (w : list ascii) st (k : mstate -> option A) x,
    run (foldr (fun c r => Seq (f c) r) Eps w) st k = Some x ->
    exists pre s2,
      rest st = (pre ++ s2)%list
      /\ Forall2 (fun d c => Pf d c = true) w pre
      /\ k (MState (last_or (prev st) pre) s2 (caps st)) = Some x.
Proof.
  intros Hf w. induction w as [| d w IH]; intros st k x H.
  - exists [], (rest st). destruct st. repeat split; [constructor | done].
  - cbn [foldr run] in H.
    apply Hf in H as (c & s' & Hrest & Hc & H).
    apply IH in H as (pre & s2 & Hrest' & Hall & H). cbn [rest prev caps] in *.
    subst s'. exists (c :: pre), s2. rewrite last_or_cons.
    repeat split; [done | by constructor | done].
Qed.

(** Whether a match goes through depends on the continuation only through
    the states on which the continuation goes through. *)
Lemma repeat_answered {A B}
    (body : mstate -> (mstate -> option A) -> option A)
    (body' : mstate -> (mstate -> option B) -> option B) greedy :
  (forall st k k', (forall st', answered (k st') = answered (k' st')) ->
                   answered (body st k) = answered (body' st k')) ->
  forall fuel lo hi st k k',
    (forall st', answered (k st') = answered (k' st')) ->
    answered (repeat_ body k greedy fuel lo hi st)
    = answered (repeat_ body' k' greedy fuel lo hi st).
Proof.
  intros Hb fuel. induction fuel as [| fuel IH]; intros lo hi st k k' Hk;
    [reflexivity |].
  cbn [repeat_].
  assert (E1 : answered
                 (if hi_zero hi then None
                  else body st (fun st' =>
                    if (lo =? 0)%nat && (length (rest st') =? length (rest st))%nat
                    then None
                    else repeat_ body k greedy fuel (Nat.pred lo) (dec_hi hi) st'))
               = answered
                 (if hi_zero hi then None
                  else body' st (fun st' =>
                    if (lo =? 0)%nat && (length (rest st') =? length (rest st))%nat
                    then None
                    else repeat_ body' k' greedy fuel (Nat.pred lo) (dec_hi hi) st'))).
  { destruct (hi_zero hi); [reflexivity |]. apply Hb. intros st'.
    destruct (_ && _); [reflexivity |]. by apply IH. }
  assert (E2 : answered (if (lo =? 0)%nat then k st else None)
               = answered (if (lo =? 0)%nat then k' st else None)).
  { destruct (lo =? 0)%nat; [apply Hk | reflexivity]. }
  destruct greedy; rewrite !answered_or_else, E1, E2; reflexivity.
Qed.

Lemma run_answered {A B} (r : re) :
  forall st (k : mstate -> option A) (k' : mstate -> option B),
    (forall st', answered (k st') = answered (k' st')) ->
    answered (run r st k) = answered (run r st k').
Proof.
  induction r as [| p | r1 IH1 r2 IH2 | r1 IH1 r2 IH2 | g lo hi r1 IH | i r1 IH
                 | | |]; intros st k k' Hk; cbn [run].
  - apply Hk.
  - destruct (rest st) as [| c s']; [reflexivity |].
    destruct (p c); [apply Hk | reflexivity].
  - apply IH1. intros st'. by apply IH2.
  - rewrite !answered_or_else. by rewrite (IH1 st k k' Hk), (IH2 st k k' Hk).
  - by apply repeat_answered.
  - apply IH. intros st'. apply Hk.
  - destruct (prev st); [reflexivity | apply Hk].
  - destruct (rest st); [apply Hk | reflexivity].
  - destruct (xorb _ _); [apply Hk | reflexivity].
Qed.

(** A match at a later position makes a match somewhere. *)
Lemma anywhere_later r pre :
  forall p s2,
    answered (match_at r (last_or p pre) s2) = true ->
    anywhere r p (pre ++ s2) = true.
Proof.
  induction pre as [| c pre IH]; intros p s2 H.
  - simpl. unfold last_or in H. simpl in H.
    destruct s2; simpl; rewrite H; reflexivity.
  - rewrite last_or_cons in H. cbn [app anywhere].
    rewrite (IH _ _ H). apply orb_true_r.
Qed.

Lemma all_from_anywhere r s :
  forall p, all_from r p s 0 = [] <-> anywhere r p s = false.
Proof.
  induction s as [| c s IH]; intros p; cbn [all_from anywhere].
  - destruct (match_at r p []); simpl; split; done.
  - destruct (match_at r p (c :: s)); simpl; [split; done |]. apply IH.
Qed.

Lemma match_g_None r (t : string) :
  Js.match_g r t = None <-> anywhere r None (Js.chars t) = false.
Proof.
  unfold Js.match_g, match_all. rewrite <- all_from_anywhere.
  destruct (all_from r None (Js.chars t) 0); simpl; split; done.
Qed.

Lemma match_g_first r (t : string) ms :
  Js.match_g r t = Some ms -> exists m ms', ms = m :: ms'.
Proof.
  unfold Js.match_g, match_all.
  destruct (all_from r None (Js.chars t) 0) as [| m ms0]; simpl; [discriminate |].
  intros [= <-]. eauto.
Qed.

End Inversion.

(** ** The identifier extractor never throws *)

Section ExtractDOI.

Import Regex.

Lemma same_eq d c : Char.same d c = true -> c = d.
Proof. unfold Char.same. intros H. apply Ascii.eqb_eq in H. done. Qed.

Lemma is_ci_slash c : Char.is_ci "/" c = true -> c = "/"%char.
Proof.
  destruct c as [[] [] [] [] [] [] [] []]; vm_compute; intros H;
    first [reflexivity | discriminate H].
Qed.

Lemma colon_or_space_not_word c :
  Char.same ":" c || Char.is_space c = true -> Char.is_word c = false.
Proof.
  destruct c as [[] [] [] [] [] [] [] []]; vm_compute; intros H;
    first [reflexivity | discriminate H].
Qed.

Lemma one_char_lit d : one_char (Char.same d) (lit d).
Proof. apply one_char_Chr. Qed.

Lemma one_char_lit_ci d : one_char (Char.is_ci d) (lit_ci d).
Proof. apply one_char_Chr. Qed.

(** A match of the DOI body starts at a ["1"]. *)
Lemma doi_body_starts {A} st (k : mstate -> option A) x :
  run (Grp 1 re_doi_body) st k = Some x -> exists s', rest st = "1"%char :: s'.
Proof.
  cbn [run]. unfold re_doi_body. cbn [seq run]. intros H.
  apply (run_text_inv lit Char.same one_char_lit) in H
    as (pre & s2 & Hrest & Hall & _).
  change (list_ascii_of_string "10.") with ["1"; "0"; "."]%char in Hall.
  inversion Hall as [| d c w pre' Hc Hall']; subst.
  apply same_eq in Hc. subst c. rewrite Hrest. simpl. eauto.
Qed.

(** Where the DOI body matches after a character that is no word character,
    the [standard] pattern matches. *)
Lemma standard_at {A} c s2 (k : mstate -> option A) :
  Char.is_word c = false ->
  (forall st, answered (k st) = true) ->
  answered (run (Grp 1 re_doi_body) (MState (Some c) s2 []) k) = true ->
  answered (match_at DOI_PATTERNS_standard (Some c) s2) = true.
Proof.
  intros Hc Hk H. unfold match_at, DOI_PATTERNS_standard. cbn [seq].
  change (run (Seq WordB (Grp 1 re_doi_body)) ?st ?k0)
    with (if xorb (word_before st) (word_after st)
          then run (Grp 1 re_doi_body) st k0 else None).
  destruct (run (Grp 1 re_doi_body) (MState (Some c) s2 []) k) as [x |] eqn:E;
    [| discriminate].
  destruct (doi_body_starts _ _ _ E) as [s' Hs]. cbn [rest] in Hs. subst s2.
  unfold word_before, word_after. cbn [prev rest]. rewrite Hc.
  change (Char.is_word "1") with true. cbn [xorb negb].
  rewrite (run_answered (Grp 1 re_doi_body) _ _ k).
  - by rewrite E.
  - intros st'. by rewrite Hk.
Qed.

Lemma run_Seq {A} r1 r2 st (k : mstate -> option A) :
  run (Seq r1 r2) st k = run r1 st (fun st' => run r2 st' k).
Proof. reflexivity. Qed.

Lemma url_to_standard p s :
  answered (match_at DOI_PATTERNS_url p s) = true ->
  anywhere DOI_PATTERNS_standard p s = true.
Proof.
  unfold match_at at 1, DOI_PATTERNS_url. cbn [seq]. rewrite run_Seq.
  destruct (run (text_ci "doi.org/") _ _) as [x |] eqn:H; [| discriminate].
  intros _.
  apply (run_text_inv lit_ci Char.is_ci one_char_lit_ci) in H
    as (pre & s2 & Hrest & Hall & H).
  cbn [rest prev caps] in *. subst s.
  change (list_ascii_of_string "doi.org/")
    with ["d"; "o"; "i"; "."; "o"; "r"; "g"; "/"]%char in Hall.
  repeat match goal with
         | Hf : Forall2 _ (_ :: _) _ |- _ => inversion Hf; subst; clear Hf
         | Hf : Forall2 _ [] _ |- _ => inversion Hf; subst; clear Hf
         end.
  match goal with Hs : Char.is_ci "/" _ = true |- _ => apply is_ci_slash in Hs; subst end.
  apply anywhere_later.
  match goal with
  | |- context [last_or p ?l] => change (last_or p l) with (Some "/"%char) in *
  end.
  eapply (standard_at "/"%char); [reflexivity | | by rewrite H].
  intros st. reflexivity.
Qed.

Lemma last_or_Forall (P : ascii -> bool) (pre : list ascii) :
  pre <> [] -> Forall (fun c => P c = true) pre ->
  exists c, P c = true /\ forall q pre0, last_or q (pre0 ++ pre) = Some c.
Proof.
  intros Hne Hall.
  destruct (exists_last Hne) as (pre' & c & ->).
  apply Forall_app in Hall as [_ Hc]. inversion Hc; subst.
  exists c. split; [done |]. intros q pre0.
  rewrite app_assoc. apply last_or_snoc.
Qed.

Lemma embedded_to_standard p s :
  answered (match_at DOI_PATTERNS_embedded p s) = true ->
  anywhere DOI_PATTERNS_standard p s = true.
Proof.
  unfold match_at at 1, DOI_PATTERNS_embedded. cbn [seq]. rewrite !run_Seq.
  destruct (run (text_ci "doi") _ _) as [x |] eqn:H; [| discriminate].
  intros _.
  apply (run_text_inv lit_ci Char.is_ci one_char_lit_ci) in H
    as (pre & s2 & Hrest & _ & H).
  cbn [rest prev caps] in *. subst s.
  rewrite run_Seq in H. unfold plus, space in H.
  apply (run_Rep_inv (fun c => Char.same ":" c || Char.is_space c)) in H
    as (pre2 & s3 & Hrest & Hall & Hlen & H);
    [| apply one_char_Alt; apply one_char_Chr].
  cbn [rest prev caps] in *. subst s2.
  destruct (last_or_Forall (fun c => Char.same ":" c || Char.is_space c) pre2)
    as (c & Hc & Hlast); [| exact Hall |].
  { intros ->. simpl in Hlen. lia. }
  rewrite app_assoc. apply anywhere_later. rewrite Hlast.
  pose proof (Hlast (last_or p pre) []) as Hlast'. cbn [app] in Hlast'.
  rewrite Hlast' in H.
  eapply (standard_at c); [by apply colon_or_space_not_word | | by rewrite H].
  intros st. reflexivity.
Qed.

Lemma anywhere_implies r r' :
  (forall p s, answered (match_at r p s) = true -> anywhere r' p s = true) ->
  forall s p, anywhere r p s = true -> anywhere r' p s = true.
Proof.
  intros Hm s. induction s as [| c s IH]; intros p H; cbn [anywhere] in H.
  - apply Hm. by rewrite orb_false_r in H.
  - apply orb_true_iff in H as [H | H].
    + by apply Hm.
    + cbn [anywhere]. rewrite (IH _ H). apply orb_true_r.
Qed.

(** The title loop of [extractDOI] never gets past its first entry: a
    title that the [url] or the [embedded] pattern matches is matched by
    the [standard] pattern. *)
Lemma extractDOI_title_standard (title : string) :
  extractDOI_title title DOI_PATTERNS
  = (fun doi => Returned (Some (cleanDOI doi))) <$> first_standard_match title.
Proof.
  unfold extractDOI_title, DOI_PATTERNS, first_standard_match.
  destruct (Js.match_g DOI_PATTERNS_standard title) as [ms |] eqn:E.
  - destruct (match_g_first _ _ _ E) as (m & ms' & ->). reflexivity.
  - apply match_g_None in E.
    assert (E1 : Js.match_g DOI_PATTERNS_url title = None).
    { apply match_g_None. destruct (anywhere DOI_PATTERNS_url _ _) eqn:Ea; [| done].
      apply (anywhere_implies _ _ url_to_standard) in Ea. congruence. }
    assert (E2 : Js.match_g DOI_PATTERNS_embedded title = None).
    { apply match_g_None.
      destruct (anywhere DOI_PATTERNS_embedded _ _) eqn:Ea; [| done].
      apply (anywhere_implies _ _ embedded_to_standard) in Ea. congruence. }
    rewrite E1, E2. reflexivity.
Qed.

Lemma truthy_string_text v :
  string_or_falsy v -> truthy_string v = Returned (text_of v).
Proof.
  unfold string_or_falsy, truthy_string, text_of.
  destruct v; try done; by intros ->.
Qed.

(** X11. On a record whose title and url are strings or falsy,
    [extractDOI] never throws, and only the [standard] pattern ever decides
    on the title: the reading [match[1]] of the other two patterns, which
    under their [g] flag is the second match and may be [undefined], is
    never reached. *)
Theorem extractDOI_never_throws (source : obj) :
  string_or_falsy (get source "title") ->
  string_or_falsy (get source "url") ->
  extractDOI source = Returned (extractDOI_standard_only source).
Proof.
  intros Ht Hu. unfold extractDOI, extractDOI_standard_only.
  rewrite (truthy_string_text _ Ht), (truthy_string_text _ Hu).
  destruct (text_of (get source "title")) as [title |];
    cbn [mbind option_bind outcome_bind]; [| reflexivity].
  rewrite extractDOI_title_standard.
  by destruct (first_standard_match title).
Qed.

End ExtractDOI.

Lemma extractDOI_never_throws_witness :
  string_or_falsy (get attention_source "title")
  /\ string_or_falsy (get attention_source "url")
  /\ extractDOI attention_source = Returned (extractDOI_standard_only attention_source).
Proof.
  assert (H1 : string_or_falsy (get attention_source "title"))
    by (vm_compute; exact I).
  assert (H2 : string_or_falsy (get attention_source "url"))
    by (vm_compute; exact I).
  split; [exact H1 |]. split; [exact H2 |].
  exact (extractDOI_never_throws attention_source H1 H2).
Defined.

(** A title where the [url] pattern matches once: the [standard] pattern
    decides, and the result is the first match, not [match[1]]. *)
Example extractDOI_url_pattern_in_title :
  extractDOI {[ "title" := VStr "see doi.org/10.1000/182 and doi: 10.1000/183" ]}
  = Returned (Some "10.1000/182")
  /\ (length <$> Js.match_g DOI_PATTERNS_url "see doi.org/10.1000/182") = Some 1%nat
  /\ extractDOI {[ "title" := VNum 5 ]} = Thrown type_error.
Proof. repeat split; vm_compute; reflexivity. Qed.

(** ** The matcher reads what the pattern can read *)

Section Matches.

Import Regex.

Lemma repeat_matches {A} r (k : mstate -> option A) greedy :
  (forall st (k' : mstate -> option A) x,
     run r st k' = Some x -> exists st', matches r st st' /\ k' st' = Some x) ->
  forall fuel lo hi st x,
    repeat_ (run r) k greedy fuel lo hi st = Some x ->
    exists st', matches (Rep greedy lo hi r) st st' /\ k st' = Some x.
Proof.
  intros Hr fuel. induction fuel as [| fuel IH]; intros lo hi st x H;
    [discriminate |].
  cbn [repeat_] in H.
  assert (Hcases :
    (if hi_zero hi then None
     else run r st (fun st' =>
            if (lo =? 0)%nat && (length (rest st') =? length (rest st))%nat
            then None
            else repeat_ (run r) k greedy fuel (Nat.pred lo) (dec_hi hi) st'))
    = Some x
    \/ (if (lo =? 0)%nat then k st else None) = Some x).
  { destruct greedy; apply or_else_Some in H; tauto. }
  clear H. destruct Hcases as [H | H].
  - destruct (hi_zero hi) eqn:Hhi; [discriminate |].
    apply Hr in H as (st1 & H1 & H).
    destruct (_ && _); [discriminate |].
    apply IH in H as (st2 & H2 & H).
    exists st2. split; [| done]. by eapply matches_Rep_again.
  - destruct (Nat.eqb_spec lo 0) as [-> | ?]; [| discriminate].
    exists st. split; [constructor | done].
Qed.

(** Soundness of the matcher: whatever [run] hands to its continuation is
    a state that the pattern can read to. *)
Lemma run_matches {A} (r : re) :
  forall st (k : mstate -> option A) x,
    run r st k = Some x -> exists st', matches r st st' /\ k st' = Some x.
Proof.
  induction r as [| p | r1 IH1 r2 IH2 | r1 IH1 r2 IH2 | g lo hi r1 IH | i r1 IH
                 | | |]; intros st k x H; cbn [run] in H.
  - exists st. split; [constructor | done].
  - destruct st as [q [| c s] cs]; cbn [rest caps] in H; [discriminate |].
    destruct (p c) eqn:E; [| discriminate].
    eexists. split; [by constructor | done].
  - apply IH1 in H as (st1 & H1 & H). apply IH2 in H as (st2 & H2 & H).
    exists st2. split; [by econstructor | done].
  - apply or_else_Some in H as [H | H].
    + apply IH1 in H as (st' & H1 & H). exists st'. split; [by constructor | done].
    + apply IH2 in H as (st' & H1 & H). exists st'.
      split; [by apply matches_Alt_r | done].
  - by apply repeat_matches in H.
  - apply IH in H as (st' & H1 & H). eexists. split; [by constructor | done].
  - destruct st as [[q |] s cs]; cbn [prev] in H; [discriminate |].
    eexists. split; [constructor | done].
  - destruct st as [q [| c s] cs]; cbn [rest] in H; [| discriminate].
    eexists. split; [constructor | done].
  - destruct (xorb _ _) eqn:E; [| discriminate].
    exists st. split; [by constructor | done].
Qed.

(** A pattern reads a prefix of the input that is left. *)
Lemma matches_read r st st' :
  matches r st st' ->
  exists w, rest st = (w ++ rest st')%list /\ prev st' = last_or (prev st) w.
Proof.
  induction 1 as [st | p q c s cs Hc | r1 r2 st st1 st2 _ IH1 _ IH2
                 | r1 r2 st st' _ IH | r1 r2 st st' _ IH
                 | g hi r st | g lo hi r st st1 st2 _ _ IH1 _ IH2
                 | i r st st' _ IH | s cs | q cs | st _].
  - by exists [].
  - by exists [c].
  - destruct IH1 as (w1 & E1 & P1), IH2 as (w2 & E2 & P2).
    exists (w1 ++ w2)%list. rewrite E1, E2, P2, P1, app_assoc. split; [done |].
    unfold last_or. rewrite last_app. by destruct (last w2).
  - done.
  - done.
  - by exists [].
  - destruct IH1 as (w1 & E1 & P1), IH2 as (w2 & E2 & P2).
    exists (w1 ++ w2)%list. rewrite E1, E2, P2, P1, app_assoc. split; [done |].
    unfold last_or. rewrite last_app. by destruct (last w2).
  - done.
  - by exists [].
  - by exists [].
  - by exists [].
Qed.

Lemma read_app w st st' : rest st = (w ++ rest st')%list -> read st st' = w.
Proof.
  intros E. unfold read. rewrite E, length_app.
  replace (length w + length (rest st') - length (rest st'))%nat
    with (length w) by lia.
  by rewrite take_app_length.
Qed.

End Matches.

Section MatchesInversion.

Import Regex.

Lemma last_or_app p w1 w2 : last_or (last_or p w1) w2 = last_or p (w1 ++ w2).
Proof. unfold last_or. rewrite last_app. by destruct (last w2). Qed.

(** A quantifier around a character class reads characters of the class,
    as many as its bounds allow, and sets no group. *)
Lemma matches_Rep_Chr g p lo hi st st' :
  matches (Rep g lo hi (Chr p)) st st' ->
  exists w,
    st' = MState (last_or (prev st) w) (rest st') (caps st)
    /\ rest st = (w ++ rest st')%list
    /\ Forall (fun c => p c = true) w
    /\ (lo <= length w)%nat
    /\ (forall n, hi = Some n -> (length w <= n)%nat).
Proof.
  intros H. remember (Rep g lo hi (Chr p)) as r eqn:E. revert lo hi E.
  induction H as [| | | | | g' hi' r' st
                 | g' lo' hi' r' st st1 st2 Hhi H1 _ H2 IH2 | | | |];
    intros lo hi E; try discriminate E.
  - injection E as -> <- <- ->. exists []. destruct st.
    repeat split; [constructor | simpl; lia | simpl; lia].
  - injection E as -> -> -> ->.
    destruct (IH2 _ _ eq_refl) as (w & E2 & Hrest & Hall & Hlo & Hbound).
    inversion H1 as [| p' q c s cs Hc | | | | | | | | |]; subst.
    cbn [rest prev caps] in *. exists (c :: w). rewrite last_or_cons.
    repeat split; [done | by rewrite Hrest | by constructor | simpl; lia |].
    intros n ->. destruct n as [| n]; [discriminate Hhi |].
    specialize (Hbound n eq_refl). simpl. lia.
Qed.

(** A literal text reads its own characters, or under the [i] flag
    characters that are the same up to case, and sets no group. *)
Lemma matches_str_with (f : ascii -> re) (Pf : ascii -> ascii -> bool) :
  (forall d, f d = Chr (Pf d)) ->
  forall (t : list ascii) st st',
    matches (foldr (fun c r => Seq (f c) r) Eps t) st st' ->
    exists w,
      st' = MState (last_or (prev st) w) (rest st') (caps st)
      /\ rest st = (w ++ rest st')%list
      /\ Forall2 (fun d c => Pf d c = true) t w.
Proof.
  intros Hf t. induction t as [| d t IH]; intros st st' H; cbn [foldr] in H.
  - inversion H; subst. exists []. destruct st'. repeat split; constructor.
  - inversion H as [| | r1 r2 st0 st1 st2 H1 H2 | | | | | | | |]; subst.
    rewrite Hf in H1.
    inversion H1 as [| p' q c s cs Hc | | | | | | | | |]; subst.
    apply IH in H2 as (w & E2 & Hrest & Hall). cbn [rest prev caps] in *.
    exists (c :: w). rewrite last_or_cons.
    repeat split; [done | by rewrite Hrest | by constructor].
Qed.

Lemma Forall2_same t w :
  Forall2 (fun d c => Char.same d c = true) t w -> w = t.
Proof.
  induction 1 as [| d c t w Hc _ IH]; [done |].
  apply Ascii.eqb_eq in Hc. by subst.
Qed.

Lemma matches_text (t : string) st st' :
  matches (text t) st st' ->
  st' = MState (last_or (prev st) (Js.chars t)) (rest st') (caps st)
  /\ rest st = (Js.chars t ++ rest st')%list.
Proof.
  intros H. apply (matches_str_with lit Char.same) in H as (w & E & Hrest & Hall);
    [| done].
  apply Forall2_same in Hall. by subst w.
Qed.

Lemma matches_text_ci (t : string) st st' :
  matches (text_ci t) st st' ->
  exists w,
    st' = MState (last_or (prev st) w) (rest st') (caps st)
    /\ rest st = (w ++ rest st')%list
    /\ Forall2 (fun d c => Char.is_ci d c = true) (Js.chars t) w.
Proof. by apply (matches_str_with lit_ci Char.is_ci). Qed.

(** One match: the text it read, what is left, and the state reached. *)
Lemma match_at_matches r p s m :
  match_at r p s = Some m ->
  exists st',
    matches r (MState p s []) st'
    /\ s = (whole m ++ after m)%list
    /\ after m = rest st'
    /\ groups m = caps st'.
Proof.
  unfold match_at. intros H. apply run_matches in H as (st' & H & [= <-]).
  exists st'. cbn [whole after groups]. repeat split; [done |].
  destruct (matches_read _ _ _ H) as (w & E & _). cbn [rest] in E.
  rewrite E at 3. rewrite E, length_app.
  replace (length w + length (rest st') - length (rest st'))%nat
    with (length w) by lia.
  by rewrite take_app_length.
Qed.

(** The first match of a search starts at some position of the input. *)
Lemma search_from_matches r s :
  forall p skipped b m,
    search_from r p s skipped = Some (b, m) ->
    exists pre s2,
      s = (pre ++ s2)%list /\ b = (rev skipped ++ pre)%list
      /\ match_at r (last_or p pre) s2 = Some m.
Proof.
  induction s as [| c s IH]; intros p skipped b m; cbn [search_from].
  - destruct (match_at r p []) as [m' |] eqn:E; [| discriminate].
    intros [= <- <-]. exists [], []. 
      split; [done | split; [by rewrite app_nil_r | exact E]].
  - destruct (match_at r p (c :: s)) as [m' |] eqn:E.
    + intros [= <- <-]. exists [], (c :: s). 
      split; [done | split; [by rewrite app_nil_r | exact E]].
    + intros H. apply IH in H as (pre & s2 & -> & -> & H).
      exists (c :: pre), s2. rewrite last_or_cons. cbn [rev].
      by rewrite <- app_assoc.
Qed.

Lemma search_from_None r s :
  forall p skipped,
    (forall pre s2, s = (pre ++ s2)%list ->
                    match_at r (last_or p pre) s2 = None) ->
    search_from r p s skipped = None.
Proof.
  induction s as [| c s IH]; intros p skipped H; cbn [search_from].
  - by rewrite (H [] [] eq_refl : match_at r p [] = None).
  - rewrite (H [] (c :: s) eq_refl : match_at r p (c :: s) = None). apply IH. intros pre s2 ->.
    rewrite <- (last_or_cons p). by apply H.
Qed.

(** The first of all the matches starts at some position of the input. *)
Lemma all_from_head r s :
  forall p w ws,
    all_from r p s 0 = w :: ws ->
    exists pre s2 m,
      s = (pre ++ s2)%list /\ match_at r (last_or p pre) s2 = Some m
      /\ whole m = w.
Proof.
  induction s as [| c s IH]; intros p w ws; cbn [all_from].
  - destruct (match_at r p []) as [m |] eqn:E; [| discriminate].
    intros [= <- <-]. exists [], [], m. split; [done | split; [exact E | done]].
  - destruct (match_at r p (c :: s)) as [m |] eqn:E.
    + intros [= <- <-]. exists [], (c :: s), m.
      split; [done | split; [exact E | done]].
    + intros H. apply IH in H as (pre & s2 & m & -> & H & <-).
      exists (c :: pre), s2, m. by rewrite last_or_cons.
Qed.

End MatchesInversion.

(** ** What [extractDOI] returns *)

Section DoiShape.

Import Regex.

Lemma matches_Seq_inv r1 r2 st st' :
  matches (Seq r1 r2) st st' ->
  exists st1, matches r1 st st1 /\ matches r2 st1 st'.
Proof. inversion 1; subst. eauto. Qed.

Lemma matches_Chr_inv p st st' :
  matches (Chr p) st st' ->
  exists c,
    st' = MState (Some c) (rest st') (caps st)
    /\ rest st = c :: rest st' /\ p c = true.
Proof. inversion 1; subst. cbn [rest caps]. eauto. Qed.

Lemma matches_Grp_inv i r st st' :
  matches (Grp i r) st st' ->
  exists st1,
    matches r st st1
    /\ st' = MState (prev st1) (rest st1) ((i, read st st1) :: caps st1).
Proof. inversion 1; subst. eauto. Qed.

Lemma matches_Bol_inv st st' : matches Bol st st' -> st' = st /\ prev st = None.
Proof. inversion 1; subst. done. Qed.

Lemma matches_Eol_inv st st' : matches Eol st st' -> st' = st /\ rest st = [].
Proof. inversion 1; subst. done. Qed.

Lemma matches_WordB_inv st st' : matches WordB st st' -> st' = st.
Proof. by inversion 1. Qed.

Lemma matches_doi_body st st' :
  matches re_doi_body st st' ->
  exists d,
    doi_shaped d /\ rest st = (d ++ rest st')%list
    /\ st' = MState (prev st') (rest st') (caps st).
Proof.
  unfold re_doi_body. cbn [seq]. intros H.
  apply matches_Seq_inv in H as (st1 & H1 & H).
  apply matches_Seq_inv in H as (st2 & H2 & H).
  apply matches_Seq_inv in H as (st3 & H3 & H4).
  apply matches_text in H1 as [E1 R1].
  apply matches_Rep_Chr in H2 as (digits & E2 & R2 & Hdigits & Hlen & _).
  apply matches_Chr_inv in H3 as (c & E3 & R3 & Hc).
  apply matches_Rep_Chr in H4 as (body & E4 & R4 & Hbody & Hne & _).
  apply same_eq in Hc. subst c.
  exists (Js.chars "10." ++ digits ++ "/"%char :: body)%list. split.
  - exists digits, body. repeat split; [done | done | |].
    + intros ->. simpl in Hne. lia.
    + eapply Forall_impl; [exact Hbody |]. intros c Hc. simpl in Hc.
      by apply negb_true_iff in Hc.
  - rewrite R1, R2, R3, R4, <- !app_assoc. split; [reflexivity |].
    apply (f_equal caps) in E1, E2, E3, E4. cbn [caps] in *.
    destruct st'. cbn [prev rest caps] in *. congruence.
Qed.

(** A match of a pattern that ends in the captured DOI body: the text of
    group 1 is the end of the match and has the shape of a DOI. *)
Lemma matches_doi_group st1 st' :
  matches (Grp 1 re_doi_body) st1 st' ->
  exists d,
    doi_shaped d /\ rest st1 = (d ++ rest st')%list
    /\ caps st' = (1%nat, d) :: caps st1.
Proof.
  intros H. apply matches_Grp_inv in H as (st2 & H & ->).
  apply matches_doi_body in H as (d & Hd & R & E).
  exists d. cbn [rest caps]. rewrite (read_app d) by done.
  rewrite E. done.
Qed.

Lemma standard_match p s m :
  match_at DOI_PATTERNS_standard p s = Some m ->
  doi_shaped (whole m) /\ s = (whole m ++ after m)%list.
Proof.
  intros H. apply match_at_matches in H as (st' & H & Hs & Ha & _).
  split; [| done].
  unfold DOI_PATTERNS_standard in H. cbn [seq] in H.
  apply matches_Seq_inv in H as (st1 & H1 & H).
  apply matches_WordB_inv in H1 as ->.
  apply matches_doi_group in H as (d & Hd & R & _). cbn [rest] in R.
  rewrite <- Ha, Hs in R. by apply app_inv_tail in R as ->.
Qed.

Lemma first_standard_match_shape (t w : string) :
  first_standard_match t = Some w ->
  doi_shaped (Js.chars w)
  /\ exists pre post, Js.chars t = (pre ++ Js.chars w ++ post)%list.
Proof.
  unfold first_standard_match, Js.match_g, match_all.
  destruct (all_from DOI_PATTERNS_standard None (Js.chars t) 0)
    as [| w0 ws] eqn:E; [discriminate |].
  cbn. intros [= <-]. rewrite chars_str.
  apply all_from_head in E as (pre & s2 & m & Ht & H & <-).
  apply standard_match in H as [Hd Hs].
  split; [done |]. exists pre, (after m). by rewrite Ht, Hs.
Qed.

Lemma doi_url_match (url : string) m :
  Js.exec SOURCE_PATTERNS_doi url = Some m ->
  exists d,
    Js.capture 1 m = Some (Js.str d) /\ doi_shaped d
    /\ exists pre post, Js.chars url = (pre ++ d ++ post)%list.
Proof.
  unfold Js.exec, search.
  destruct (search_from _ _ _ _) as [[b m'] |] eqn:E; [| discriminate].
  cbn. intros [= ->].
  apply search_from_matches in E as (pre & s2 & Hu & _ & H).
  apply match_at_matches in H as (st' & H & Hs & Ha & Hg).
  unfold SOURCE_PATTERNS_doi in H. cbn [seq] in H.
  apply matches_Seq_inv in H as (st1 & H1 & H).
  apply matches_text_ci in H1 as (w & E1 & R1 & _). cbn [rest prev caps] in *.
  apply matches_doi_group in H as (d & Hd & R & Hc).
  rewrite E1 in Hc. cbn [caps] in Hc.
  exists d. split; [| split; [done |]].
  - unfold Js.capture, group. rewrite Hg, Hc. reflexivity.
  - exists (pre ++ w)%list, (rest st'). by rewrite Hu, R1, R, <- app_assoc.
Qed.

(** Neither marker of [cleanDOI] is found in a text that starts with a
    character the marker does not start with. *)
Lemma match_at_Bol r s p :
  (exists m, match_at (Seq Bol r) p s = Some m) ->
  p = None /\ exists st', matches r (MState None s []) st'.
Proof.
  intros [m H]. apply match_at_matches in H as (st' & H & _).
  apply matches_Seq_inv in H as (st1 & H1 & H).
  apply matches_Bol_inv in H1 as [-> Hp]. cbn [prev] in Hp. subst p. eauto.
Qed.

Lemma last_or_None pre : last_or None pre = None -> pre = [].
Proof.
  unfold last_or. destruct (last pre) eqn:E; [discriminate |].
  intros _. by apply last_None in E.
Qed.

Lemma replace_Bol_first P r (by_ s : string) c s' :
  first_char P r -> Js.chars s = c :: s' -> P c = false ->
  Js.replace (Seq Bol r) by_ s = s.
Proof.
  intros Hr Hs Hc. unfold Js.replace, replace_first, search.
  rewrite search_from_None; [apply str_chars |].
  intros pre s2 E.
  destruct (match_at _ _ _) as [m |] eqn:Hm; [| done]. exfalso.
  destruct (match_at_Bol r s2 (last_or None pre)) as [Hp [st' H]]; [eauto |].
  apply last_or_None in Hp. subst pre. cbn [app] in E. subst s2.
  apply Hr in H as (c' & s'' & R & Hc'). cbn [rest] in R.
  rewrite Hs in R. injection R as <- _. congruence.
Qed.

Lemma first_char_text_ci (t : string) d t' r :
  Js.chars t = d :: t' -> first_char (Char.is_ci d) (Seq (text_ci t) r).
Proof.
  intros Ht st st' H. apply matches_Seq_inv in H as (st1 & H & _).
  apply matches_text_ci in H as (w & _ & R & Hall). rewrite Ht in Hall.
  inversion Hall as [| d' c t'' w' Hc _]; subst. rewrite R. cbn. eauto.
Qed.

Lemma trim_clean (s : string) :
  starts_clean (Js.chars s) -> starts_clean (rev (Js.chars s)) -> Js.trim s = s.
Proof.
  intros H1 H2. rewrite trim_trim_chars. unfold trim_chars.
  rewrite (drop_spaces_id _ H1), (drop_spaces_id _ H2), rev_involutive.
  apply str_chars.
Qed.

(** [cleanDOI] changes nothing in a text of the shape of a DOI. *)
Lemma cleanDOI_doi_shaped (d : string) :
  doi_shaped (Js.chars d) -> cleanDOI d = d.
Proof.
  intros (digits & body & E & _ & _ & Hne & Hbody). unfold cleanDOI.
  unfold re_doi_marker, re_doi_resolver. cbn [seq].
  rewrite (replace_Bol_first (Char.is_ci "d") _ _ d "1"%char _
             (first_char_text_ci "doi" _ _ _ eq_refl) E eq_refl).
  rewrite (replace_Bol_first (Char.is_ci "h") _ _ d "1"%char _
             (first_char_text_ci "http" _ _ _ eq_refl) E eq_refl).
  apply trim_clean; rewrite E; [reflexivity |].
  destruct (exists_last Hne) as (body' & c & ->).
  apply Forall_app in Hbody as [_ Hc]. inversion Hc; subst.
  change ("/"%char :: body' ++ [c])%list with (("/"%char :: body') ++ [c])%list.
  rewrite !app_assoc, rev_app_distr. done.
Qed.

Lemma starts_with_app (t post : list ascii) : Js.starts_with t (t ++ post) = true.
Proof.
  induction t as [| c t IH]; [by destruct post |].
  cbn. by rewrite Ascii.eqb_refl, IH.
Qed.

Lemma includes_chars_app (pre t post : list ascii) :
  Js.includes_chars (pre ++ t ++ post) t = true.
Proof.
  induction pre as [| c pre IH].
  - cbn [app]. destruct (t ++ post)%list eqn:E; cbn [Js.includes_chars];
      rewrite <- E, starts_with_app; reflexivity.
  - cbn [app Js.includes_chars]. rewrite IH. apply orb_true_r.
Qed.

Lemma text_of_Some v t : text_of v = Some t -> v = VStr t.
Proof.
  unfold text_of. destruct v; try discriminate.
  destruct (String.eqb _ _); [discriminate |]. by intros [= ->].
Qed.

Lemma extractDOI_url_match (url d : string) :
  extractDOI_url url = Some d ->
  exists w : string,
    cleanDOI w = d /\ doi_shaped (Js.chars w)
    /\ exists pre post, Js.chars url = (pre ++ Js.chars w ++ post)%list.
Proof.
  unfold extractDOI_url.
  destruct (Js.exec SOURCE_PATTERNS_doi url) as [m |] eqn:Em.
  - apply doi_url_match in Em as (w & -> & Hw & Hin). cbn. intros [= H].
    exists (Js.str w). by rewrite chars_str.
  - destruct (Js.match_g DOI_PATTERNS_standard url) as [ms |] eqn:Ems;
      [| discriminate].
    assert (Ew : first_standard_match url = ms !! 0%nat).
    { unfold first_standard_match. rewrite Ems. by destruct ms. }
    destruct (ms !! 0%nat) as [w |]; [| discriminate].
    cbn. intros [= H]. apply first_standard_match_shape in Ew as [Hw Hin].
    by exists w.
Qed.

End DoiShape.

(** ** The video id *)

Section VideoId.

Import Regex.

Lemma matches_Alt_inv r1 r2 st st' :
  matches (Alt r1 r2) st st' -> matches r1 st st' \/ matches r2 st st'.
Proof. inversion 1; subst; eauto. Qed.

Lemma matches_video_id st st' :
  matches re_video_id st st' ->
  exists w,
    rest st = (w ++ rest st')%list
    /\ video_id (Js.str w) = true
    /\ caps st' = (1%nat, w) :: caps st.
Proof.
  unfold re_video_id, exactly. intros H.
  apply matches_Grp_inv in H as (st1 & H & ->).
  apply matches_Rep_Chr in H as (w & E & R & Hall & Hlo & Hhi).
  specialize (Hhi _ eq_refl).
  exists w. cbn [rest caps]. rewrite (read_app w) by done.
  split; [done |]. split.
  - unfold video_id. rewrite chars_str.
    apply andb_true_iff. split; [apply Nat.eqb_eq; lia |].
    apply forallb_forall. intros c Hc. rewrite Forall_forall in Hall.
    apply Hall. by apply list_elem_of_In.
  - by rewrite E.
Qed.

(** Where one of the three patterns matches, group 1 holds a video id, and
    the id is part of the text. *)
Lemma youtube_match r (t : string) m :
  r ∈ youtube_patterns -> Js.exec r t = Some m ->
  video_id (cap 1 m) = true /\ Js.includes t (cap 1 m) = true.
Proof.
  intros Hr. unfold Js.exec, search.
  destruct (search_from _ _ _ _) as [[b m'] |] eqn:E; [| discriminate].
  cbn. intros [= ->].
  apply search_from_matches in E as (pre & s2 & Ht & _ & H).
  apply match_at_matches in H as (st' & H & _ & _ & Hg).
  assert (Hid : exists pre' w,
    rest (MState (last_or None pre) s2 []) = (pre' ++ w ++ rest st')%list
    /\ video_id (Js.str w) = true /\ caps st' = [(1%nat, w)]).
  { unfold youtube_patterns in Hr.
    repeat (apply elem_of_cons in Hr as [-> | Hr]); [| | | by apply elem_of_nil in Hr].
    - unfold youtube_watch in H. cbn [seq] in H.
      apply matches_Seq_inv in H as (st1 & H1 & H).
      apply matches_video_id in H as (w & R & Hw & Hc).
      apply matches_Alt_inv in H1 as [H1 | H1];
        apply matches_text in H1 as [E1 R1];
        eexists _, w; rewrite R1, R, Hc, E1; done.
    - unfold youtube_embed in H. cbn [seq] in H.
      apply matches_Seq_inv in H as (st1 & H1 & H).
      apply matches_video_id in H as (w & R & Hw & Hc).
      apply matches_text in H1 as [E1 R1].
      eexists _, w. rewrite R1, R, Hc, E1. done.
    - unfold youtube_bare in H. cbn [seq] in H.
      apply matches_Seq_inv in H as (st1 & H1 & H).
      apply matches_Seq_inv in H as (st2 & H & H2).
      apply matches_Bol_inv in H1 as [-> _].
      apply matches_Eol_inv in H2 as [-> _].
      apply matches_video_id in H as (w & R & Hw & Hc).
      exists [], w. rewrite R, Hc. done. }
  destruct Hid as (pre' & w & R & Hw & Hc). cbn [rest] in R.
  assert (Ecap : cap 1 m = Js.str w).
  { unfold cap, Js.capture, group. rewrite Hg, Hc. reflexivity. }
  rewrite Ecap. split; [done |].
  unfold Js.includes. rewrite Ht, R, chars_str, app_assoc.
  apply includes_chars_app.
Qed.

Lemma first_matching_elem patterns (t : string) m :
  first_matching patterns t = Some m ->
  exists r, r ∈ patterns /\ Js.exec r t = Some m.
Proof.
  induction patterns as [| r patterns IH]; cbn [first_matching]; [discriminate |].
  destruct (Js.exec r t) as [m' |] eqn:E.
  - intros [= ->]. exists r. split; [apply elem_of_cons; by left | done].
  - intros H. apply IH in H as (r' & Hr' & H). exists r'.
    split; [apply elem_of_cons; by right | done].
Qed.

Lemma truthy_string_Some v (t : string) :
  truthy_string v = Returned (Some t) -> v = VStr t.
Proof.
  unfold truthy_string.
  destruct v as [| | b | q | s | l]; try (destruct (truthy _); discriminate).
  destruct (String.eqb s ""); [discriminate |]. by intros [= ->].
Qed.

(** X13. Whatever [extractYoutubeId] returns is eleven characters of the
    class [[a-zA-Z0-9_-]] that stand in the text it was given. *)
Theorem extractYoutubeId_shape (text : val) (id : string) :
  extractYoutubeId text = Returned (Some id) ->
  video_id id = true
  /\ exists t, text = VStr t /\ Js.includes t id = true.
Proof.
  unfold extractYoutubeId. intros H.
  destruct (truthy_string text) as [[t |] | e] eqn:Et;
    cbn [mbind outcome_bind option_bind] in H; try discriminate H.
  apply truthy_string_Some in Et as ->.
  destruct (first_matching youtube_patterns t) as [m |] eqn:E;
    cbn [fmap option_fmap option_map] in H; [| discriminate H].
  injection H as <-.
  apply first_matching_elem in E as (r & Hr & E).
  destruct (youtube_match r t m Hr E) as [Hid Hin]. eauto.
Qed.

End VideoId.

Section VideoIdRoundTrip.

Import Regex.

Lemma or_else_None_r {A} (x : option A) : or_else x None = x.
Proof. by destruct x. Qed.

(** A quantifier [{n}] around a character class reads the next [n]
    characters when they are of the class. *)
Lemma repeat_exact {A} p (k : mstate -> option A) (w : list ascii) :
  forall fuel q s cs,
    Forall (fun c => p c = true) w -> (length w < fuel)%nat ->
    repeat_ (run (Chr p)) k true fuel (length w) (Some (length w))
      (MState q (w ++ s) cs)
    = k (MState (last_or q w) s cs).
Proof.
  induction w as [| c w IH]; intros fuel q s cs Hall Hfuel;
    (destruct fuel as [| fuel]; [simpl in Hfuel; lia |]).
  - reflexivity.
  - inversion Hall as [| c' w' Hc Hw]; subst.
    cbn [repeat_ length hi_zero Nat.eqb andb app run rest caps].
    rewrite Hc, or_else_None_r. cbn [Nat.pred dec_hi].
    rewrite IH by (simpl in Hfuel; done || lia). by rewrite last_or_cons.
Qed.

Lemma run_Grp {A} i r st (k : mstate -> option A) :
  run (Grp i r) st k
  = run r st (fun st' =>
      k (MState (prev st') (rest st')
           ((i, take (length (rest st) - length (rest st')) (rest st))
              :: caps st'))).
Proof. reflexivity. Qed.

Lemma run_Rep {A} greedy lo hi r st (k : mstate -> option A) :
  run (Rep greedy lo hi r) st k
  = repeat_ (run r) k greedy (S (lo + length (rest st))) lo hi st.
Proof. reflexivity. Qed.

Lemma repeat_exact_end {A} p (k : mstate -> option A) (w : list ascii) n fuel q cs :
  Forall (fun c => p c = true) w -> n = length w -> (n < fuel)%nat ->
  repeat_ (run (Chr p)) k true fuel n (Some n) (MState q w cs)
  = k (MState (last_or q w) [] cs).
Proof.
  intros Hall -> Hfuel.
  pose proof (repeat_exact p k w fuel q [] cs Hall Hfuel) as E.
  by rewrite app_nil_r in E.
Qed.

Lemma run_video_id {A} (k : mstate -> option A) (id : string) q cs :
  video_id id = true ->
  run re_video_id (MState q (Js.chars id) cs) k
  = k (MState (last_or q (Js.chars id)) [] ((1%nat, Js.chars id) :: cs)).
Proof.
  unfold video_id. intros H. apply andb_true_iff in H as [Hlen Hall].
  apply Nat.eqb_eq in Hlen.
  assert (Hall' : Forall (fun c => id_char c = true) (Js.chars id)).
  { apply Forall_forall. intros c Hc. rewrite forallb_forall in Hall.
    apply Hall. by apply list_elem_of_In. }
  unfold re_video_id, exactly. rewrite run_Grp, run_Rep.
  rewrite repeat_exact_end by (done || lia).
  cbn [prev rest caps length]. by rewrite Nat.sub_0_r, firstn_all.
Qed.

(** A literal text reads itself. *)
Lemma run_text {A} (k : mstate -> option A) (t : list ascii) :
  forall q s cs,
    run (foldr (fun c r => Seq (lit c) r) Eps t) (MState q (t ++ s) cs) k
    = k (MState (last_or q t) s cs).
Proof.
  induction t as [| c t IH]; intros q s cs; [reflexivity |].
  cbn [foldr app]. rewrite run_Seq. unfold lit at 1. cbn [run rest caps].
  unfold Char.same at 1. rewrite Ascii.eqb_refl, IH. by rewrite last_or_cons.
Qed.

Lemma search_from_here r p s skipped m :
  match_at r p s = Some m -> search_from r p s skipped = Some (rev skipped, m).
Proof. intros H. destruct s; cbn [search_from]; by rewrite H. Qed.

(** A pattern does not match where the text starts with a character that
    the pattern cannot start with. *)
Lemma match_at_first_char P r p c s :
  first_char P r -> P c = false -> match_at r p (c :: s) = None.
Proof.
  intros Hr Hc. destruct (match_at r p (c :: s)) as [m |] eqn:E; [| done].
  apply match_at_matches in E as (st' & H & _).
  apply Hr in H as (c' & s' & [= <- _] & Hc'). congruence.
Qed.

Lemma search_from_skip P r (pre : list ascii) :
  first_char P r ->
  forall p s skipped,
    Forall (fun c => P c = false) pre ->
    search_from r p (pre ++ s) skipped
    = search_from r (last_or p pre) s (rev pre ++ skipped).
Proof.
  intros Hr. induction pre as [| c pre IH]; intros p s skipped Hall;
    [reflexivity |].
  inversion Hall as [| c' pre' Hc Hpre]; subst.
  cbn [app search_from]. rewrite (match_at_first_char P) by done.
  rewrite IH by done. rewrite last_or_cons. cbn [rev]. by rewrite <- app_assoc.
Qed.

Lemma first_char_text (t : string) d t' r :
  Js.chars t = d :: t' -> first_char (Char.same d) (Seq (text t) r).
Proof.
  intros Ht st st' H. apply matches_Seq_inv in H as (st1 & H & _).
  apply matches_text in H as [_ R]. rewrite R, Ht. cbn.
  exists d, (t' ++ rest st1)%list. unfold Char.same. by rewrite Ascii.eqb_refl.
Qed.

Lemma first_char_youtube_watch : first_char (Char.same "y") youtube_watch.
Proof.
  intros st st' H. unfold youtube_watch in H. cbn [seq] in H.
  apply matches_Seq_inv in H as (st1 & H & _).
  apply matches_Alt_inv in H as [H | H]; apply matches_text in H as [_ R];
    rewrite R; cbn; eauto.
Qed.

(** The first two patterns do not match in a video id: they need a
    character that is not of its class. *)
Lemma exec_video_id r (id : string) :
  (forall st st', matches r st st' ->
     exists t s, rest st = (t ++ s)%list /\ forallb id_char t = false) ->
  video_id id = true ->
  Js.exec r id = None.
Proof.
  intros Hr Hid. unfold Js.exec, search. rewrite search_from_None; [done |].
  intros pre s2 E. destruct (match_at r _ s2) as [m |] eqn:Em; [| done].
  exfalso. apply match_at_matches in Em as (st' & H & _).
  apply Hr in H as (t & s & R & Ht). cbn [rest] in R. subst s2.
  unfold video_id in Hid. apply andb_true_iff in Hid as [_ Hall].
  rewrite E, !forallb_app in Hall.
  apply andb_true_iff in Hall as [_ Hall].
  apply andb_true_iff in Hall as [Hall _]. congruence.
Qed.

(** X14. A video id is read back from the url that [enrichYoutube] writes
    for it, and from the id alone. *)
Theorem extractYoutubeId_round_trip (id : string) :
  video_id id = true ->
  extractYoutubeId (VStr (watch_url id)) = Returned (Some id)
  /\ extractYoutubeId (VStr id) = Returned (Some id).
Proof.
  intros Hid.
  assert (Hne : String.eqb id "" = false).
  { destruct id; [discriminate Hid | reflexivity]. }
  split.
  - unfold extractYoutubeId, truthy_string, watch_url.
    change (String.eqb _ "") with false.
    cbn [mbind outcome_bind option_bind]. f_equal.
    unfold youtube_patterns. cbn [first_matching].
    assert (E : Js.exec youtube_watch ("https://youtube.com/watch?v=" ++ id)
                = Some (Found (Js.chars "youtube.com/watch?v=" ++ Js.chars id)
                          [(1%nat, Js.chars id)] [])).
    { unfold Js.exec, search.
      change (Js.chars ("https://youtube.com/watch?v=" ++ id))
        with (Js.chars "https://" ++ Js.chars "youtube.com/watch?v=" ++ Js.chars id)%list.
      rewrite (search_from_skip (Char.same "y") _ _ first_char_youtube_watch)
        by (repeat constructor).
      erewrite search_from_here; [reflexivity |].
      unfold match_at, youtube_watch. cbn [seq run].
      unfold text at 1, str_with.
      rewrite run_text, run_video_id by done.
      cbn [or_else rest caps length]. rewrite Nat.sub_0_r, firstn_all. done. }
    rewrite E. cbn. by rewrite str_chars.
  - unfold extractYoutubeId, truthy_string. rewrite Hne.
    cbn [mbind outcome_bind option_bind]. f_equal.
    unfold youtube_patterns. cbn [first_matching].
    rewrite (exec_video_id youtube_watch id), (exec_video_id youtube_embed id);
      [| | done | | done].
    + assert (E : Js.exec youtube_bare id
                  = Some (Found (Js.chars id) [(1%nat, Js.chars id)] [])).
      { unfold Js.exec, search.
        erewrite search_from_here; [reflexivity |].
        unfold match_at, youtube_bare. cbn [seq run prev].
        rewrite run_video_id by done.
        cbn [rest caps length]. rewrite Nat.sub_0_r, firstn_all. done. }
      rewrite E. cbn. by rewrite str_chars.
    + intros st st' H. unfold youtube_embed in H. cbn [seq] in H.
      apply matches_Seq_inv in H as (st1 & H & _).
      apply matches_text in H as [_ R]. rewrite R. eauto.
    + intros st st' H. unfold youtube_watch in H. cbn [seq] in H.
      apply matches_Seq_inv in H as (st1 & H & _).
      apply matches_Alt_inv in H as [H | H]; apply matches_text in H as [_ R];
        rewrite R; eauto.
Qed.

End VideoIdRoundTrip.

(** ** The filename parser: the year *)

Section FilenameYear.

Import Regex.

Lemma matches_groupless r st st' :
  matches r st st' -> groupless r = true -> caps st' = caps st.
Proof.
  induction 1 as [st | p q c s cs Hc | r1 r2 st st1 st2 _ IH1 _ IH2
                 | r1 r2 st st' _ IH | r1 r2 st st' _ IH
                 | g hi r st | g lo hi r st st1 st2 _ _ IH1 _ IH2
                 | i r st st' _ IH | s cs | q cs | st _];
    cbn [groupless]; intros Hg; try done.
  - apply andb_true_iff in Hg as [Hg1 Hg2]. by rewrite IH2, IH1.
  - apply andb_true_iff in Hg as [Hg1 Hg2]. by apply IH.
  - apply andb_true_iff in Hg as [Hg1 Hg2]. by apply IH.
  - by rewrite IH2, IH1.
Qed.

Lemma reads_year_Grp : reads_year (Grp 2 year4).
Proof.
  intros st st' H. apply matches_Grp_inv in H as (st1 & H & ->).
  unfold year4, exactly, digit in H.
  apply matches_Rep_Chr in H as (w & E & R & Hall & Hlo & Hhi).
  specialize (Hhi _ eq_refl).
  exists [], w, (rest st1), (caps st1). cbn [rest caps app].
  rewrite (read_app w) by done. repeat split; [done | lia | done].
Qed.

Lemma reads_year_Seq_r r1 r2 : reads_year r2 -> reads_year (Seq r1 r2).
Proof.
  intros H2 st st' H. apply matches_Seq_inv in H as (st1 & H1 & H).
  apply H2 in H as (pre & w & post & cs & R & Hc & Hw).
  apply matches_read in H1 as (w1 & R1 & _).
  exists (w1 ++ pre)%list, w, post, cs. by rewrite R1, R, <- app_assoc.
Qed.

Lemma reads_year_Seq_l r1 r2 :
  reads_year r1 -> groupless r2 = true -> reads_year (Seq r1 r2).
Proof.
  intros H1 Hg st st' H. apply matches_Seq_inv in H as (st1 & H & H2).
  apply H1 in H as (pre & w & post & cs & R & Hc & Hw).
  exists pre, w, post, cs. by rewrite (matches_groupless _ _ _ H2 Hg).
Qed.

Lemma reads_year_exec r (title : string) m :
  reads_year r -> Js.exec r title = Some m ->
  exists w,
    cap 2 m = Js.str w /\ length w = 4%nat
    /\ Forall (fun c => Char.is_digit c = true) w
    /\ Js.includes title (Js.str w) = true.
Proof.
  intros Hr. unfold Js.exec, search.
  destruct (search_from _ _ _ _) as [[b m'] |] eqn:E; [| discriminate].
  cbn. intros [= ->].
  apply search_from_matches in E as (pre0 & s2 & Ht & _ & H).
  apply match_at_matches in H as (st' & H & _ & _ & Hg).
  apply Hr in H as (pre & w & post & cs & R & Hc & Hlen & Hall).
  cbn [rest] in R. exists w. repeat split; [| done | done |].
  - unfold cap, Js.capture, group. rewrite Hg, Hc. reflexivity.
  - unfold Js.includes. rewrite Ht, R, chars_str, app_assoc.
    apply includes_chars_app.
Qed.

Lemma digit_value c :
  Char.is_digit c = true -> (0 <= Z.of_nat (Char.code c - 48) <= 9)%Z.
Proof.
  unfold Char.is_digit, Char.in_range. intros H.
  apply andb_true_iff in H as [H1 H2].
  apply Nat.leb_le in H1, H2. lia.
Qed.

(** [parseInt] on four digits. *)
Lemma parseInt_year (w : list ascii) :
  length w = 4%nat -> Forall (fun c => Char.is_digit c = true) w ->
  (0 <= parseInt (Js.str w) <= 9999)%Z.
Proof.
  intros Hlen Hall. unfold parseInt. rewrite chars_str.
  destruct w as [| a [| b [| c [| d [| e w]]]]]; try discriminate Hlen.
  inversion Hall as [| ? ? Ha Hall1]; subst.
  inversion Hall1 as [| ? ? Hb Hall2]; subst.
  inversion Hall2 as [| ? ? Hc Hall3]; subst.
  inversion Hall3 as [| ? ? Hd _]; subst.
  apply digit_value in Ha, Hb, Hc, Hd. cbn [foldl]. lia.
Qed.

Lemma trim_idem (s : string) : Js.trim (Js.trim s) = Js.trim s.
Proof. by rewrite !trim_trim_chars, chars_str, trim_chars_idem. Qed.

Lemma reads_year_pattern1 : reads_year pattern1.
Proof.
  unfold pattern1. cbn [seq].
  do 10 apply reads_year_Seq_r. apply reads_year_Grp.
Qed.

Lemma reads_year_pattern2 : reads_year pattern2.
Proof.
  unfold pattern2. cbn [seq].
  do 4 apply reads_year_Seq_r.
  apply reads_year_Seq_l; [apply reads_year_Grp | reflexivity].
Qed.

Lemma reads_year_pattern3 : reads_year pattern3.
Proof.
  unfold pattern3. cbn [seq].
  do 5 apply reads_year_Seq_r. apply reads_year_Grp.
Qed.

Lemma reads_year_pattern4 : reads_year pattern4.
Proof.
  unfold pattern4. cbn [seq].
  do 3 apply reads_year_Seq_r.
  apply reads_year_Seq_l; [apply reads_year_Grp | reflexivity].
Qed.

(** X15. [parseFilenameMetadata] finds an author and a year together or
    not at all; the year is the number, between 0 and 9999, that four
    digits standing in the title spell, and the author has no white space
    at its ends. *)
Theorem parseFilenameMetadata_year (title : string) :
  parseFilenameMetadata title = Parsed None None
  \/ exists (a : string) (digits : list ascii),
       parseFilenameMetadata title
       = Parsed (Some a) (Some (parseInt (Js.str digits)))
       /\ length digits = 4%nat
       /\ Forall (fun c => Char.is_digit c = true) digits
       /\ Js.includes title (Js.str digits) = true
       /\ (0 <= parseInt (Js.str digits) <= 9999)%Z
       /\ Js.trim a = a.
Proof.
  assert (Hfound : forall r m (a : string),
    reads_year r -> Js.exec r title = Some m ->
    exists (a' : string) (digits : list ascii),
      Parsed (Some (Js.trim a)) (Some (parseInt (cap 2 m)))
      = Parsed (Some a') (Some (parseInt (Js.str digits)))
      /\ length digits = 4%nat
      /\ Forall (fun c => Char.is_digit c = true) digits
      /\ Js.includes title (Js.str digits) = true
      /\ (0 <= parseInt (Js.str digits) <= 9999)%Z
      /\ Js.trim a' = a').
  { intros r m a Hr Hm.
    destruct (reads_year_exec r title m Hr Hm) as (w & -> & Hlen & Hall & Hin).
    exists (Js.trim a), w.
    repeat split; [done | done | done | by apply parseInt_year
                  | by apply parseInt_year | apply trim_idem]. }
  unfold parseFilenameMetadata.
  destruct (Js.exec pattern1 title) as [m1 |] eqn:E1;
    [right; exact (Hfound pattern1 _ _ reads_year_pattern1 E1) |].
  destruct (Js.exec pattern2 title) as [m2 |] eqn:E2;
    [right; exact (Hfound pattern2 _ _ reads_year_pattern2 E2) |].
  destruct (Js.exec pattern3 title) as [m3 |] eqn:E3;
    [right; exact (Hfound pattern3 _ _ reads_year_pattern3 E3) |].
  destruct (Js.exec pattern4 title) as [m4 |] eqn:E4;
    [right; exact (Hfound pattern4 _ _ reads_year_pattern4 E4) |].
  by left.
Qed.

End FilenameYear.

(** An identifier is taken from the url when the title holds none, and is
    cut at the first white space only. *)
Example extractDOI_from_a_link :
  extractDOI {[ "title" := VStr "Notes"; "url" := VStr "https://doi.org/10.1000/182?x=1" ]}
  = Returned (Some "10.1000/182?x=1").
Proof. vm_compute. reflexivity. Qed.

Lemma extractYoutubeId_shape_witness :
  extractYoutubeId video_link = Returned (Some "dQw4w9WgXcQ")
  /\ video_id "dQw4w9WgXcQ" = true
  /\ exists t, video_link = VStr t /\ Js.includes t "dQw4w9WgXcQ" = true.
Proof.
  assert (H : extractYoutubeId video_link = Returned (Some "dQw4w9WgXcQ"))
    by (vm_compute; reflexivity).
  split; [exact H |]. exact (extractYoutubeId_shape video_link _ H).
Defined.

Lemma extractYoutubeId_round_trip_witness :
  video_id "dQw4w9WgXcQ" = true
  /\ extractYoutubeId (VStr (watch_url "dQw4w9WgXcQ")) = Returned (Some "dQw4w9WgXcQ")
  /\ extractYoutubeId (VStr "dQw4w9WgXcQ") = Returned (Some "dQw4w9WgXcQ").
Proof.
  assert (H : video_id "dQw4w9WgXcQ" = true) by (vm_compute; reflexivity).
  split; [exact H |]. exact (extractYoutubeId_round_trip _ H).
Defined.

(** The patterns are case-sensitive and want eleven characters: a longer
    run is cut, a shorter one gives nothing, and a value that is no string
    is silently passed over only when it is falsy. *)
Example extractYoutubeId_edges :
  extractYoutubeId (VStr "https://YouTube.com/watch?v=dQw4w9WgXcQ") = Returned None
  /\ extractYoutubeId (VStr "https://youtu.be/dQw4w9WgXcQxyz") = Returned (Some "dQw4w9WgXcQ")
  /\ extractYoutubeId (VStr "https://youtu.be/short") = Returned None
  /\ extractYoutubeId VUndef = Returned None
  /\ extractYoutubeId (VNum 5) = Thrown type_error.
Proof. repeat split; vm_compute; reflexivity. Qed.

Example parseFilenameMetadata_years :
  parseFilenameMetadata "Smith et al - 2024 - Title.pdf" = Parsed (Some "Smith") (Some 2024%Z)
  /\ parseFilenameMetadata "Smith et al - 20245 - Title.pdf" = Parsed (Some "Smith") (Some 2024%Z)
  /\ parseFilenameMetadata "Lecture notes" = Parsed None None.
Proof. repeat split; vm_compute; reflexivity. Qed.

(** ** Links to videos go to the video chain *)

Section VideoRouting.

Import Regex.

Lemma includes_lower (pre post : list ascii) (s t : string) :
  Js.chars s = (pre ++ Js.chars t ++ post)%list ->
  map Char.lower (Js.chars t) = Js.chars t ->
  Js.includes (Js.toLowerCase s) t = true.
Proof.
  intros Hs Ht. unfold Js.includes, Js.toLowerCase.
  rewrite chars_str, Hs, !map_app, Ht. apply includes_chars_app.
Qed.

(** Where the watch or the embed pattern matches, the text names one of the
    two hosts; where the bare pattern matches, the text is the id. *)
Lemma youtube_match_host r (t : string) m :
  r ∈ youtube_patterns -> Js.exec r t = Some m ->
  Js.includes (Js.toLowerCase t) "youtube.com" = true
  \/ Js.includes (Js.toLowerCase t) "youtu.be" = true
  \/ cap 1 m = t.
Proof.
  intros Hr. unfold Js.exec, search.
  destruct (search_from _ _ _ _) as [[b m'] |] eqn:E; [| discriminate].
  cbn. intros [= ->].
  apply search_from_matches in E as (pre & s2 & Ht & _ & Hm).
  apply match_at_matches in Hm as (st' & H & _ & _ & Hg).
  unfold youtube_patterns in Hr.
  repeat (apply elem_of_cons in Hr as [-> | Hr]); [| | | by apply elem_of_nil in Hr].
  - unfold youtube_watch in H. cbn [seq] in H.
    apply matches_Seq_inv in H as (st1 & H1 & _).
    apply matches_Alt_inv in H1 as [H1 | H1];
      apply matches_text in H1 as [_ R1]; cbn [rest] in R1; subst s2.
    + left.
      apply (includes_lower pre (Js.chars "/watch?v=" ++ rest st1));
        [by rewrite Ht | reflexivity].
    + right. left.
      apply (includes_lower pre (Js.chars "/" ++ rest st1));
        [by rewrite Ht | reflexivity].
  - unfold youtube_embed in H. cbn [seq] in H.
    apply matches_Seq_inv in H as (st1 & H1 & _).
    apply matches_text in H1 as [_ R1]. cbn [rest] in R1. subst s2.
    left.
    apply (includes_lower pre (Js.chars "/embed/" ++ rest st1));
      [by rewrite Ht | reflexivity].
  - right. right. unfold youtube_bare in H. cbn [seq] in H.
    apply matches_Seq_inv in H as (st1 & H1 & H).
    apply matches_Seq_inv in H as (st2 & H & H2).
    apply matches_Bol_inv in H1 as [-> Hp]. cbn [prev] in Hp.
    apply last_or_None in Hp. subst pre. cbn [app] in Ht. subst s2.
    apply matches_Eol_inv in H2 as [-> He].
    apply matches_video_id in H as (w & R & _ & Hc). cbn [rest] in R.
    rewrite He, app_nil_r in R.
    unfold cap, Js.capture, group. rewrite Hg, Hc. cbn.
    by rewrite <- R, str_chars.
Qed.

(** X16. A record whose url is a link from which [extractYoutubeId] reads
    a video id (and is not the bare id) is typed "youtube", whatever its
    title, so [enrichSource] hands every such link to [enrichYoutube]. *)
Theorem video_links_are_routed (P : Providers) (source : obj) (id : string) :
  has_title source ->
  extractYoutubeId (get source "url") = Returned (Some id) ->
  get source "url" <> VStr id ->
  detectSourceType source = Returned "youtube"
  /\ enrichByType P source = enrichYoutube P source.
Proof.
  intros [t Ht] Hid Hne.
  assert (Htype : detectSourceType source = Returned "youtube").
  { unfold extractYoutubeId in Hid.
    destruct (truthy_string (get source "url")) as [[url |] | e] eqn:Eu;
      cbn [mbind outcome_bind option_bind] in Hid; try discriminate Hid.
    apply truthy_string_Some in Eu.
    destruct (first_matching youtube_patterns url) as [m |] eqn:E;
      cbn [fmap option_fmap option_map] in Hid; [| discriminate Hid].
    injection Hid as Hid.
    apply first_matching_elem in E as (r & Hr & E).
    unfold detectSourceType. rewrite Ht, Eu.
    cbn [as_string url_lower mbind outcome_bind].
    destruct (youtube_match_host r url m Hr E) as [H | [H | H]].
    - by rewrite H, orb_true_r.
    - by rewrite H, orb_true_r.
    - exfalso. apply Hne. by rewrite Eu, <- Hid, H. }
  split; [done |]. unfold enrichByType. rewrite Htype. reflexivity.
Qed.

End VideoRouting.

Lemma video_links_are_routed_witness :
  has_title video_record
  /\ extractYoutubeId (get video_record "url") = Returned (Some "dQw4w9WgXcQ")
  /\ get video_record "url" <> VStr "dQw4w9WgXcQ"
  /\ detectSourceType video_record = Returned "youtube"
  /\ enrichByType offline video_record = enrichYoutube offline video_record.
Proof.
  assert (H1 : has_title video_record)
    by (exists "Never Gonna Give You Up"; vm_compute; reflexivity).
  assert (H2 : extractYoutubeId (get video_record "url")
               = Returned (Some "dQw4w9WgXcQ"))
    by (vm_compute; reflexivity).
  assert (H3 : get video_record "url" <> VStr "dQw4w9WgXcQ")
    by (vm_compute; discriminate).
  split; [exact H1 |]. split; [exact H2 |]. split; [exact H3 |].
  exact (video_links_are_routed offline video_record _ H1 H2 H3).
Defined.

(** The type is read from the lower-cased url and the id from the url as
    it is: a link with an upper-case host is typed "youtube" and no id is
    read from it. *)
Example video_link_upper_case :
  detectSourceType {[ "title" := VStr "Talk"; "url" := VStr "https://YouTube.com/watch?v=dQw4w9WgXcQ" ]}
  = Returned "youtube"
  /\ extractYoutubeId (VStr "https://YouTube.com/watch?v=dQw4w9WgXcQ") = Returned None.
Proof. split; vm_compute; reflexivity. Qed.

(** ** The cleaned title *)

Section CleanTitle.

Import Regex.

Lemma or_else_answered {A} (x y : option A) : x <> None -> or_else x y = x.
Proof. by destruct x. Qed.

Lemma run_length_le p s : (run_length p s <= length s)%nat.
Proof.
  induction s as [| c s IH]; simpl; [lia |]. destruct (p c); simpl; lia.
Qed.

(** A greedy quantifier without upper bound around a character class reads
    the whole run of the class, when the rest of the pattern accepts
    that. *)
Lemma repeat_greedy {A} p (k : mstate -> option A) :
  (forall st, k st <> None) ->
  forall s fuel lo q cs,
    (lo <= run_length p s)%nat -> (length s < fuel)%nat ->
    repeat_ (run (Chr p)) k true fuel lo None (MState q s cs)
    = k (MState (last_or q (take (run_length p s) s))
           (drop (run_length p s) s) cs).
Proof.
  intros Hk s. induction s as [| c s IH]; intros fuel lo q cs Hlo Hfuel;
    (destruct fuel as [| fuel]; [simpl in Hfuel; lia |]).
  - simpl in Hlo. replace lo with 0%nat by lia. reflexivity.
  - cbn [run_length] in *. cbn [repeat_ hi_zero run rest caps].
    destruct (p c) eqn:Hc.
    + replace ((length s =? length (c :: s))%nat) with false
        by (symmetry; apply Nat.eqb_neq; simpl; lia).
      rewrite andb_false_r. cbn [dec_hi].
      rewrite IH by (simpl in Hfuel; lia).
      cbn [take drop]. rewrite last_or_cons.
      apply or_else_answered, Hk.
    + replace lo with 0%nat by lia. reflexivity.
Qed.

Lemma match_at_spaces p s :
  (1 <= run_length Char.is_space s)%nat ->
  match_at re_spaces p s
  = Some (Found (take (run_length Char.is_space s) s) []
            (drop (run_length Char.is_space s) s)).
Proof.
  intros H. unfold match_at, re_spaces, plus, space. rewrite run_Rep.
  cbn [rest]. rewrite repeat_greedy by (done || lia).
  cbn [rest caps]. rewrite length_drop.
  pose proof (run_length_le Char.is_space s).
  by replace (length s - (length s - run_length Char.is_space s))%nat
    with (run_length Char.is_space s) by lia.
Qed.

Lemma first_char_spaces : first_char Char.is_space re_spaces.
Proof.
  intros st st' H. unfold re_spaces, plus, space in H.
  apply matches_Rep_Chr in H as (w & _ & R & Hall & Hlo & _).
  destruct w as [| c w]; [simpl in Hlo; lia |].
  inversion Hall; subst. rewrite R. cbn. eauto.
Qed.

Lemma match_at_spaces_None p s :
  run_length Char.is_space s = 0%nat -> match_at re_spaces p s = None.
Proof.
  intros H. destruct s as [| c s].
  - destruct (match_at re_spaces p []) as [m |] eqn:E; [| done].
    apply match_at_matches in E as (st' & Hm & _).
    apply first_char_spaces in Hm as (c & s & [=] & _).
  - simpl in H. destruct (Char.is_space c) eqn:Hc; [discriminate |].
    apply (match_at_first_char Char.is_space); [apply first_char_spaces | exact Hc].
Qed.

(** Replacing every run of white space by one space leaves single spaces
    only. *)
Lemma replace_spaces_spaced s :
  forall p,
    spaced false (replace_all_from re_spaces [" "%char] p s 0) = true
    /\ spaced true
         (replace_all_from re_spaces [" "%char] p s (run_length Char.is_space s))
       = true.
Proof.
  induction s as [| c s IH]; intros p.
  - cbn [run_length replace_all_from]. by rewrite match_at_spaces_None.
  - cbn [run_length]. destruct (Char.is_space c) eqn:Hc.
    + split; [| cbn [replace_all_from]; apply IH].
      cbn [replace_all_from]. rewrite match_at_spaces
        by (cbn [run_length]; rewrite Hc; lia).
      cbn [run_length]. rewrite Hc. cbn [whole take app].
      rewrite length_take, Nat.min_l by apply run_length_le.
      cbn [spaced]. change (Char.is_space " ") with true. cbn.
      apply IH.
    + assert (E : replace_all_from re_spaces [" "%char] p (c :: s) 0
                  = c :: replace_all_from re_spaces [" "%char] (Some c) s 0).
      { cbn [replace_all_from]. rewrite match_at_spaces_None; [done |].
        cbn [run_length]. by rewrite Hc. }
      rewrite E. cbn [spaced]. rewrite Hc. split; apply IH.
Qed.

Lemma spaced_weaken s : spaced true s = true -> spaced false s = true.
Proof.
  destruct s as [| c s]; [done |]. cbn [spaced].
  destruct (Char.is_space c); [discriminate | done].
Qed.

Lemma spaced_tail b c s : spaced b (c :: s) = true -> spaced false s = true.
Proof.
  cbn [spaced]. destruct (Char.is_space c); [| done].
  intros H. apply andb_true_iff in H as [_ H]. by apply spaced_weaken.
Qed.

Lemma spaced_drop_spaces s :
  spaced false s = true -> spaced true (Js.drop_spaces s) = true.
Proof.
  induction s as [| c s IH]; [done |]. intros H. cbn [Js.drop_spaces].
  destruct (Char.is_space c) eqn:Hc.
  - apply IH. by apply spaced_tail in H.
  - cbn [spaced] in *. by rewrite Hc in *.
Qed.

Lemma spaced_app_l b s1 s2 : spaced b (s1 ++ s2) = true -> spaced b s1 = true.
Proof.
  revert b. induction s1 as [| c s1 IH]; intros b; [done |].
  cbn [app spaced]. destruct (Char.is_space c); [| apply IH].
  intros H. apply andb_true_iff in H as [-> H]. by apply IH.
Qed.

Lemma drop_spaces_split s : exists sp, s = (sp ++ Js.drop_spaces s)%list.
Proof.
  induction s as [| c s [sp IH]]; [by exists [] |]. cbn [Js.drop_spaces].
  destruct (Char.is_space c); [| by exists []].
  exists (c :: sp). cbn [app]. by rewrite <- IH.
Qed.

Lemma spaced_trim_chars s :
  spaced false s = true -> spaced true (trim_chars s) = true.
Proof.
  intros H. apply spaced_drop_spaces in H. unfold trim_chars.
  destruct (drop_spaces_split (rev (Js.drop_spaces s))) as [sp E].
  apply (f_equal (@rev ascii)) in E. rewrite rev_involutive, rev_app_distr in E.
  rewrite E in H. by apply spaced_app_l in H.
Qed.

(** A replacement brings in no character but those of the replacement
    text. *)
Lemma replace_all_from_sub r by_ s c :
  forall p n, c ∈ replace_all_from r by_ p s n -> c ∈ by_ \/ c ∈ s.
Proof.
  induction s as [| d s IH]; intros p n; cbn [replace_all_from].
  - destruct n; [| by intros ?%elem_of_nil].
    destruct (match_at r p []); rewrite ?app_nil_r; [by left |].
    by intros ?%elem_of_nil.
  - destruct n as [| n].
    + destruct (match_at r p (d :: s)) as [m |].
      * intros [H | H]%elem_of_app; [by left |].
        destruct (whole m).
        -- apply elem_of_cons in H as [-> | H]; [right; by left |].
           apply IH in H as [H | H]; [by left | right; by right].
        -- apply IH in H as [H | H]; [by left | right; by right].
      * intros H. apply elem_of_cons in H as [-> | H]; [right; by left |].
        apply IH in H as [H | H]; [by left | right; by right].
    + intros H. apply IH in H as [H | H]; [by left | right; by right].
Qed.

Lemma replace_first_sub r by_ s c :
  c ∈ replace_first r by_ s -> c ∈ by_ \/ c ∈ s.
Proof.
  unfold replace_first, search.
  destruct (search_from r None s []) as [[b m] |] eqn:E; [| by right].
  apply search_from_matches in E as (pre & s2 & -> & -> & H).
  apply match_at_matches in H as (_ & _ & -> & _).
  cbn [rev app]. rewrite !elem_of_app. tauto.
Qed.

Lemma replace_g_sub r (by_ s : string) c :
  c ∈ Js.chars (Js.replace_g r by_ s) -> c ∈ Js.chars by_ \/ c ∈ Js.chars s.
Proof.
  unfold Js.replace_g, replace_all. rewrite chars_str.
  apply replace_all_from_sub.
Qed.

Lemma replace_sub r (by_ s : string) c :
  c ∈ Js.chars (Js.replace r by_ s) -> c ∈ Js.chars by_ \/ c ∈ Js.chars s.
Proof.
  unfold Js.replace. rewrite chars_str. apply replace_first_sub.
Qed.

Lemma space_only c : c ∈ Js.chars " " -> c = " "%char.
Proof. by intros ->%list_elem_of_singleton. Qed.

(** X17. A cleaned title holds no quote character, and its only white
    space is single spaces between its words: none at either end, no two
    in a row, and neither tabs nor line breaks. *)
Theorem cleanTitleForSearch_normal_form (title : string) :
  spaced true (Js.chars (cleanTitleForSearch title)) = true
  /\ Js.trim (cleanTitleForSearch title) = cleanTitleForSearch title
  /\ Forall (fun c => is_quote c = false) (Js.chars (cleanTitleForSearch title)).
Proof.
  unfold cleanTitleForSearch.
  set (t1 := Js.replace re_extension "" title).
  set (t2 := Js.replace_g re_quotes "" t1).
  set (t3 := Js.replace re_platform_suffix "" t2).
  set (t4 := Js.replace re_et_al " " t3).
  set (t5 := Js.replace_g re_year_dash " " t4).
  set (t6 := Js.replace_g re_spaces " " t5).
  split; [| split].
  - rewrite trim_trim_chars, chars_str. apply spaced_trim_chars.
    unfold t6, Js.replace_g, replace_all. rewrite chars_str.
    apply replace_spaces_spaced.
  - apply trim_idem.
  - apply Forall_forall. intros c Hc.
    rewrite trim_trim_chars, chars_str in Hc. apply trim_chars_sub in Hc.
    assert (H2 : forall d, d ∈ Js.chars t2 -> is_quote d = false).
    { intros d. unfold t2, Js.replace_g, replace_all, re_quotes.
      rewrite chars_str, replace_all_from_Chr, subst_chars_delete.
      rewrite list_elem_of_In, filter_In. intros [_ H].
      by apply negb_true_iff in H. }
    apply replace_g_sub in Hc as [->%space_only | Hc]; [done |].
    apply replace_g_sub in Hc as [->%space_only | Hc]; [done |].
    apply replace_sub in Hc as [->%space_only | Hc]; [done |].
    apply replace_sub in Hc as [Hc | Hc]; [by apply elem_of_nil in Hc |].
    by apply H2.
Qed.

End CleanTitle.

Example cleanTitleForSearch_cleans :
  cleanTitleForSearch "  Smith et al. - 2021 -  'Deep'   Learning.pdf"
  = "Smith - Deep Learning".
Proof. vm_compute. reflexivity. Qed.

(** ** What [extractDOI] returns, exactly *)

Section DoiMatch.

Import Regex.

Lemma run_length_app p (w s : list ascii) :
  Forall (fun c => p c = true) w ->
  run_length p (w ++ s) = (length w + run_length p s)%nat.
Proof.
  induction 1 as [| c w Hc _ IH]; [done |].
  cbn [app run_length length]. by rewrite Hc, IH.
Qed.

Lemma run_length_drop p s : run_length p (drop (run_length p s) s) = 0%nat.
Proof.
  induction s as [| c s IH]; [done |]. cbn [run_length].
  destruct (p c) eqn:Hc; [exact IH |]. cbn [drop run_length]. by rewrite Hc.
Qed.

Lemma run_length_take p s :
  Forall (fun c => p c = true) (take (run_length p s) s).
Proof.
  induction s as [| c s IH]; [constructor |]. cbn [run_length].
  destruct (p c) eqn:Hc; [by constructor | constructor].
Qed.

Lemma at_space_run_length s :
  run_length (fun c => negb (Char.is_space c)) s = 0%nat -> at_space s.
Proof.
  destruct s as [| c s]; [done |]. cbn.
  destruct (Char.is_space c); [done | discriminate].
Qed.

(** The captured DOI body, where the rest of the pattern accepts whatever
    comes: the greedy last part reads up to the next white space. *)
Lemma run_doi_group {A} st (k : mstate -> option A) x :
  (forall st', k st' <> None) ->
  run (Grp 1 re_doi_body) st k = Some x ->
  exists d post q,
    doi_shaped d /\ rest st = (d ++ post)%list /\ at_space post
    /\ k (MState q post ((1%nat, d) :: caps st)) = Some x.
Proof.
  intros Hk. rewrite run_Grp. unfold re_doi_body. cbn [seq].
  rewrite run_Seq. intros H.
  apply run_matches in H as (st1 & H1 & H). rewrite run_Seq in H.
  apply run_matches in H as (st2 & H2 & H). rewrite run_Seq in H.
  apply run_matches in H as (st3 & H3 & H).
  apply matches_text in H1 as [E1 R1].
  apply matches_Rep_Chr in H2 as (digits & E2 & R2 & Hdigits & Hlen & _).
  apply matches_Chr_inv in H3 as (c & E3 & R3 & Hc).
  apply same_eq in Hc. subst c.
  assert (Hcaps : caps st3 = caps st).
  { apply (f_equal caps) in E1, E2, E3. cbn [caps] in *. congruence. }
  pose proof H as H4. apply run_matches in H4 as (st4 & H4 & _).
  unfold plus, non_space in H4.
  apply matches_Rep_Chr in H4 as (w & _ & R4 & Hw & Hne & _).
  set (p := fun c => negb (Char.is_space c)) in *.
  assert (Hrun : (1 <= run_length p (rest st3))%nat).
  { rewrite R4, run_length_app by done. lia. }
  unfold plus, non_space in H. fold p in H. rewrite run_Rep in H.
  destruct st3 as [q3 s3 cs3]. cbn [rest caps prev] in *.
  rewrite repeat_greedy in H; [| | done | lia].
  2:{ intros st'. apply Hk. }
  cbn [prev rest caps] in H.
  set (body := take (run_length p s3) s3) in *.
  set (post := drop (run_length p s3) s3) in *.
  assert (Es3 : s3 = (body ++ post)%list) by (symmetry; apply take_drop).
  assert (Hst : rest st
                = ((Js.chars "10." ++ digits ++ "/"%char :: body) ++ post)%list).
  { rewrite R1, R2, R3, Es3, <- !app_assoc. reflexivity. }
  exists (Js.chars "10." ++ digits ++ "/"%char :: body)%list, post,
    (last_or q3 body).
  split; [| split; [exact Hst | split]].
  - exists digits, body. repeat split; [done | done | |].
    + intros Hb. unfold body in Hb. apply (f_equal length) in Hb.
      rewrite length_take in Hb. pose proof (run_length_le p s3). simpl in Hb. lia.
    + pose proof (run_length_take p s3) as Hall. fold body in Hall.
      eapply Forall_impl; [exact Hall |]. intros c Hc. unfold p in Hc.
      by apply negb_true_iff in Hc.
  - apply at_space_run_length. apply run_length_drop.
  - rewrite Hst, length_app in H.
    replace (length (Js.chars "10." ++ digits ++ "/"%char :: body) + length post
             - length post)%nat
      with (length (Js.chars "10." ++ digits ++ "/"%char :: body)) in H by lia.
    rewrite take_app_length in H. by rewrite Hcaps in H.
Qed.

Lemma standard_match_end p s m :
  match_at DOI_PATTERNS_standard p s = Some m ->
  doi_shaped (whole m) /\ s = (whole m ++ after m)%list /\ at_space (after m).
Proof.
  unfold match_at, DOI_PATTERNS_standard. cbn [seq]. rewrite run_Seq. intros H.
  apply run_matches in H as (st1 & H1 & H).
  apply matches_WordB_inv in H1 as ->.
  apply run_doi_group in H as (d & post & q & Hd & R & Hpost & H); [| done].
  cbn [rest caps] in *. injection H as <-. cbn [whole after].
  rewrite R, length_app.
  replace (length d + length post - length post)%nat with (length d) by lia.
  by rewrite take_app_length.
Qed.

Lemma first_standard_match_end (t w : string) :
  first_standard_match t = Some w ->
  doi_shaped (Js.chars w)
  /\ exists pre post,
       Js.chars t = (pre ++ Js.chars w ++ post)%list /\ at_space post.
Proof.
  unfold first_standard_match, Js.match_g, match_all.
  destruct (all_from DOI_PATTERNS_standard None (Js.chars t) 0)
    as [| w0 ws] eqn:E; [discriminate |].
  cbn. intros [= <-]. rewrite chars_str.
  apply all_from_head in E as (pre & s2 & m & Ht & H & <-).
  apply standard_match_end in H as (Hd & Hs & Hpost).
  split; [done |]. exists pre, (after m). by rewrite Ht, Hs.
Qed.

Lemma doi_link_end (url : string) m :
  Js.exec SOURCE_PATTERNS_doi url = Some m ->
  exists d,
    Js.capture 1 m = Some (Js.str d) /\ doi_shaped d
    /\ exists pre post, Js.chars url = (pre ++ d ++ post)%list /\ at_space post.
Proof.
  unfold Js.exec, search.
  destruct (search_from _ _ _ _) as [[b m'] |] eqn:E; [| discriminate].
  cbn. intros [= ->].
  apply search_from_matches in E as (pre & s2 & Hu & _ & H).
  unfold match_at, SOURCE_PATTERNS_doi in H. cbn [seq] in H.
  rewrite run_Seq in H.
  apply run_matches in H as (st1 & H1 & H).
  apply matches_text_ci in H1 as (w & E1 & R1 & _). cbn [rest prev caps] in *.
  apply run_doi_group in H as (d & post & q & Hd & R & Hpost & H); [| done].
  rewrite E1 in H. cbn [caps] in H. injection H as <-.
  exists d. split; [reflexivity |]. split; [done |].
  exists (pre ++ w)%list, post. split; [| done].
  by rewrite Hu, R1, R, <- app_assoc.
Qed.

Lemma extractDOI_url_end (url d : string) :
  extractDOI_url url = Some d ->
  doi_shaped (Js.chars d) /\ cleanDOI d = d
  /\ exists pre post : list ascii,
       Js.chars url = (pre ++ Js.chars d ++ post)%list
       /\ at_space post
       /\ ((exists m, Js.exec SOURCE_PATTERNS_doi url = Some m
                      /\ Js.capture 1 m = Some d)
           \/ (Js.exec SOURCE_PATTERNS_doi url = None
               /\ first_standard_match url = Some d)).
Proof.
  unfold extractDOI_url.
  destruct (Js.exec SOURCE_PATTERNS_doi url) as [m |] eqn:Em.
  - destruct (doi_link_end url m Em) as (w & Hcap & Hw & pre & post & Hin & Hpost).
    rewrite Hcap. cbn. intros [= H].
    assert (Hclean : cleanDOI (Js.str w) = Js.str w)
      by (apply cleanDOI_doi_shaped; by rewrite chars_str).
    rewrite Hclean in H. subst d. rewrite chars_str.
    repeat split; [done | done |].
    exists pre, post. repeat split; [done | done |]. left. eauto.
  - destruct (Js.match_g DOI_PATTERNS_standard url) as [ms |] eqn:Ems;
      [| discriminate].
    assert (Ew : first_standard_match url = ms !! 0%nat).
    { unfold first_standard_match. rewrite Ems. by destruct ms. }
    destruct (ms !! 0%nat) as [w |]; [| discriminate].
    cbn. intros [= H].
    destruct (first_standard_match_end url w Ew) as (Hw & pre & post & Hin & Hpost).
    rewrite (cleanDOI_doi_shaped w Hw) in H. subst d.
    repeat split; [done | by apply cleanDOI_doi_shaped |].
    exists pre, post. repeat split; [done | done |]. by right.
Qed.

(** X12. What [extractDOI] returns is the first match of the [standard]
    pattern in the title, as it is; when the title holds none, it is the
    identifier behind the first ["doi.org/"] of the url, or else the first
    match of the [standard] pattern in the url.  In each case it reads
    ["10."], four digits or more, a slash and then every character up to
    the next white space or the end of the text, and [cleanDOI] has changed
    nothing in it. *)
Theorem extractDOI_returns_a_match (source : obj) (d : string) :
  string_or_falsy (get source "title") ->
  string_or_falsy (get source "url") ->
  extractDOI source = Returned (Some d) ->
  doi_shaped (Js.chars d)
  /\ cleanDOI d = d
  /\ exists (t : string) (pre post : list ascii),
       Js.chars t = (pre ++ Js.chars d ++ post)%list
       /\ at_space post
       /\ ((get source "title" = VStr t /\ first_standard_match t = Some d)
           \/ ((text_of (get source "title") ≫= first_standard_match) = None
               /\ get source "url" = VStr t
               /\ ((exists m, Js.exec SOURCE_PATTERNS_doi t = Some m
                              /\ Js.capture 1 m = Some d)
                   \/ (Js.exec SOURCE_PATTERNS_doi t = None
                       /\ first_standard_match t = Some d)))).
Proof.
  intros Ht Hu. unfold extractDOI.
  rewrite (truthy_string_text _ Ht), (truthy_string_text _ Hu). intros H.
  assert (Hurl : forall url,
    (text_of (get source "title") ≫= first_standard_match) = None ->
    text_of (get source "url") = Some url -> extractDOI_url url = Some d ->
    doi_shaped (Js.chars d) /\ cleanDOI d = d
    /\ exists (t : string) (pre post : list ascii),
         Js.chars t = (pre ++ Js.chars d ++ post)%list
         /\ at_space post
         /\ ((get source "title" = VStr t /\ first_standard_match t = Some d)
             \/ ((text_of (get source "title") ≫= first_standard_match) = None
                 /\ get source "url" = VStr t
                 /\ ((exists m, Js.exec SOURCE_PATTERNS_doi t = Some m
                                /\ Js.capture 1 m = Some d)
                     \/ (Js.exec SOURCE_PATTERNS_doi t = None
                         /\ first_standard_match t = Some d))))).
  { intros url Hnone Eu Hd. apply text_of_Some in Eu.
    destruct (extractDOI_url_end url d Hd) as (Hs & Hc & pre & post & Hin & Hp & Hm).
    repeat split; [done | done |]. exists url, pre, post.
    repeat split; [done | done |]. right. by repeat split. }
  destruct (text_of (get source "title")) as [title |] eqn:Et;
    cbn [mbind option_bind outcome_bind] in H.
  - rewrite extractDOI_title_standard in H.
    destruct (first_standard_match title) as [w |] eqn:Ew; cbn in H.
    + injection H as H.
      destruct (first_standard_match_end title w Ew) as (Hw & pre & post & Hin & Hpost).
      rewrite (cleanDOI_doi_shaped w Hw) in H. subst d.
      repeat split; [done | by apply cleanDOI_doi_shaped |].
      exists title, pre, post. repeat split; [done | done |].
      left. split; [by apply text_of_Some | done].
    + injection H as H.
      destruct (text_of (get source "url")) as [url |] eqn:Eu; [| discriminate].
      apply (Hurl url); [exact Ew | reflexivity | exact H].
  - injection H as H.
    destruct (text_of (get source "url")) as [url |] eqn:Eu; [| discriminate].
    apply (Hurl url); [reflexivity | reflexivity | exact H].
Qed.

End DoiMatch.

Lemma extractDOI_returns_a_match_witness :
  string_or_falsy (get smith_source "title")
  /\ string_or_falsy (get smith_source "url")
  /\ extractDOI smith_source = Returned (Some "10.1038/s41586-024-01234-5.pdf")
  /\ doi_shaped (Js.chars "10.1038/s41586-024-01234-5.pdf")
  /\ cleanDOI "10.1038/s41586-024-01234-5.pdf" = "10.1038/s41586-024-01234-5.pdf"
  /\ exists (t : string) (pre post : list ascii),
       Js.chars t = (pre ++ Js.chars "10.1038/s41586-024-01234-5.pdf" ++ post)%list
       /\ at_space post
       /\ ((get smith_source "title" = VStr t
            /\ first_standard_match t = Some "10.1038/s41586-024-01234-5.pdf")
           \/ ((text_of (get smith_source "title") ≫= first_standard_match) = None
               /\ get smith_source "url" = VStr t
               /\ ((exists m, Js.exec SOURCE_PATTERNS_doi t = Some m
                              /\ Js.capture 1 m = Some "10.1038/s41586-024-01234-5.pdf")
                   \/ (Js.exec SOURCE_PATTERNS_doi t = None
                       /\ first_standard_match t
                          = Some "10.1038/s41586-024-01234-5.pdf")))).
Proof.
  assert (H1 : string_or_falsy (get smith_source "title"))
    by (vm_compute; exact I).
  assert (H2 : string_or_falsy (get smith_source "url"))
    by (vm_compute; reflexivity).
  assert (H3 : extractDOI smith_source
               = Returned (Some "10.1038/s41586-024-01234-5.pdf"))
    by (vm_compute; reflexivity).
  split; [exact H1 |]. split; [exact H2 |]. split; [exact H3 |].
  exact (extractDOI_returns_a_match smith_source _ H1 H2 H3).
Defined.

(** The identifier without the file extension is no answer: it does not end
    at white space, and it is not the match. *)
Example extractDOI_not_a_prefix :
  first_standard_match "Smith et al - 2024 - 10.1038/s41586-024-01234-5.pdf"
  = Some "10.1038/s41586-024-01234-5.pdf"
  /\ first_standard_match "see 10.1000/182 and 10.1000/183" = Some "10.1000/182".
Proof. split; vm_compute; reflexivity. Qed.

(** ** Running a pattern forwards *)

Section RunForwards.

Import Regex.
Context {A : Type}.
Implicit Types k : mstate -> option A.

Lemma run_Eps st k : run Eps st k = k st.
Proof. reflexivity. Qed.

Lemma run_Bol_start s cs k : run Bol (MState None s cs) k = k (MState None s cs).
Proof. reflexivity. Qed.













End RunForwards.


(** ** The four formats of a filename *)

Section FilenameFormats.

Import Regex.
















(** *** Where a pattern cannot match *)
























End FilenameFormats.

